(** * Offline sync engine: record store, repository and sync pass

    A shallow embedding of the sync engine of the Offline Sync App.  The
    repository holds two implementations of the same engine:

    - the Expo / TypeScript one ([lib/data/database.ts], [repository.ts],
      [api.ts], [mappers.ts], [lib/domain/use-cases.ts], with the triggers
      of [lib/sync/background-sync.ts] and the error logger), embedded in
      [Module TS];
    - the native Android / Kotlin one ([RecordDao], [RecordRepositoryImpl],
      [RecordMapper.kt] and the use cases), embedded in [Module Kt].

    Modelling conventions.

    - The [records] table is a finite map from its PRIMARY KEY column [id]
      to the remaining seven columns ([Row]); a missing table and an empty
      table are not distinguished, since every statement runs after
      [CREATE TABLE IF NOT EXISTS].
    - A statement fails only when a constraint of the schema rejects it
      (PRIMARY KEY on insert, the CHECK on [syncStatus]) or when the
      database handle is missing; I/O failures of the storage engine are
      outside the model.
    - Everything outside the process (the HTTP endpoint reached through
      axios or Retrofit, the wall clock, the UUID generator, the passing of
      time during a [setTimeout]) is an oracle over an abstract state [E].
    - Exceptions and [try]/[catch] are modelled by a state-and-error monad.
      In [Module TS] and [Module Kt] an [async] function runs to completion
      before the next one starts.  Calls that overlap are modelled apart:
      [Module TSAsync] has the functions of a sync pass cut at their
      [await]s, [Module App] interleaves them with the triggers of
      [sync-provider.tsx] and of the network listener, and [Module KtEngine]
      has the Kotlin [syncRecord] cut by a kill of the process.
    - A JavaScript or Kotlin string is modelled by the [string] of its
      UTF-16 code units, each taken to be below 256 (the Latin-1 range), so
      that [length] counts code units.  In this range the white space of
      [String.prototype.trim] is TAB, LF, VT, FF, CR, SPACE and NO-BREAK
      SPACE (U+00A0), and that of Kotlin's [Char.isWhitespace] is U+0009 to
      U+000D, U+001C to U+0020 and U+00A0.
    - A timestamp is an integer; a [Date] is kept as its time value, which
      is that integer for the time values a [Date] can hold, from
      -8.64e15 to 8.64e15 ([JS.valid_time_value]).
    - Each world carries a ghost [log] of the durable writes, remote calls,
      validations and timer waits performed so far, in chronological
      order.  The call of the remote made by [syncRecord] is wrapped in
      [send], which enters the record and the outcome in the log and
      changes nothing else. *)

From stdpp Require Import base option list gmap fin_maps strings sorting pretty.
From Stdlib Require Import ZArith Ascii String.

Local Open Scope string_scope.
Local Open Scope list_scope.
Local Open Scope Z_scope.

(** ** Data model shared by both implementations *)

(** [SyncStatus]: the Kotlin enum has the four values; the TypeScript union
    type is ['PENDING' | 'SYNCED' | 'FAILED'] and its table carries
    [CHECK(syncStatus IN ('PENDING', 'SYNCED', 'FAILED'))], modelled by
    [TS.db.check_syncStatus]. *)
Inductive SyncStatus : Type :=
| PENDING
| SYNCING
| SYNCED
| FAILED.

#[global] Instance SyncStatus_eq_dec : EqDecision SyncStatus.
Proof. solve_decision. Defined.

(** [RecordEntity] (types.ts, RecordEntity.kt). *)
Record RecordEntity : Type := mkEntity {
  id : string;
  title : string;
  body : string;
  createdAt : Z;
  syncStatus : SyncStatus;
  remoteId : option Z;
  lastSyncAttempt : option Z;
  syncError : option string
}.

(** The columns of a row other than the key. *)
Record Row : Type := mkRow {
  col_title : string;
  col_body : string;
  col_createdAt : Z;
  col_syncStatus : SyncStatus;
  col_remoteId : option Z;
  col_lastSyncAttempt : option Z;
  col_syncError : option string
}.

Definition to_row (e : RecordEntity) : Row :=
  {| col_title := title e; col_body := body e; col_createdAt := createdAt e;
     col_syncStatus := syncStatus e; col_remoteId := remoteId e;
     col_lastSyncAttempt := lastSyncAttempt e; col_syncError := syncError e |}.

Definition to_entity (k : string) (r : Row) : RecordEntity :=
  {| id := k; title := col_title r; body := col_body r;
     createdAt := col_createdAt r; syncStatus := col_syncStatus r;
     remoteId := col_remoteId r; lastSyncAttempt := col_lastSyncAttempt r;
     syncError := col_syncError r |}.

(** [UPDATE records SET syncStatus = ?, remoteId = ?, lastSyncAttempt = ?,
    syncError = ?]: the four sync columns are overwritten, the content
    columns are not named by the statement. *)
Definition set_sync (st : SyncStatus) (rid : option Z) (ts : Z)
  (err : option string) (r : Row) : Row :=
  {| col_title := col_title r; col_body := col_body r;
     col_createdAt := col_createdAt r;
     col_syncStatus := st; col_remoteId := rid;
     col_lastSyncAttempt := Some ts; col_syncError := err |}.

(** [SELECT * FROM records]: the rows as entities. *)
Definition rows (t : gmap string Row) : list RecordEntity :=
  (λ kr, to_entity kr.1 kr.2) <$> map_to_list t.

(** [ORDER BY createdAt DESC]; rows with equal [createdAt] come in the
    order of the scan, which SQL leaves open: [order_by_createdAt_desc]
    below is one such order. *)
Definition newer_first (a b : RecordEntity) : Prop := createdAt b ≤ createdAt a.

#[global] Instance newer_first_dec a b : Decision (newer_first a b).
Proof. unfold newer_first. apply _. Defined.

Definition order_by_createdAt_desc (l : list RecordEntity) : list RecordEntity :=
  merge_sort newer_first l.

Definition has_status (st : SyncStatus) (e : RecordEntity) : Prop :=
  syncStatus e = st.

#[global] Instance has_status_dec st e : Decision (has_status st e).
Proof. unfold has_status. apply _. Defined.

(** [SELECT * FROM records WHERE syncStatus = ? ORDER BY createdAt DESC] *)
Definition select_by_status (st : SyncStatus) (t : gmap string Row)
  : list RecordEntity :=
  order_by_createdAt_desc (filter (has_status st) (rows t)).

(** DTOs of the remote endpoint, [POST /posts]. *)
Record CreatePostDTO : Type := mkDTO {
  dto_title : string;
  dto_body : string;
  dto_userId : Z
}.

Record PostResponseDTO : Type := mkResponse {
  resp_id : Z;
  resp_title : string;
  resp_body : string;
  resp_userId : Z
}.

(** ** JavaScript strings *)

Module JS.

(** The code units below 256 that [String.prototype.trim] removes: the
    WhiteSpace TAB (9), VT (11), FF (12), SPACE (32) and NO-BREAK SPACE
    (160), and the LineTerminators LF (10) and CR (13). *)
Definition is_white_space (a : ascii) : bool :=
  let n := nat_of_ascii a in
  ((9 <=? n)%nat && (n <=? 13)%nat) || (n =? 32)%nat || (n =? 160)%nat.

(** NO-BREAK SPACE, U+00A0. *)
Definition NBSP : ascii := ascii_of_nat 160.

(** The time values a [Date] can hold: [new Date(t)] is an invalid date,
    with time value [NaN], for any other [t]. *)
Definition valid_time_value (t : Z) : Prop :=
  -8640000000000000 ≤ t ≤ 8640000000000000.

Fixpoint trimStart (s : string) : string :=
  match s with
  | EmptyString => EmptyString
  | String a s' => if is_white_space a then trimStart s' else s
  end.

Fixpoint trimEnd (s : string) : string :=
  match s with
  | EmptyString => EmptyString
  | String a s' =>
      match trimEnd s' with
      | EmptyString => if is_white_space a then EmptyString else String a EmptyString
      | t => String a t
      end
  end.

Definition trim (s : string) : string := trimEnd (trimStart s).

(** [s.length] *)
Definition length (s : string) : Z := Z.of_nat (String.length s).

(** [a || b] on strings: the empty string is falsy. *)
Definition or_else (a b : string) : string :=
  match a with EmptyString => b | _ => a end.

Fixpoint repeat (a : ascii) (n : nat) : string :=
  match n with O => EmptyString | S n' => String a (repeat a n') end.

End JS.

(** ** A state-and-error monad for [async] code with [try]/[catch] *)

Definition M (S X A : Type) : Type := S → S * (X + A).

#[global] Instance M_ret {S X} : MRet (M S X) := λ A a s, (s, inr a).

#[global] Instance M_bind {S X} : MBind (M S X) := λ A B f m s,
  match m s with
  | (s', inl x) => (s', inl x)
  | (s', inr a) => f a s'
  end.

Definition throw {S X A} (x : X) : M S X A := λ s, (s, inl x).

(** [try { m } catch (error) { h error }] *)
Definition try_catch {S X A} (m : M S X A) (h : X → M S X A) : M S X A := λ s,
  match m s with
  | (s', inl x) => h x s'
  | (s', inr a) => (s', inr a)
  end.

Definition modify {S X} (f : S → S) : M S X unit := λ s, (f s, inr ()).

Definition gets {S X A} (f : S → A) : M S X A := λ s, (s, inr (f s)).

(** The ghost log.  [X] is the type of thrown values of the implementation. *)
Inductive Event (X : Type) : Type :=
| EvInsert (k : string) (r : Row)
| EvUpdate (k : string) (r : Row)
| EvSend (k : string) (dto : CreatePostDTO) (res : X + PostResponseDTO)
| EvWait (ms : Z)
| EvValidate (t b : string).

Arguments EvInsert {X} k r.
Arguments EvUpdate {X} k r.
Arguments EvSend {X} k dto res.
Arguments EvWait {X} ms.
Arguments EvValidate {X} t b.


Definition is_send {X} (ev : Event X) : bool :=
  match ev with EvSend _ _ _ => true | _ => false end.

Definition is_validate {X} (ev : Event X) : bool :=
  match ev with EvValidate _ _ => true | _ => false end.

(** The status a write event stores, if the event is a write. *)
Definition written_status {X} (ev : Event X) : option SyncStatus :=
  match ev with
  | EvInsert _ r | EvUpdate _ r => Some (col_syncStatus r)
  | _ => None
  end.

(** The milliseconds of the waits in a log, and the records sent. *)
Definition waits_of {X} (l : list (Event X)) : list Z :=
  omap (λ ev, match ev with EvWait ms => Some ms | _ => None end) l.

Definition sent_in {X} (l : list (Event X)) : list string :=
  omap (λ ev, match ev with EvSend k _ _ => Some k | _ => None end) l.

Definition statuses_written {X} (l : list (Event X)) : list SyncStatus :=
  omap written_status l.


(** ** The TypeScript implementation *)

Module TS.

(** [ApiErrorType] (api.ts) *)
Inductive ApiErrorType : Type :=
| NETWORK_ERROR
| TIMEOUT
| CLIENT_ERROR
| SERVER_ERROR
| UNKNOWN_ERROR.

#[global] Instance ApiErrorType_eq_dec : EqDecision ApiErrorType.
Proof. solve_decision. Defined.

(** The string value of each member of the enum. *)
Definition ApiErrorType_value (t : ApiErrorType) : string :=
  match t with
  | NETWORK_ERROR => "NETWORK_ERROR"
  | TIMEOUT => "TIMEOUT"
  | CLIENT_ERROR => "CLIENT_ERROR"
  | SERVER_ERROR => "SERVER_ERROR"
  | UNKNOWN_ERROR => "UNKNOWN_ERROR"
  end.

(** [class ApiError extends Error] *)
Record ApiError : Type := mkApiError {
  type : ApiErrorType;
  statusCode : option Z;
  message : string
}.

(** [new ApiError(type, statusCode, message)]: [super(message || type)]. *)
Definition new_ApiError (t : ApiErrorType) (status : option Z)
  (msg : option string) : ApiError :=
  {| type := t; statusCode := status;
     message := JS.or_else (default EmptyString msg) (ApiErrorType_value t) |}.

(** Values that the code throws and catches. *)
Inductive Exn : Type :=
| JsAxiosError (response_status : option Z) (code : option string) (msg : string)
| JsApiError (e : ApiError)
| JsValidationError (msg : string)
| JsError (msg : string)
| JsNonError.

(** [error instanceof Error] *)
Definition instanceof_Error (x : Exn) : bool :=
  match x with JsNonError => false | _ => true end.

(** [error.message] of an [Error] *)
Definition exn_message (x : Exn) : string :=
  match x with
  | JsAxiosError _ _ m => m
  | JsApiError e => message e
  | JsValidationError m => m
  | JsError m => m
  | JsNonError => EmptyString
  end.

(** [error instanceof Error ? error.message : 'Unknown error'] *)
Definition message_or_unknown (x : Exn) : string :=
  if instanceof_Error x then exn_message x else "Unknown error".

(** [error instanceof Error ? error : new Error('Unknown error')] *)
Definition error_or_unknown (x : Exn) : Exn :=
  if instanceof_Error x then x else JsError "Unknown error".

(** What lies outside the process. *)
Class External (E : Type) : Type := {
  (** [apiClient.post('/posts', data)]: the response data, or the value
      axios throws *)
  axios_post : CreatePostDTO → E → E * (Exn + PostResponseDTO);
  (** [Date.now()] *)
  Date_now : E → E * Z;
  (** [uuidv4()] *)
  uuidv4 : E → E * string;
  (** what a [setTimeout] of the given milliseconds lets happen outside *)
  setTimeout : Z → E → E
}.

(** The process and its database file. *)
Record World (E : Type) : Type := mkWorld {
  table : gmap string Row;
  dbInstance : bool;
  outside : E;
  log : list (Event Exn)
}.

Arguments mkWorld {E} table dbInstance outside log.
Arguments table {E} w.
Arguments dbInstance {E} w.
Arguments outside {E} w.
Arguments log {E} w.

Definition emit {E} (ev : Event Exn) : M (World E) Exn unit :=
  modify (λ w, mkWorld (table w) (dbInstance w) (outside w) (log w ++ [ev])).

Definition set_table {E} (t : gmap string Row) : M (World E) Exn unit :=
  modify (λ w, mkWorld t (dbInstance w) (outside w) (log w)).

(** Run an oracle of the outside world. *)
Definition ask {E A} (f : E → E * A) : M (World E) Exn A := λ w,
  let '(o, a) := f (outside w) in
  (mkWorld (table w) (dbInstance w) o (log w), inr a).

Definition Date_now_ {E} `{External E} : M (World E) Exn Z := ask Date_now.

(** [await new Promise((resolve) => setTimeout(resolve, ms))] *)
Definition sleep {E} `{External E} (ms : Z) : M (World E) Exn unit :=
  _ ← ask (λ o, (setTimeout ms o, ()));
  emit (EvWait ms).

(** *** api.ts *)
Module api.
Section api.
Context {E : Type} `{External E}.

Definition between (lo : Z) (x : Z) (hi : Z) : bool := (lo <=? x) && (x <? hi).

Definition parseAxiosError (error : Exn) : ApiError :=
  match error with
  | JsAxiosError None code msg =>
      if bool_decide (code = Some "ECONNABORTED")
      then new_ApiError TIMEOUT None (Some "Request timeout")
      else new_ApiError NETWORK_ERROR None
             (Some ("Network error: " +:+ JS.or_else msg "No connection"))
  | JsAxiosError (Some status) _ msg =>
      if between 400 status 500
      then new_ApiError CLIENT_ERROR (Some status)
             (Some ("Client error: " +:+ pretty status))
      else if 500 <=? status
      then new_ApiError SERVER_ERROR (Some status)
             (Some ("Server error: " +:+ pretty status))
      else new_ApiError UNKNOWN_ERROR None (Some msg)
  | _ => new_ApiError UNKNOWN_ERROR None (Some (message_or_unknown error))
  end.

Definition createPost (data : CreatePostDTO) : M (World E) Exn PostResponseDTO :=
  try_catch (λ w,
    let '(o, r) := axios_post data (outside w) in
    (mkWorld (table w) (dbInstance w) o (log w), r))
  (λ error, throw (JsApiError (parseAxiosError error))).

Definition isRetryableError (error : ApiError) : bool :=
  bool_decide (type error = NETWORK_ERROR)
  || bool_decide (type error = TIMEOUT)
  || bool_decide (type error = SERVER_ERROR).

Definition isPermanentError (error : ApiError) : bool :=
  bool_decide (type error = CLIENT_ERROR).

End api.

(** [apiClient.get('/posts')] and [apiClient.get(`/posts/${id}`)] *)
Class AxiosGet (E : Type) : Type := {
  axios_get_posts : E → E * (Exn + list PostResponseDTO);
  axios_get_post : Z → E → E * (Exn + PostResponseDTO)
}.

Section api_get.
Context {E : Type} `{AxiosGet E}.

Definition getAllPosts : M (World E) Exn (list PostResponseDTO) :=
  try_catch (λ w,
    let '(o, r) := axios_get_posts (outside w) in
    (mkWorld (table w) (dbInstance w) o (log w), r))
  (λ error, throw (JsApiError (parseAxiosError error))).

Definition getPostById (post_id : Z) : M (World E) Exn PostResponseDTO :=
  try_catch (λ w,
    let '(o, r) := axios_get_post post_id (outside w) in
    (mkWorld (table w) (dbInstance w) o (log w), r))
  (λ error, throw (JsApiError (parseAxiosError error))).

End api_get.
End api.

(** *** database.ts *)
Module db.
Section db.
Context {E : Type} `{External E}.

(** [CHECK(syncStatus IN ('PENDING', 'SYNCED', 'FAILED'))] *)
Definition check_syncStatus (st : SyncStatus) : bool :=
  match st with
  | PENDING | SYNCED | FAILED => true
  | SYNCING => false
  end.

(** [initDatabase]: returns the open handle, or opens the file and runs
    [CREATE TABLE IF NOT EXISTS] and [CREATE INDEX IF NOT EXISTS].  None of
    these statements reads or writes a row. *)
Definition initDatabase : M (World E) Exn unit := λ w,
  if dbInstance w then (w, inr ())
  else (mkWorld (table w) true (outside w) (log w), inr ()).

Definition getDatabase : M (World E) Exn unit := λ w,
  if dbInstance w then (w, inr ())
  else (w, inl (JsError "Database not initialized. Call initDatabase() first.")).

(** [INSERT INTO records (...) VALUES (...)] *)
Definition insertRecord (record : RecordEntity) : M (World E) Exn unit :=
  _ ← getDatabase;
  t ← gets table;
  match t !! id record with
  | Some _ =>
      throw (JsError "Failed to insert record: Error: UNIQUE constraint failed: records.id")
  | None =>
      if check_syncStatus (syncStatus record)
      then _ ← set_table (<[id record := to_row record]> t);
           emit (EvInsert (id record) (to_row record))
      else throw (JsError "Failed to insert record: Error: CHECK constraint failed: syncStatus")
  end.

(** [UPDATE records SET title = ?, body = ?, syncStatus = ?, remoteId = ?,
    lastSyncAttempt = ?, syncError = ? WHERE id = ?] *)
Definition updateRecord (record : RecordEntity) : M (World E) Exn unit :=
  _ ← getDatabase;
  t ← gets table;
  match t !! id record with
  | None => mret ()
  | Some old =>
      if check_syncStatus (syncStatus record)
      then let new := {| col_title := title record; col_body := body record;
                         col_createdAt := col_createdAt old;
                         col_syncStatus := syncStatus record;
                         col_remoteId := remoteId record;
                         col_lastSyncAttempt := lastSyncAttempt record;
                         col_syncError := syncError record |} in
           _ ← set_table (<[id record := new]> t);
           emit (EvUpdate (id record) new)
      else throw (JsError "Failed to update record: Error: CHECK constraint failed: syncStatus")
  end.

(** [UPDATE records SET syncStatus = ?, remoteId = ?, lastSyncAttempt = ?,
    syncError = ? WHERE id = ?] with the parameters
    [[syncStatus, remoteId ?? null, Date.now(), syncError ?? null, id]] *)
Definition updateSyncStatus (k : string) (st : SyncStatus)
  (rid : option Z) (err : option string) : M (World E) Exn unit :=
  _ ← getDatabase;
  now ← Date_now_;
  t ← gets table;
  match t !! k with
  | None => mret ()
  | Some old =>
      if check_syncStatus st
      then let new := set_sync st rid now err old in
           _ ← set_table (<[k := new]> t);
           emit (EvUpdate k new)
      else throw (JsError "Failed to update sync status: Error: CHECK constraint failed: syncStatus")
  end.

(** [SELECT * FROM records ORDER BY createdAt DESC] *)
Definition getAllRecords : M (World E) Exn (list RecordEntity) :=
  _ ← getDatabase;
  t ← gets table;
  mret (order_by_createdAt_desc (rows t)).

Definition getRecordsByStatus (status : SyncStatus)
  : M (World E) Exn (list RecordEntity) :=
  _ ← getDatabase;
  t ← gets table;
  mret (select_by_status status t).

(** [SELECT * FROM records WHERE id = ?], [result ?? null] *)
Definition getRecordById (k : string) : M (World E) Exn (option RecordEntity) :=
  _ ← getDatabase;
  t ← gets table;
  mret (to_entity k <$> t !! k).

(** [DELETE FROM records WHERE id = ?] and [DELETE FROM records]: offered
    by the store, called by no function of the engine. *)
Definition deleteRecord (k : string) : M (World E) Exn unit :=
  _ ← getDatabase;
  t ← gets table;
  set_table (delete k t).

Definition clearAllRecords : M (World E) Exn unit :=
  _ ← getDatabase;
  set_table ∅.

(** The count of the rows [WHERE syncStatus = ?] *)
Definition getRecordCountByStatus (status : SyncStatus) : M (World E) Exn Z :=
  _ ← getDatabase;
  t ← gets table;
  mret (Z.of_nat (List.length (filter (has_status status) (rows t)))).

End db.
End db.

(** *** mappers.ts *)
Module mappers.
Section mappers.
Context {E : Type} `{External E}.

(** The domain [Record] has the fields of the entity; the two timestamps
    become [Date] objects, kept here as their time values: this is what
    [new Date(t)] holds for every [t] with [JS.valid_time_value t], and
    the timestamps the engine stores are readings of [Date.now()].
    [entity.lastSyncAttempt ? new Date(...) : null] maps the falsy
    timestamp [0] to [null]. *)
Definition entityToRecord (entity : RecordEntity) : RecordEntity :=
  {| id := id entity; title := title entity; body := body entity;
     createdAt := createdAt entity; syncStatus := syncStatus entity;
     remoteId := remoteId entity;
     lastSyncAttempt :=
       match lastSyncAttempt entity with
       | Some 0 => None
       | a => a
       end;
     syncError := syncError entity |}.

Definition entitiesToRecords (entities : list RecordEntity) : list RecordEntity :=
  entityToRecord <$> entities.

Definition entityToCreatePostDTO (entity : RecordEntity) : CreatePostDTO :=
  {| dto_title := title entity; dto_body := body entity; dto_userId := 1 |}.

(** [{...entity, remoteId: response.id, syncStatus: 'SYNCED',
      lastSyncAttempt: Date.now(), syncError: null}] *)
Definition mergePostResponse (entity : RecordEntity) (response : PostResponseDTO)
  : M (World E) Exn RecordEntity :=
  now ← Date_now_;
  mret {| id := id entity; title := title entity; body := body entity;
          createdAt := createdAt entity;
          syncStatus := SYNCED; remoteId := Some (resp_id response);
          lastSyncAttempt := Some now; syncError := None |}.

End mappers.

Section mappers_back.

(** [recordToEntity]: a [Date] object is truthy whatever its time value, so
    [record.lastSyncAttempt ? record.lastSyncAttempt.getTime() : null] gives
    the time value of every date that is not [null]. *)
Definition recordToEntity (record : RecordEntity) : RecordEntity :=
  {| id := id record; title := title record; body := body record;
     createdAt := createdAt record; syncStatus := syncStatus record;
     remoteId := remoteId record;
     lastSyncAttempt :=
       match lastSyncAttempt record with
       | Some d => Some d
       | None => None
       end;
     syncError := syncError record |}.

Definition recordsToEntities (records : list RecordEntity) : list RecordEntity :=
  recordToEntity <$> records.

(** The entities whose two timestamps are time values of a [Date]: for
    these [new Date(t).getTime()] is [t], as the two mappers above have it;
    for any other timestamp it is [NaN]. *)
Definition in_Date_range (entity : RecordEntity) : Prop :=
  JS.valid_time_value (createdAt entity)
  ∧ match lastSyncAttempt entity with
    | Some t => JS.valid_time_value t
    | None => True
    end.

End mappers_back.
End mappers.

(** [Result<T>] and [SyncResult] (types.ts) *)
Inductive Result (A : Type) : Type :=
| Success (data : A)
| Failure (error : Exn).

Arguments Success {A} data.
Arguments Failure {A} error.

Record SyncResult : Type := mkSyncResult {
  recordId : string;
  success : bool;
  error : option string;
  result_remoteId : option Z
}.

(** *** repository.ts *)
Module repository.
Section repository.
Context {E : Type} `{External E}.

(** [catch (error) { return { success: false, error: ... } }] *)
Definition as_result {A} (m : M (World E) Exn A) : M (World E) Exn (Result A) :=
  try_catch (a ← m; mret (Success a))
            (λ error, mret (Failure (error_or_unknown error))).

Definition createRecord (title_ body_ : string)
  : M (World E) Exn (Result RecordEntity) :=
  as_result (
    uuid ← ask uuidv4;
    now ← Date_now_;
    let entity := {| id := uuid; title := JS.trim title_; body := JS.trim body_;
                     createdAt := now; syncStatus := PENDING; remoteId := None;
                     lastSyncAttempt := None; syncError := None |} in
    _ ← db.insertRecord entity;
    mret (mappers.entityToRecord entity)).

(** The call [api.createPost(dto)] made for the record [k], with its
    outcome entered in the ghost log. *)
Definition send (k : string) (dto : CreatePostDTO)
  : M (World E) Exn PostResponseDTO := λ w,
  let '(w', r) := api.createPost dto w in
  (mkWorld (table w') (dbInstance w') (outside w') (log w' ++ [EvSend k dto r]), r).

Definition syncRecord (recordId_ : string) : M (World E) Exn SyncResult :=
  try_catch (
    found ← db.getRecordById recordId_;
    match found with
    | None =>
        mret {| recordId := recordId_; success := false;
                error := Some "Record not found"; result_remoteId := None |}
    | Some entity =>
        (* Skip if already synced *)
        if bool_decide (syncStatus entity = SYNCED)
           && bool_decide (remoteId entity ≠ None)
        then mret {| recordId := recordId_; success := true; error := None;
                     result_remoteId := remoteId entity |}
        else
          let dto := mappers.entityToCreatePostDTO entity in
          response ← send recordId_ dto;
          updatedEntity ← mappers.mergePostResponse entity response;
          _ ← db.updateRecord updatedEntity;
          mret {| recordId := recordId_; success := true; error := None;
                  result_remoteId := Some (resp_id response) |}
    end)
  (λ error,
    (* Determine if error is retryable *)
    let isRetryable :=
      match error with JsApiError e => api.isRetryableError e | _ => false end in
    let isPermanent :=
      match error with JsApiError e => api.isPermanentError e | _ => false end in
    (* Update sync status based on error type *)
    let newStatus := if isPermanent then FAILED else PENDING in
    let errorMessage := message_or_unknown error in
    _ ← db.updateSyncStatus recordId_ newStatus None (Some errorMessage);
    mret {| recordId := recordId_; success := false;
            error := Some errorMessage; result_remoteId := None |}).

(** The [for (const entity of pendingEntities)] loop. *)
Fixpoint sync_each (pendingEntities : list RecordEntity)
  (results : list SyncResult) : M (World E) Exn (list SyncResult) :=
  match pendingEntities with
  | [] => mret results
  | entity :: rest =>
      result ← syncRecord (id entity);
      _ ← sleep 100;
      sync_each rest (results ++ [result])
  end.

Definition syncPendingRecords : M (World E) Exn (Result (list SyncResult)) :=
  as_result (
    pendingEntities ← db.getRecordsByStatus PENDING;
    match pendingEntities with
    | [] => mret []
    | _ => sync_each pendingEntities []
    end).

(** The [for (const entity of failedEntities)] loop:
    [db.updateSyncStatus(entity.id, 'PENDING')]. *)
Fixpoint requeue_each (failedEntities : list RecordEntity) : M (World E) Exn unit :=
  match failedEntities with
  | [] => mret ()
  | entity :: rest =>
      _ ← db.updateSyncStatus (id entity) PENDING None None;
      requeue_each rest
  end.

Definition retryFailedSyncs : M (World E) Exn (Result (list SyncResult)) :=
  try_catch (
    failedEntities ← db.getRecordsByStatus FAILED;
    match failedEntities with
    | [] => mret (Success [])
    | _ =>
        _ ← requeue_each failedEntities;
        syncPendingRecords
    end)
  (λ error, mret (Failure (error_or_unknown error))).

End repository.

(** The object [getSyncStats] returns. *)
Record SyncStats : Type := mkSyncStats {
  total : Z;
  synced : Z;
  pending : Z;
  failed : Z
}.

Section repository_reads.
Context {E : Type} `{External E}.

Definition getAllRecords : M (World E) Exn (Result (list RecordEntity)) :=
  as_result (
    entities ← db.getAllRecords;
    mret (mappers.entitiesToRecords entities)).

Definition getRecordsByStatus (status : SyncStatus)
  : M (World E) Exn (Result (list RecordEntity)) :=
  as_result (
    entities ← db.getRecordsByStatus status;
    mret (mappers.entitiesToRecords entities)).

Definition getRecordById (k : string)
  : M (World E) Exn (Result (option RecordEntity)) :=
  as_result (
    found ← db.getRecordById k;
    match found with
    | None => mret None
    | Some entity => mret (Some (mappers.entityToRecord entity))
    end).

(** The four reads of [Promise.all]; any of them failing gives the zeros of
    the [catch]. *)
Definition getSyncStats : M (World E) Exn SyncStats :=
  try_catch (
    all ← db.getAllRecords;
    n_synced ← db.getRecordCountByStatus SYNCED;
    n_pending ← db.getRecordCountByStatus PENDING;
    n_failed ← db.getRecordCountByStatus FAILED;
    mret {| total := Z.of_nat (List.length all); synced := n_synced;
            pending := n_pending; failed := n_failed |})
  (λ _, mret {| total := 0; synced := 0; pending := 0; failed := 0 |}).

End repository_reads.
End repository.

(** *** use-cases.ts *)
Module useCases.
Section useCases.
Context {E : Type} `{External E}.

Definition validateRecordInput (title_ body_ : string) : M (World E) Exn unit :=
  _ ← emit (EvValidate title_ body_);
  if bool_decide (title_ = EmptyString) || (JS.length (JS.trim title_) =? 0)
  then throw (JsValidationError "Title is required")
  else if 200 <? JS.length (JS.trim title_)
  then throw (JsValidationError "Title must be 200 characters or less")
  else if bool_decide (body_ = EmptyString) || (JS.length (JS.trim body_) =? 0)
  then throw (JsValidationError "Body is required")
  else if 5000 <? JS.length (JS.trim body_)
  then throw (JsValidationError "Body must be 5000 characters or less")
  else mret ().

(** A use case hands the repository's result on, whether it is a success
    or not; anything thrown becomes a failure. *)
Definition forward {A} (m : M (World E) Exn (Result A)) : M (World E) Exn (Result A) :=
  try_catch m (λ error, mret (Failure (error_or_unknown error))).

Definition createRecord (title_ body_ : string)
  : M (World E) Exn (Result RecordEntity) :=
  forward (
    _ ← validateRecordInput title_ body_;
    repository.createRecord title_ body_).

Definition syncRecords : M (World E) Exn (Result (list SyncResult)) :=
  forward repository.syncPendingRecords.

Definition retryFailedSyncs : M (World E) Exn (Result (list SyncResult)) :=
  forward repository.retryFailedSyncs.

End useCases.

Section useCases_reads.
Context {E : Type} `{External E}.

Definition fetchAllRecords : M (World E) Exn (Result (list RecordEntity)) :=
  forward repository.getAllRecords.

Definition fetchRecordById (k : string)
  : M (World E) Exn (Result (option RecordEntity)) :=
  forward (
    if bool_decide (k = EmptyString) || (JS.length (JS.trim k) =? 0)
    then throw (JsValidationError "Record ID is required")
    else repository.getRecordById k).

Definition getSyncStatistics : M (World E) Exn repository.SyncStats :=
  try_catch repository.getSyncStats
    (λ _, mret {| repository.total := 0; repository.synced := 0;
                  repository.pending := 0; repository.failed := 0 |}).

End useCases_reads.
End useCases.

(** *** sync/background-sync.ts *)
Module backgroundSync.

(** The state [NetInfo] reports; the two flags are [boolean | null]. *)
Record NetInfoState : Type := mkNetInfoState {
  net_type : string;
  isConnected : option bool;
  isInternetReachable : option bool
}.

(** [NetInfo.fetch()]: the state, or the value the promise is rejected
    with. *)
Class NetInfo (E : Type) : Type := {
  NetInfo_fetch : E → E * (Exn + NetInfoState)
}.

(** [BackgroundFetch.BackgroundFetchResult] *)
Inductive BackgroundFetchResult : Type :=
| NoData
| NewData
| Failed.

(** A [boolean | null] as a condition, and [!x]. *)
Definition truthy (x : option bool) : bool := default false x.

Definition not_ (x : option bool) : bool := negb (truthy x).

(** [state.isConnected && state.isInternetReachable === true]: the left
    operand when it is falsy, the comparison otherwise. *)
Definition connected (state : NetInfoState) : option bool :=
  match isConnected state with
  | Some true => Some (bool_decide (isInternetReachable state = Some true))
  | falsy => falsy
  end.

Section backgroundSync.
Context {E : Type} `{External E} `{NetInfo E}.

Definition fetch : M (World E) Exn NetInfoState := λ w,
  let '(o, r) := NetInfo_fetch (outside w) in
  (mkWorld (table w) (dbInstance w) o (log w), r).

(** [result.data.filter((r) => r.success).length] *)
Definition successCount (data : list SyncResult) : Z :=
  Z.of_nat (List.length (filter (λ r, success r = true) data)).

(** The task registered under [BACKGROUND_SYNC_TASK]. *)
Definition backgroundTask : M (World E) Exn BackgroundFetchResult :=
  try_catch (
    _ ← db.initDatabase;
    netInfo ← fetch;
    if not_ (isConnected netInfo) || not_ (isInternetReachable netInfo)
    then mret NoData
    else
      result ← repository.syncPendingRecords;
      match result with
      | Failure _ => mret Failed
      | Success data =>
          mret (if 0 <? successCount data then NewData else NoData)
      end)
  (λ _, mret Failed).

Definition triggerImmediateSync : M (World E) Exn bool :=
  try_catch (
    netInfo ← fetch;
    if not_ (isConnected netInfo) || not_ (isInternetReachable netInfo)
    then mret false
    else
      result ← repository.syncPendingRecords;
      match result with
      | Failure _ => mret false
      | Success _ => mret true
      end)
  (λ _, mret false).

(** The listener [setupNetworkListener] registers, run on one notification.
    [previouslyConnected] is the variable of the closure, [false] when the
    listener is set up.  [triggerImmediateSync()] is called without
    [await], so the listener only starts it: the first component returned
    tells whether it did.  The second is [isConnected], the new content of
    [previouslyConnected] and the argument of [onNetworkChange] when a
    callback was given. *)
Definition networkListener (previouslyConnected : option bool)
  (state : NetInfoState) : bool * option bool :=
  let isConnected_ := connected state in
  (truthy isConnected_ && not_ previouslyConnected, isConnected_).

(** The listener run on the notifications of a list, one after the other:
    for each, whether a sync was started. *)
Fixpoint networkListener_all (previouslyConnected : option bool)
  (states : list NetInfoState) : list bool :=
  match states with
  | [] => []
  | state :: rest =>
      let step := networkListener previouslyConnected state in
      step.1 :: networkListener_all step.2 rest
  end.

(** [setupNetworkListener]: [let previouslyConnected = false]. *)
Definition setupNetworkListener (states : list NetInfoState) : list bool :=
  networkListener_all (Some false) states.

(** [getNetworkStatus] *)
Definition getNetworkStatus : M (World E) Exn (option bool * string) :=
  try_catch (
    state ← fetch;
    mret (connected state, net_type state))
  (λ _, mret (Some false, "unknown")).

End backgroundSync.
End backgroundSync.

(** *** The error logger

    The logs are kept under one key of [AsyncStorage], as the JSON text of
    an array; the model keeps the array itself ([None]: the key is absent)
    and takes [JSON.parse] to give back what [JSON.stringify] was given. *)
Module errorLogger.

Inductive ErrorCategory : Type :=
| DATABASE
| NETWORK
| SYNC
| VALIDATION
| UNKNOWN.

#[global] Instance ErrorCategory_eq_dec : EqDecision ErrorCategory.
Proof. solve_decision. Defined.

Record ErrorLog : Type := mkErrorLog {
  log_id : string;
  timestamp : Z;
  category : ErrorCategory;
  log_message : string;
  stack : option string;
  context : option string
}.

(** [Math.random().toString(36).substr(2, 9)] *)
Class Random (E : Type) : Type := {
  random_suffix : E → E * string
}.

(** The logs stored, and what lies outside. *)
Record Storage (E : Type) : Type := mkStorage {
  errors : option (list ErrorLog);
  device : E
}.

Arguments mkStorage {E} errors device.
Arguments errors {E} s.
Arguments device {E} s.

Definition MAX_STORED_ERRORS : nat := 100.

(** [array.slice(0, count)]: a negative [count] counts from the end. *)
Definition slice_from_start {A} (l : list A) (count : Z) : list A :=
  if count <? 0
  then take (Z.to_nat (Z.of_nat (List.length l) + count)) l
  else take (Z.to_nat count) l.

Section errorLogger.
Context {E : Type} `{External E} `{Random E}.

Definition on_device {A} (f : E → E * A) : M (Storage E) Exn A := λ s,
  let '(o, a) := f (device s) in (mkStorage (errors s) o, inr a).

Definition getErrorLogs : M (Storage E) Exn (list ErrorLog) :=
  try_catch (
    stored ← gets errors;
    mret (default [] stored))
  (λ _, mret []).

(** [error] is an [Error], given by its message and its stack, or a
    string. *)
Definition logError (category_ : ErrorCategory)
  (error_ : (string * option string) + string) (context_ : option string)
  : M (Storage E) Exn unit :=
  try_catch (
    now ← on_device Date_now;
    suffix ← on_device random_suffix;
    now' ← on_device Date_now;
    let errorLog :=
      {| log_id := pretty now +:+ "_" +:+ suffix;
         timestamp := now';
         category := category_;
         log_message := match error_ with inl e => e.1 | inr m => m end;
         stack := match error_ with inl e => e.2 | inr _ => None end;
         context := context_ |} in
    existingLogs ← getErrorLogs;
    let updatedLogs := take MAX_STORED_ERRORS (errorLog :: existingLogs) in
    modify (λ s, mkStorage (Some updatedLogs) (device s)))
  (λ _, mret ()).

Definition clearErrorLogs : M (Storage E) Exn unit :=
  try_catch (modify (λ s, mkStorage None (device s))) (λ _, mret ()).

Definition getErrorLogsByCategory (category_ : ErrorCategory)
  : M (Storage E) Exn (list ErrorLog) :=
  try_catch (
    logs ← getErrorLogs;
    mret (filter (λ l, category l = category_) logs))
  (λ _, mret []).

Definition getRecentErrorLogs (count : Z) : M (Storage E) Exn (list ErrorLog) :=
  try_catch (
    logs ← getErrorLogs;
    mret (slice_from_start logs count))
  (λ _, mret []).

End errorLogger.
End errorLogger.

End TS.

(** ** The Kotlin implementation *)

Module Kt.

(** The exceptions [syncRecord] tells apart: retrofit2's [HttpException]
    with its status code, [java.io.IOException], and any other
    [Exception].  [message] is a [String?]. *)
Inductive Throwable : Type :=
| HttpException (code : Z) (msg : option string)
| IOException (msg : option string)
| Exception (msg : option string).

Definition getMessage (e : Throwable) : option string :=
  match e with
  | HttpException _ m | IOException m | Exception m => m
  end.

(** [PostRequestDTO(title, body, userId = 1)] *)
Definition PostRequestDTO (title_ body_ : string) : CreatePostDTO :=
  {| dto_title := title_; dto_body := body_; dto_userId := 1 |}.

Class External (E : Type) : Type := {
  (** [ApiService.createPost] *)
  apiService_createPost : CreatePostDTO → E → E * (Throwable + PostResponseDTO);
  (** [System.currentTimeMillis()] *)
  currentTimeMillis : E → E * Z;
  (** [java.util.UUID.randomUUID().toString()] *)
  randomUUID : E → E * string
}.

Record World (E : Type) : Type := mkWorld {
  table : gmap string Row;
  outside : E;
  log : list (Event Throwable)
}.

Arguments mkWorld {E} table outside log.
Arguments table {E} w.
Arguments outside {E} w.
Arguments log {E} w.

Definition emit {E} (ev : Event Throwable) : M (World E) Throwable unit :=
  modify (λ w, mkWorld (table w) (outside w) (log w ++ [ev])).

Definition set_table {E} (t : gmap string Row) : M (World E) Throwable unit :=
  modify (λ w, mkWorld t (outside w) (log w)).

Definition ask {E A} (f : E → E * A) : M (World E) Throwable A := λ w,
  let '(o, a) := f (outside w) in
  (mkWorld (table w) o (log w), inr a).

(** [kotlin.Result<Unit>] *)
Inductive Result : Type :=
| success
| failure (e : Throwable).

(** *** RecordDao *)
Module recordDao.
Section recordDao.
Context {E : Type} `{External E}.

Definition getRecordById (k : string)
  : M (World E) Throwable (option RecordEntity) :=
  t ← gets table;
  mret (to_entity k <$> t !! k).

(** [SELECT * FROM records WHERE syncStatus = :status] *)
Definition getRecordsByStatus (status : SyncStatus)
  : M (World E) Throwable (list RecordEntity) :=
  t ← gets table;
  mret (filter (has_status status) (rows t)).

(** [SELECT * FROM records ORDER BY createdAt DESC], one emission of the
    [Flow] *)
Definition getAllRecords : M (World E) Throwable (list RecordEntity) :=
  t ← gets table;
  mret (order_by_createdAt_desc (rows t)).

(** The count of the rows [WHERE syncStatus = :status] *)
Definition getCountByStatus (status : SyncStatus) : M (World E) Throwable Z :=
  t ← gets table;
  mret (Z.of_nat (List.length (filter (has_status status) (rows t)))).

(** [@Update]: the row with the key of [record] is replaced; called by no
    function of the repository. *)
Definition updateRecord (record : RecordEntity) : M (World E) Throwable unit :=
  t ← gets table;
  match t !! id record with
  | None => mret ()
  | Some _ =>
      _ ← set_table (<[id record := to_row record]> t);
      emit (EvUpdate (id record) (to_row record))
  end.

(** [@Insert(onConflict = OnConflictStrategy.ABORT)] *)
Definition insertRecord (record : RecordEntity) : M (World E) Throwable unit :=
  t ← gets table;
  match t !! id record with
  | Some _ => throw (Exception (Some "UNIQUE constraint failed: records.id"))
  | None =>
      _ ← set_table (<[id record := to_row record]> t);
      emit (EvInsert (id record) (to_row record))
  end.

(** [UPDATE records SET syncStatus = :status, remoteId = :remoteId,
    lastSyncAttempt = :timestamp, syncError = :error WHERE id = :id] *)
Definition updateSyncStatus (k : string) (status : SyncStatus) (timestamp : Z)
  (remoteId_ : option Z) (error_ : option string) : M (World E) Throwable unit :=
  t ← gets table;
  match t !! k with
  | None => mret ()
  | Some old =>
      let new := set_sync status remoteId_ timestamp error_ old in
      _ ← set_table (<[k := new]> t);
      emit (EvUpdate k new)
  end.

End recordDao.
End recordDao.

(** *** RecordRepositoryImpl *)
Module repository.
Section repository.
Context {E : Type} `{External E}.

Definition createRecord (title_ body_ : string)
  : M (World E) Throwable RecordEntity :=
  uuid ← ask randomUUID;
  now ← ask currentTimeMillis;
  let entity := {| id := uuid; title := title_; body := body_;
                   createdAt := now; syncStatus := PENDING; remoteId := None;
                   lastSyncAttempt := None; syncError := None |} in
  _ ← recordDao.insertRecord entity;
  mret entity.

(** The call [apiService.createPost(...)] made for the record [k], with
    its outcome entered in the ghost log. *)
Definition send (k : string) (dto : CreatePostDTO)
  : M (World E) Throwable PostResponseDTO := λ w,
  let '(o, r) := apiService_createPost dto (outside w) in
  (mkWorld (table w) o (log w ++ [EvSend k dto r]), r).

Definition syncRecord (recordId_ : string) : M (World E) Throwable Result :=
  found ← recordDao.getRecordById recordId_;
  match found with
  | None => mret (failure (Exception (Some "Record not found")))
  | Some record =>
      if bool_decide (syncStatus record = SYNCED) then mret success
      else
        try_catch (
          now ← ask currentTimeMillis;
          _ ← recordDao.updateSyncStatus recordId_ SYNCING now None None;
          response ← send recordId_ (PostRequestDTO (title record) (body record));
          now' ← ask currentTimeMillis;
          _ ← recordDao.updateSyncStatus recordId_ SYNCED now'
                (Some (resp_id response)) None;
          mret success)
        (λ e,
          let isPermanent :=
            match e with
            | HttpException code _ => (400 <=? code) && (code <=? 499)
            | IOException _ => false
            | _ => false
            end in
          let nextStatus := if isPermanent then FAILED else PENDING in
          now ← ask currentTimeMillis;
          _ ← recordDao.updateSyncStatus recordId_ nextStatus now None (getMessage e);
          mret (failure e))
  end.

Definition getPendingRecords : M (World E) Throwable (list RecordEntity) :=
  recordDao.getRecordsByStatus PENDING.

End repository.

Section repository_reads.
Context {E : Type} `{External E}.

(** One emission of the [Flow] of [getAllRecords]. *)
Definition getAllRecords : M (World E) Throwable (list RecordEntity) :=
  recordDao.getAllRecords.

Definition getRecordById (k : string)
  : M (World E) Throwable (option RecordEntity) :=
  recordDao.getRecordById k.

(** [mapOf("synced" to ..., "pending" to ..., "failed" to ...)] *)
Definition getSyncStats : M (World E) Throwable (gmap string Z) :=
  n_synced ← recordDao.getCountByStatus SYNCED;
  n_pending ← recordDao.getCountByStatus PENDING;
  n_failed ← recordDao.getCountByStatus FAILED;
  mret (list_to_map [("synced", n_synced); ("pending", n_pending);
                     ("failed", n_failed)]).

End repository_reads.
End repository.

(** *** DatabaseModule

    [Room.databaseBuilder(context, AppDatabase::class.java,
    "offline_sync.db").build()]: the builder is given no callback and no
    migration, so opening the database runs no statement on the rows. *)
Module di.
Section di.
Context {E : Type} `{External E}.

Definition provideAppDatabase : M (World E) Throwable unit := mret ().

End di.
End di.

(** *** RecordMapper.kt and the domain model *)
Module mapper.

(** [domain.model.Record]: the entity without [lastSyncAttempt]. *)
Record DomainRecord : Type := mkDomainRecord {
  d_id : string;
  d_title : string;
  d_body : string;
  d_createdAt : Z;
  d_syncStatus : SyncStatus;
  d_remoteId : option Z;
  d_syncError : option string
}.

Definition toDomain (e : RecordEntity) : DomainRecord :=
  {| d_id := id e; d_title := title e; d_body := body e;
     d_createdAt := createdAt e; d_syncStatus := syncStatus e;
     d_remoteId := remoteId e; d_syncError := syncError e |}.

Definition toDomain_list (l : list RecordEntity) : list DomainRecord :=
  toDomain <$> l.

End mapper.

(** *** The use cases *)
Module useCase.

(** [Char.isWhitespace] on the code units below 256: U+0009 to U+000D,
    U+001C to U+001F, the space U+0020 and the NO-BREAK SPACE U+00A0. *)
Definition isWhitespace (a : ascii) : bool :=
  let n := nat_of_ascii a in
  ((9 <=? n)%nat && (n <=? 13)%nat) || ((28 <=? n)%nat && (n <=? 31)%nat)
  || (n =? 32)%nat || (n =? 160)%nat.

(** [CharSequence.isBlank]: empty, or white space only. *)
Fixpoint isBlank (s : string) : bool :=
  match s with
  | EmptyString => true
  | String a s' => isWhitespace a && isBlank s'
  end.

Section useCase.
Context {E : Type} `{External E}.

(** [CreateRecordUseCase.invoke]; the [IllegalArgumentException] is an
    [Exception] with its message. *)
Definition CreateRecordUseCase (title_ body_ : string)
  : M (World E) Throwable unit :=
  if isBlank title_
  then throw (Exception (Some "Title cannot be empty"))
  else _ ← repository.createRecord title_ body_; mret ().

(** [GetRecordsUseCase.invoke], one emission of the [Flow]. *)
Definition GetRecordsUseCase : M (World E) Throwable (list mapper.DomainRecord) :=
  entities ← repository.getAllRecords;
  mret (mapper.toDomain_list entities).

End useCase.
End useCase.

End Kt.

(** ** The retry policy in the words of the specification

    "delay = min(base * 2^attemptCount, cap), base = 1 second, cap = 30
    seconds".  Neither implementation has a function that computes it; the
    definition is kept apart from the code to compare the two. *)
Module Spec.

Definition base_ms : Z := 1000.
Definition cap_ms : Z := 30000.

Definition backoff_delay (attemptCount : nat) : Z :=
  Z.min (base_ms * 2 ^ Z.of_nat attemptCount) cap_ms.

End Spec.

(** ** Sequences of engine operations (TypeScript) *)

Module Engine.
Section Engine.
Context {E : Type} `{TS.External E}.

Inductive Op : Type :=
| OpInit
| OpCreate (title_ body_ : string)
| OpSyncNow
| OpRetryFailed
| OpSyncRecord (k : string)
| OpUpdateSyncStatus (k : string) (st : SyncStatus) (rid : option Z)
    (err : option string).

(** The world an operation leaves behind. *)
Definition exec (w : TS.World E) (op : Op) : TS.World E :=
  match op with
  | OpInit => (TS.db.initDatabase w).1
  | OpCreate t b => (TS.useCases.createRecord t b w).1
  | OpSyncNow => (TS.useCases.syncRecords w).1
  | OpRetryFailed => (TS.useCases.retryFailedSyncs w).1
  | OpSyncRecord k => (TS.repository.syncRecord k w).1
  | OpUpdateSyncStatus k st rid err => (TS.db.updateSyncStatus k st rid err w).1
  end.

Definition exec_all (ops : list Op) (w : TS.World E) : TS.World E :=
  fold_left exec ops w.


(** All operations but the bare status update of the store. *)
Definition repository_op (op : Op) : bool :=
  match op with
  | OpUpdateSyncStatus _ _ _ _ => false
  | _ => true
  end.


(** The operations other than [createRecord]. *)
Definition sync_op (op : Op) : bool :=
  match op with
  | OpCreate _ _ => false
  | _ => true
  end.

(** A fresh install: no table, no handle, nothing logged. *)
Definition fresh (o : E) : TS.World E := TS.mkWorld ∅ false o [].


(** What has been logged between two worlds. *)
Definition logged_since (w w' : TS.World E) (evs : list (Event TS.Exn)) : Prop :=
  TS.log w' = TS.log w ++ evs.

End Engine.
End Engine.

(** ** A process kill and the restart (Kotlin) *)

Module KtEngine.
Section KtEngine.
Context {E : Type} `{Kt.External E}.

(** The statements of [syncRecord] that come before its call of the
    remote: what has run when the process is killed while
    [apiService.createPost] is awaited.  Room commits each call of the DAO
    in a transaction of its own, so the write of SYNCING is in the file
    that the next process opens. *)
Definition syncRecord_until_the_call (recordId_ : string)
  : M (Kt.World E) Kt.Throwable unit :=
  found ← Kt.recordDao.getRecordById recordId_;
  match found with
  | None => mret ()
  | Some record =>
      if bool_decide (syncStatus record = SYNCED) then mret ()
      else
        now ← Kt.ask Kt.currentTimeMillis;
        Kt.recordDao.updateSyncStatus recordId_ SYNCING now None None
  end.

Definition killed_during_the_call (k : string) (w : Kt.World E) : Kt.World E :=
  (syncRecord_until_the_call k w).1.

(** [syncRecord] on a record that [getPendingRecords] returns.  The worker
    that runs the pass ([SyncWorker]) is not among the sources; what the
    repository has for it is [getPendingRecords], its one selection of
    records to be synchronised, and [syncRecord]. *)
Definition sync_if_pending (k : string) : M (Kt.World E) Kt.Throwable unit :=
  pending ← Kt.repository.getPendingRecords;
  if bool_decide (k ∈ id <$> pending)
  then _ ← Kt.repository.syncRecord k; mret ()
  else mret ().

(** What runs on the store of the restarted process: Hilt builds the
    database, the view model creates records and collects the list, and
    pending records are synchronised. *)
Inductive Op : Type :=
| OpOpen
| OpCreate (title_ body_ : string)
| OpList
| OpSyncPending (k : string).

Definition exec (w : Kt.World E) (op : Op) : Kt.World E :=
  match op with
  | OpOpen => (Kt.di.provideAppDatabase w).1
  | OpCreate t b => (Kt.useCase.CreateRecordUseCase t b w).1
  | OpList => (Kt.useCase.GetRecordsUseCase w).1
  | OpSyncPending k => (sync_if_pending k w).1
  end.

Definition exec_all (ops : list Op) (w : Kt.World E) : Kt.World E :=
  fold_left exec ops w.


End KtEngine.
End KtEngine.

(** ** A scripted outside world, for running the code on examples *)

Module Scenario.

(** The remote answers the calls with [replies], one after the other, and
    is unreachable once they are used up; the clock advances by one
    millisecond at each reading and by the waited time at each timer. *)
Record Script : Type := mkScript {
  replies : list (TS.Exn + PostResponseDTO);
  clock : Z;
  uuids : list string
}.

#[global] Instance Script_External : TS.External Script := {|
  TS.axios_post := λ _ s,
    match replies s with
    | [] => (s, inl (TS.JsAxiosError None None "Network Error"))
    | r :: rs => (mkScript rs (clock s) (uuids s), r)
    end;
  TS.Date_now := λ s, (mkScript (replies s) (clock s + 1) (uuids s), clock s);
  TS.uuidv4 := λ s,
    match uuids s with
    | [] => (s, "00000000-0000-4000-8000-000000000000")
    | u :: us => (mkScript (replies s) (clock s) us, u)
    end;
  TS.setTimeout := λ ms s, mkScript (replies s) (clock s + ms) (uuids s)
|}.

Record KScript : Type := mkKScript {
  kreplies : list (Kt.Throwable + PostResponseDTO);
  kclock : Z
}.

#[global] Instance KScript_External : Kt.External KScript := {|
  Kt.apiService_createPost := λ _ s,
    match kreplies s with
    | [] => (s, inl (Kt.IOException (Some "Unable to resolve host")))
    | r :: rs => (mkKScript rs (kclock s), r)
    end;
  Kt.currentTimeMillis := λ s, (mkKScript (kreplies s) (kclock s + 1), kclock s);
  Kt.randomUUID := λ s, (s, "00000000-0000-4000-8000-000000000000")
|}.

Definition accepted (n : Z) : TS.Exn + PostResponseDTO :=
  inr (mkResponse n "A" "B" 1).

Definition http_error (status : Z) : TS.Exn + PostResponseDTO :=
  inl (TS.JsAxiosError (Some status) (Some "ERR_BAD_RESPONSE")
         "Request failed").

Definition no_network : TS.Exn + PostResponseDTO :=
  inl (TS.JsAxiosError None (Some "ERR_NETWORK") "Network Error").

Definition timed_out : TS.Exn + PostResponseDTO :=
  inl (TS.JsAxiosError None (Some "ECONNABORTED") "timeout of 10000ms exceeded").

Definition row_A (st : SyncStatus) (rid : option Z) (err : option string) : Row :=
  mkRow "A" "B" 1000 st rid None err.

Definition one_row (r : Row) (rs : list (TS.Exn + PostResponseDTO))
  : TS.World Script :=
  TS.mkWorld {[ "r1" := r ]} true (mkScript rs 5000 []) [].

(** The device is online whenever [NetInfo] is asked. *)
#[global] Instance Script_NetInfo : TS.backgroundSync.NetInfo Script := {|
  TS.backgroundSync.NetInfo_fetch := λ s,
    (s, inr (TS.backgroundSync.mkNetInfoState "wifi" (Some true) (Some true)))
|}.

Definition kt_one_row (r : Row) (rs : list (Kt.Throwable + PostResponseDTO))
  : Kt.World KScript :=
  Kt.mkWorld {[ "r1" := r ]} (mkKScript rs 5000) [].

End Scenario.

(** ** Closed forms of the effects, used to state and prove the facts *)

Module Effect.
Section Effect.
Context {E : Type} `{TS.External E}.

(** The guard "Skip if already synced" of [syncRecord], on a row. *)
Definition skipped (r : Row) : bool :=
  bool_decide (col_syncStatus r = SYNCED) && bool_decide (col_remoteId r ≠ None).

Definition dto_of (r : Row) : CreatePostDTO :=
  {| dto_title := col_title r; dto_body := col_body r; dto_userId := 1 |}.

(** [error instanceof api.ApiError && api.isPermanentError(error)] *)
Definition is_permanent (error : TS.Exn) : bool :=
  match error with
  | TS.JsApiError e => TS.api.isPermanentError e
  | _ => false
  end.

(** The row [syncRecord] stores after the call to the remote returned
    [out] and the clock read [now]. *)
Definition row_after (r : Row) (out : TS.Exn + PostResponseDTO) (now : Z) : Row :=
  match out with
  | inr response =>
      {| col_title := col_title r; col_body := col_body r;
         col_createdAt := col_createdAt r; col_syncStatus := SYNCED;
         col_remoteId := Some (resp_id response);
         col_lastSyncAttempt := Some now; col_syncError := None |}
  | inl error =>
      set_sync (if is_permanent error then FAILED else PENDING) None now
        (Some (TS.message_or_unknown error)) r
  end.

(** What [api.createPost] makes of the answer of axios. *)
Definition api_outcome (res : TS.Exn + PostResponseDTO)
  : TS.Exn + PostResponseDTO :=
  match res with
  | inl x => inl (TS.JsApiError (TS.api.parseAxiosError x))
  | inr v => inr v
  end.

(** One attempt on the row [r] stored under [k]. *)
Definition attempt (k : string) (r : Row) (w : TS.World E) : TS.World E :=
  let '(o1, res) := TS.axios_post (dto_of r) (TS.outside w) in
  let out := api_outcome res in
  let '(o2, now) := TS.Date_now o1 in
  let r' := row_after r out now in
  TS.mkWorld (<[k := r']> (TS.table w)) (TS.dbInstance w) o2
    (TS.log w ++ [EvSend k (dto_of r) out; EvUpdate k r']).

Definition syncRecord_world (k : string) (w : TS.World E) : TS.World E :=
  if TS.dbInstance w then
    match TS.table w !! k with
    | None => w
    | Some r => if skipped r then w else attempt k r w
    end
  else w.

Definition updateSyncStatus_world (k : string) (st : SyncStatus)
  (rid : option Z) (err : option string) (w : TS.World E) : TS.World E :=
  if TS.dbInstance w then
    let '(o, now) := TS.Date_now (TS.outside w) in
    match TS.table w !! k with
    | None => TS.mkWorld (TS.table w) (TS.dbInstance w) o (TS.log w)
    | Some r =>
        if TS.db.check_syncStatus st
        then TS.mkWorld (<[k := set_sync st rid now err r]> (TS.table w))
               (TS.dbInstance w) o
               (TS.log w ++ [EvUpdate k (set_sync st rid now err r)])
        else TS.mkWorld (TS.table w) (TS.dbInstance w) o (TS.log w)
    end
  else w.

(** *** How a world evolves *)

Definition same_content (r r' : Row) : Prop :=
  col_title r' = col_title r ∧ col_body r' = col_body r
  ∧ col_createdAt r' = col_createdAt r.

(** The row a write event stores, with its key. *)
Definition writes (ev : Event TS.Exn) : option (string * Row) :=
  match ev with
  | EvInsert k r | EvUpdate k r => Some (k, r)
  | _ => None
  end.

(** The record an event is about. *)
Definition about (k : string) (ev : Event TS.Exn) : Prop :=
  match ev with
  | EvInsert k' _ | EvUpdate k' _ | EvSend k' _ _ => k' = k
  | _ => False
  end.

(** [evolves Q w w']: from [w] to [w'] the handle stays open, every stored
    record stays stored with its content, the log grows by events that
    satisfy [Q], and every row of [w'] is a row of [w] or a row written by
    one of these events. *)
Record evolves (Q : Event TS.Exn → Prop) (w w' : TS.World E) : Prop := {
  evolves_db : TS.dbInstance w = true → TS.dbInstance w' = true;
  evolves_content : ∀ k r, TS.table w !! k = Some r →
    ∃ r', TS.table w' !! k = Some r' ∧ same_content r r';
  evolves_log : ∃ evs, TS.log w' = TS.log w ++ evs ∧ Forall Q evs ∧
    ∀ k r', TS.table w' !! k = Some r' →
      TS.table w !! k = Some r' ∨ ∃ ev, ev ∈ evs ∧ writes ev = Some (k, r')
}.

(** The rows [syncRecord] writes: accepted, or refused with a message. *)
Definition attempt_row (r : Row) : Prop :=
  (col_syncStatus r = SYNCED ∧ col_remoteId r ≠ None ∧ col_syncError r = None)
  ∨ ((col_syncStatus r = FAILED ∨ col_syncStatus r = PENDING)
     ∧ col_remoteId r = None ∧ col_syncError r ≠ None).

Definition attempt_event (k : string) (ev : Event TS.Exn) : Prop :=
  match ev with
  | EvSend k' _ _ => k' = k
  | EvUpdate k' r => k' = k ∧ attempt_row r
  | _ => False
  end.

(** The row [updateSyncStatus(id, syncStatus, remoteId, syncError)] writes. *)
Definition update_event (k : string) (st : SyncStatus) (rid : option Z)
  (err : option string) (ev : Event TS.Exn) : Prop :=
  match ev with
  | EvUpdate k' r =>
      k' = k ∧ TS.db.check_syncStatus st = true ∧ col_syncStatus r = st
      ∧ col_remoteId r = rid ∧ col_syncError r = err
  | _ => False
  end.

Definition requeue_event (k : string) : Event TS.Exn → Prop :=
  update_event k PENDING None None.

Definition wait_event (ev : Event TS.Exn) : Prop := ev = EvWait 100.

(** The events of [createRecord] started with the table [t]: the
    validation, and the insertion, under a key not in use, of a pending row
    without remote id, attempt or error. *)
Definition create_event (t : gmap string Row) (ev : Event TS.Exn) : Prop :=
  match ev with
  | EvValidate _ _ => True
  | EvInsert k r =>
      t !! k = None ∧ col_syncStatus r = PENDING ∧ col_remoteId r = None
      ∧ col_lastSyncAttempt r = None ∧ col_syncError r = None
  | _ => False
  end.

(** The events of a pass over the records whose keys satisfy [K]. *)
Definition pass_event (K : string → Prop) (ev : Event TS.Exn) : Prop :=
  wait_event ev ∨ ∃ k, K k ∧ attempt_event k ev.

Definition stored_with (st : SyncStatus) (t : gmap string Row) (k : string) : Prop :=
  ∃ r, t !! k = Some r ∧ col_syncStatus r = st.

(** The events of [retryFailedSyncs] started in a world with table [t]. *)
Definition retry_event (t : gmap string Row) (ev : Event TS.Exn) : Prop :=
  (∃ k, stored_with FAILED t k ∧ requeue_event k ev)
  ∨ pass_event (λ k, stored_with PENDING t k ∨ stored_with FAILED t k) ev.

(** What every operation of the engine respects: the CHECK of the schema
    on each row written, and the fixed pause of 100 ms. *)
Definition engine_event (ev : Event TS.Exn) : Prop :=
  (∀ k r, writes ev = Some (k, r) →
     TS.db.check_syncStatus (col_syncStatus r) = true)
  ∧ (∀ ms, ev = EvWait ms → ms = 100).

(** What the caller-facing operations respect besides: a row is written
    with a remote id only together with the status SYNCED. *)
Definition caller_event (ev : Event TS.Exn) : Prop :=
  engine_event ev
  ∧ (∀ k r, writes ev = Some (k, r) → col_remoteId r ≠ None →
       col_syncStatus r = SYNCED).

Definition no_SYNCING (t : gmap string Row) : Prop :=
  ∀ k r, t !! k = Some r → col_syncStatus r ≠ SYNCING.


(** The message of the [ValidationError] that [validateRecordInput]
    throws, if it throws. *)
Definition validation_error (title_ body_ : string) : option string :=
  if bool_decide (title_ = EmptyString) || (JS.length (JS.trim title_) =? 0)
  then Some "Title is required"
  else if 200 <? JS.length (JS.trim title_)
  then Some "Title must be 200 characters or less"
  else if bool_decide (body_ = EmptyString) || (JS.length (JS.trim body_) =? 0)
  then Some "Body is required"
  else if 5000 <? JS.length (JS.trim body_)
  then Some "Body must be 5000 characters or less"
  else None.

(** The entity [repository.createRecord] builds. *)
Definition new_entity (uuid : string) (now : Z) (title_ body_ : string)
  : RecordEntity :=
  {| id := uuid; title := JS.trim title_; body := JS.trim body_;
     createdAt := now; syncStatus := PENDING; remoteId := None;
     lastSyncAttempt := None; syncError := None |}.

(** The use case [createRecord], in closed form. *)
Definition createRecord_effect (title_ body_ : string) (w : TS.World E)
  : TS.World E * (TS.Exn + TS.Result RecordEntity) :=
  let validated := TS.log w ++ [EvValidate title_ body_] in
  match validation_error title_ body_ with
  | Some msg =>
      (TS.mkWorld (TS.table w) (TS.dbInstance w) (TS.outside w) validated,
       inr (TS.Failure (TS.JsValidationError msg)))
  | None =>
      let '(o1, uuid) := TS.uuidv4 (TS.outside w) in
      let '(o2, now) := TS.Date_now o1 in
      let entity := new_entity uuid now title_ body_ in
      if TS.dbInstance w then
        match TS.table w !! uuid with
        | Some _ =>
            (TS.mkWorld (TS.table w) (TS.dbInstance w) o2 validated,
             inr (TS.Failure (TS.JsError
               "Failed to insert record: Error: UNIQUE constraint failed: records.id")))
        | None =>
            (TS.mkWorld (<[uuid := to_row entity]> (TS.table w))
               (TS.dbInstance w) o2
               (validated ++ [EvInsert uuid (to_row entity)]),
             inr (TS.Success (TS.mappers.entityToRecord entity)))
        end
      else
        (TS.mkWorld (TS.table w) (TS.dbInstance w) o2 validated,
         inr (TS.Failure (TS.JsError
           "Database not initialized. Call initDatabase() first.")))
  end.

(** The record stored under [k] is the same in [w'] as in [w], and nothing
    logged in between is about it. *)
Definition untouched (k : string) (w w' : TS.World E) : Prop :=
  TS.table w' !! k = TS.table w !! k
  ∧ ∃ evs, TS.log w' = TS.log w ++ evs ∧ Forall (λ ev, ¬ about k ev) evs.

End Effect.
End Effect.

(** ** Closed form of the Kotlin [syncRecord] *)

Module KtEffect.
Section KtEffect.
Context {E : Type} `{Kt.External E}.

(** [is HttpException -> e.code() in 400..499], [false] otherwise *)
Definition is_permanent (e : Kt.Throwable) : bool :=
  match e with
  | Kt.HttpException code _ => (400 <=? code) && (code <=? 499)
  | _ => false
  end.

(** The status the attempt ends in. *)
Definition final_status (out : Kt.Throwable + PostResponseDTO) : SyncStatus :=
  match out with
  | inr _ => SYNCED
  | inl e => if is_permanent e then FAILED else PENDING
  end.

(** One attempt on the row [r] stored under [k]: the row is written as
    SYNCING, the remote is called, the outcome is written. *)
Definition attempt (k : string) (r : Row) (w : Kt.World E) : Kt.World E :=
  let '(o1, now1) := Kt.currentTimeMillis (Kt.outside w) in
  let r1 := set_sync SYNCING None now1 None r in
  let dto := Kt.PostRequestDTO (col_title r) (col_body r) in
  let '(o2, out) := Kt.apiService_createPost dto o1 in
  let '(o3, now2) := Kt.currentTimeMillis o2 in
  let r2 :=
    match out with
    | inr response => set_sync SYNCED (Some (resp_id response)) now2 None r1
    | inl e => set_sync (final_status out) None now2 (Kt.getMessage e) r1
    end in
  Kt.mkWorld (<[k := r2]> (<[k := r1]> (Kt.table w))) o3
    (Kt.log w ++ [EvUpdate k r1; EvSend k dto out; EvUpdate k r2]).

Definition syncRecord_world (k : string) (w : Kt.World E) : Kt.World E :=
  match Kt.table w !! k with
  | None => w
  | Some r => if bool_decide (col_syncStatus r = SYNCED) then w else attempt k r w
  end.

End KtEffect.
End KtEffect.

(** ** Closed forms of the results, and what a pass logs *)

Module Trace.
Section Trace.
Context {E : Type} `{TS.External E}.

(** The [SyncResult] of an attempt whose call of the remote ended in
    [out]. *)
Definition result_after (k : string) (out : TS.Exn + PostResponseDTO)
  : TS.SyncResult :=
  match out with
  | inr response =>
      {| TS.recordId := k; TS.success := true; TS.error := None;
         TS.result_remoteId := Some (resp_id response) |}
  | inl error =>
      {| TS.recordId := k; TS.success := false;
         TS.error := Some (TS.message_or_unknown error);
         TS.result_remoteId := None |}
  end.

(** What [syncRecord] returns or throws. *)
Definition syncRecord_result (k : string) (w : TS.World E)
  : TS.Exn + TS.SyncResult :=
  if TS.dbInstance w then
    match TS.table w !! k with
    | None =>
        inr {| TS.recordId := k; TS.success := false;
               TS.error := Some "Record not found"; TS.result_remoteId := None |}
    | Some r =>
        if Effect.skipped r
        then inr {| TS.recordId := k; TS.success := true; TS.error := None;
                    TS.result_remoteId := col_remoteId r |}
        else inr (result_after k
                    (Effect.api_outcome
                       (TS.axios_post (Effect.dto_of r) (TS.outside w)).2))
    end
  else inl (TS.JsError "Database not initialized. Call initDatabase() first.").

(** What a pass logs for the record [e], when the call of the remote ended
    in [o.1] and the clock read [o.2]. *)
Definition attempt_events (e : RecordEntity) (o : (TS.Exn + PostResponseDTO) * Z)
  : list (Event TS.Exn) :=
  [EvSend (id e) (Effect.dto_of (to_row e)) o.1;
   EvUpdate (id e) (Effect.row_after (to_row e) o.1 o.2);
   EvWait 100].

(** What [api.createPost] throws is an [ApiError]. *)
Definition is_api_outcome (out : TS.Exn + PostResponseDTO) : Prop :=
  match out with
  | inr _ => True
  | inl (TS.JsApiError _) => True
  | inl _ => False
  end.

(** A call of the API returns, or throws an [ApiError] with a message. *)
Definition returns_or_throws_ApiError {A} (r : TS.Exn + A) : Prop :=
  match r with
  | inr _ => True
  | inl (TS.JsApiError e) => TS.message e ≠ EmptyString
  | inl _ => False
  end.

(** The bounds [validateRecordInput] checks, on a stored row. *)
Definition valid_content (title_ body_ : string) : Prop :=
  0 < JS.length title_ ≤ 200 ∧ 0 < JS.length body_ ≤ 5000.

Definition valid_table (t : gmap string Row) : Prop :=
  ∀ k r, t !! k = Some r → valid_content (col_title r) (col_body r).

(** [descends P w w']: every record stored in [w'] was stored in [w] with
    the same content, or has a content that satisfies [P]. *)
Definition descends (P : string → string → Prop) (w w' : TS.World E) : Prop :=
  ∀ k r', TS.table w' !! k = Some r' →
    (∃ r, TS.table w !! k = Some r ∧ Effect.same_content r r')
    ∨ P (col_title r') (col_body r').

(** The sync columns fit the status: a SYNCED row has a remote id and no
    error, a FAILED row an error and no remote id, a PENDING row no remote
    id. *)
Definition consistent_row (r : Row) : Prop :=
  match col_syncStatus r with
  | PENDING => col_remoteId r = None
  | SYNCED => col_remoteId r ≠ None ∧ col_syncError r = None
  | FAILED => col_remoteId r = None ∧ col_syncError r ≠ None
  | SYNCING => False
  end.

Definition consistent_table (t : gmap string Row) : Prop :=
  ∀ k r, t !! k = Some r → consistent_row r.

Definition consistent_event (ev : Event TS.Exn) : Prop :=
  ∀ k r, Effect.writes ev = Some (k, r) → consistent_row r.

(** The world is as it was, but for what lies outside. *)
Definition same_store (w w' : TS.World E) : Prop :=
  TS.table w' = TS.table w ∧ TS.dbInstance w' = TS.dbInstance w
  ∧ TS.log w' = TS.log w.

End Trace.
End Trace.

(** ** Calls of the error logger, one after the other *)

Module Logging.

(** The arguments of one call of [logError]. *)
Record Call : Type := mkCall {
  call_category : TS.errorLogger.ErrorCategory;
  call_error : (string * option string) + string;
  call_context : option string
}.

(** What a call hands over: the category, the message, the stack and the
    context.  The id and the timestamp of a log come from the device. *)
Definition Entry : Type :=
  (TS.errorLogger.ErrorCategory * string * option string * option string)%type.

Definition entry_of (c : Call) : Entry :=
  (call_category c,
   match call_error c with inl e => e.1 | inr m => m end,
   match call_error c with inl e => e.2 | inr _ => None end,
   call_context c).

Definition fields (l : TS.errorLogger.ErrorLog) : Entry :=
  (TS.errorLogger.category l, TS.errorLogger.log_message l,
   TS.errorLogger.stack l, TS.errorLogger.context l).

Section Logging.
Context {E : Type} `{TS.External E} `{TS.errorLogger.Random E}.

Fixpoint logErrors (calls : list Call)
  : M (TS.errorLogger.Storage E) TS.Exn unit :=
  match calls with
  | [] => mret ()
  | c :: rest =>
      _ ← TS.errorLogger.logError (call_category c) (call_error c) (call_context c);
      logErrors rest
  end.

End Logging.
End Logging.

(** The device of the examples for the error logger: the clock and a fixed
    random suffix. *)
Module LoggingScenario.

#[global] Instance Script_Random : TS.errorLogger.Random Scenario.Script := {|
  TS.errorLogger.random_suffix := λ s, (s, "k3j9x0q2a")
|}.

Definition calls : list Logging.Call :=
  [ Logging.mkCall TS.errorLogger.NETWORK (inr "offline") None;
    Logging.mkCall TS.errorLogger.SYNC (inl ("boom", Some "at sync")) (Some "r1") ].

Definition empty_storage : TS.errorLogger.Storage Scenario.Script :=
  TS.errorLogger.mkStorage None (Scenario.mkScript [] 0 []).

End LoggingScenario.

(** ** Asynchronous functions and their interleavings

    An [async] function runs from one [await] to the next without another
    function of the program running in between; while it is suspended at an
    [await], other functions run.  [Await m k] is a function suspended
    before the segment [m], the statements up to and including the
    operation awaited next, which goes on as [k] with the outcome of [m]
    when it is resumed. *)

Module Async.

Inductive Task (S X A : Type) : Type :=
| Return (a : A)
| Throw (x : X)
| Await {B : Type} (m : M S X B) (k : X + B → Task S X A).

Arguments Return {S X A} a.
Arguments Throw {S X A} x.
Arguments Await {S X A B} m k.

(** [await m] *)
Definition await {S X B} (m : M S X B) : Task S X B :=
  Await m (λ r, match r with inl x => Throw x | inr b => Return b end).

Fixpoint bind {S X A B} (t : Task S X A) (f : A → Task S X B) : Task S X B :=
  match t with
  | Return a => f a
  | Throw x => Throw x
  | Await m k => Await m (λ r, bind (k r) f)
  end.

(** [try { t } catch (error) { h error }] *)
Fixpoint catch {S X A} (t : Task S X A) (h : X → Task S X A) : Task S X A :=
  match t with
  | Return a => Return a
  | Throw x => h x
  | Await m k => Await m (λ r, catch (k r) h)
  end.

#[global] Instance Task_ret {S X} : MRet (Task S X) := λ A a, Return a.

#[global] Instance Task_bind {S X} : MBind (Task S X) := λ A B f t, bind t f.

(** The function has returned or thrown. *)
Definition settled {S X A} (t : Task S X A) : bool :=
  match t with
  | Await _ _ => false
  | _ => true
  end.

(** The function is resumed and runs to its next [await]. *)
Definition step {S X A} (t : Task S X A) (s : S) : S * Task S X A :=
  match t with
  | Await m k => let '(s', r) := m s in (s', k r)
  | _ => (s, t)
  end.

(** The function is resumed [n] times. *)
Fixpoint steps {S X A} (n : nat) (t : Task S X A) (s : S) : S * Task S X A :=
  match n with
  | O => (s, t)
  | Datatypes.S n' => let '(s', t') := step t s in steps n' t' s'
  end.

(** The function run with nothing else in between. *)
Fixpoint run {S X A} (t : Task S X A) : M S X A := λ s,
  match t with
  | Return a => (s, inr a)
  | Throw x => (s, inl x)
  | Await m k => let '(s', r) := m s in run (k r) s'
  end.

End Async.

(** The functions of a sync pass with their [await]s marked: the
    definitions of [TS.repository] and [TS.backgroundSync], cut at the
    operations the source awaits. *)

Module TSAsync.
Section TSAsync.
Context {E : Type} `{TS.External E} `{TS.backgroundSync.NetInfo E}.

Definition as_result {A} (t : Async.Task (TS.World E) TS.Exn A)
  : Async.Task (TS.World E) TS.Exn (TS.Result A) :=
  Async.catch (a ← t; mret (TS.Success a))
              (λ error, mret (TS.Failure (TS.error_or_unknown error))).

Definition syncRecord (recordId_ : string)
  : Async.Task (TS.World E) TS.Exn TS.SyncResult :=
  Async.catch (
    found ← Async.await (TS.db.getRecordById recordId_);
    match found with
    | None =>
        mret {| TS.recordId := recordId_; TS.success := false;
                TS.error := Some "Record not found"; TS.result_remoteId := None |}
    | Some entity =>
        if bool_decide (syncStatus entity = SYNCED)
           && bool_decide (remoteId entity ≠ None)
        then mret {| TS.recordId := recordId_; TS.success := true;
                     TS.error := None; TS.result_remoteId := remoteId entity |}
        else
          let dto := TS.mappers.entityToCreatePostDTO entity in
          response ← Async.await (TS.repository.send recordId_ dto);
          _ ← Async.await (
                updatedEntity ← TS.mappers.mergePostResponse entity response;
                TS.db.updateRecord updatedEntity);
          mret {| TS.recordId := recordId_; TS.success := true; TS.error := None;
                  TS.result_remoteId := Some (resp_id response) |}
    end)
  (λ error,
    let isRetryable :=
      match error with
      | TS.JsApiError e => TS.api.isRetryableError e
      | _ => false
      end in
    let isPermanent :=
      match error with
      | TS.JsApiError e => TS.api.isPermanentError e
      | _ => false
      end in
    let newStatus := if isPermanent then FAILED else PENDING in
    let errorMessage := TS.message_or_unknown error in
    _ ← Async.await (TS.db.updateSyncStatus recordId_ newStatus None
                       (Some errorMessage));
    mret {| TS.recordId := recordId_; TS.success := false;
            TS.error := Some errorMessage; TS.result_remoteId := None |}).

Fixpoint sync_each (pendingEntities : list RecordEntity)
  (results : list TS.SyncResult)
  : Async.Task (TS.World E) TS.Exn (list TS.SyncResult) :=
  match pendingEntities with
  | [] => mret results
  | entity :: rest =>
      result ← syncRecord (id entity);
      _ ← Async.await (TS.sleep 100);
      sync_each rest (results ++ [result])
  end.

Definition syncPendingRecords
  : Async.Task (TS.World E) TS.Exn (TS.Result (list TS.SyncResult)) :=
  as_result (
    pendingEntities ← Async.await (TS.db.getRecordsByStatus PENDING);
    match pendingEntities with
    | [] => mret []
    | _ => sync_each pendingEntities []
    end).

Definition triggerImmediateSync : Async.Task (TS.World E) TS.Exn bool :=
  Async.catch (
    netInfo ← Async.await TS.backgroundSync.fetch;
    if TS.backgroundSync.not_ (TS.backgroundSync.isConnected netInfo)
       || TS.backgroundSync.not_ (TS.backgroundSync.isInternetReachable netInfo)
    then mret false
    else
      result ← syncPendingRecords;
      match result with
      | TS.Failure _ => mret false
      | TS.Success _ => mret true
      end)
  (λ _, mret false).

End TSAsync.
End TSAsync.

(** The application: the store and what lies outside, the state
    [isSyncing] of [SyncProvider], the variable [previouslyConnected] of the
    network listener, and the calls of [triggerImmediateSync] that have been
    started. *)

Module App.
Section App.
Context {E : Type} `{TS.External E} `{TS.backgroundSync.NetInfo E}.

(** Who called [triggerImmediateSync]: [SyncProvider.triggerSync], which
    awaits it and then runs [setIsSyncing(false)], or the network listener,
    which does not await it. *)
Inductive Caller : Type :=
| ByTriggerSync
| ByListener.

Record Call : Type := mkCall {
  task : Async.Task (TS.World E) TS.Exn bool;
  caller : Caller
}.

Record State : Type := mkState {
  world : TS.World E;
  isSyncing : bool;
  previouslyConnected : option bool;
  calls : list Call
}.

Inductive Action : Type :=
| TriggerSync
| NetworkChange (state : TS.backgroundSync.NetInfoState)
| Resume (i : nat).

(** [SyncProvider.triggerSync], up to its [await].  [isSyncing] is read as
    it is when the function is called: the model takes every caller to hold
    the function of the latest render. *)
Definition triggerSync (app : State) : State :=
  if isSyncing app then app
  else mkState (world app) true (previouslyConnected app)
         (calls app ++ [mkCall TSAsync.triggerImmediateSync ByTriggerSync]).

(** The listener of [setupNetworkListener] on one notification. *)
Definition networkListener (state : TS.backgroundSync.NetInfoState)
  (app : State) : State :=
  let '(start, isConnected_) :=
    TS.backgroundSync.networkListener (previouslyConnected app) state in
  mkState (world app) (isSyncing app) isConnected_
    (if start
     then calls app ++ [mkCall TSAsync.triggerImmediateSync ByListener]
     else calls app).

(** The call number [i] is resumed and runs to its next [await]; when a
    call awaited by [triggerSync] returns, [finally { setIsSyncing(false) }]
    runs. *)
Definition resume (i : nat) (app : State) : State :=
  match calls app !! i with
  | None => app
  | Some c =>
      if Async.settled (task c) then app
      else
        let '(w', t') := Async.step (task c) (world app) in
        mkState w'
          (match caller c with
           | ByTriggerSync => if Async.settled t' then false else isSyncing app
           | ByListener => isSyncing app
           end)
          (previouslyConnected app)
          (<[i := mkCall t' (caller c)]> (calls app))
  end.

Definition exec (app : State) (a : Action) : State :=
  match a with
  | TriggerSync => triggerSync app
  | NetworkChange state => networkListener state app
  | Resume i => resume i app
  end.

Definition exec_all (actions : list Action) (app : State) : State :=
  fold_left exec actions app.

(** The application once [SyncProvider] is mounted:
    [useState(false)] and [let previouslyConnected = false]. *)
Definition mounted (w : TS.World E) : State :=
  mkState w false (Some false) [].

(** The passes in progress: the calls that have not returned. *)
Definition in_progress (app : State) : list Call :=
  filter (λ c, Async.settled (task c) = false) (calls app).

(** What the calls have returned, [None] for a call in progress. *)
Definition returned (app : State) : list (option bool) :=
  (λ c, match task c with Async.Return b => Some b | _ => None end) <$> calls app.

End App.
End App.

(** * Facts *)

Ltac unfold_monad :=
  unfold mbind, M_bind, mret, M_ret, try_catch, throw, modify, gets in *.

Ltac unfold_ts :=
  unfold TS.Date_now_, TS.sleep, TS.db.getDatabase in *;
  unfold TS.emit, TS.set_table, TS.ask in *;
  unfold_monad.

Ltac unfold_kt :=
  unfold Kt.recordDao.updateSyncStatus, Kt.recordDao.getRecordById,
    Kt.repository.send in *;
  unfold Kt.emit, Kt.set_table, Kt.ask in *;
  unfold_monad.

(** ** The queries on the table *)

Lemma elem_of_fmap_head {A B} (f : A → B) (a : A) (l : list A) :
  f a ∈ f <$> a :: l.
Proof. rewrite fmap_cons. apply elem_of_cons. by left. Qed.

Lemma elem_of_fmap_tail {A B} (f : A → B) (a : A) (l : list A) (b : B) :
  b ∈ f <$> l → b ∈ f <$> a :: l.
Proof. intros Hb. rewrite fmap_cons. apply elem_of_cons. by right. Qed.

Lemma rows_ids (t : gmap string Row) : id <$> rows t = (map_to_list t).*1.
Proof.
  unfold rows. rewrite <- list_fmap_compose. by apply list_fmap_ext.
Qed.

Lemma elem_of_rows (t : gmap string Row) (e : RecordEntity) :
  e ∈ rows t ↔ t !! id e = Some (to_row e).
Proof.
  unfold rows. rewrite list_elem_of_fmap. split.
  - intros ([k r] & -> & Hin). simpl. apply elem_of_map_to_list in Hin.
    rewrite Hin. by destruct r.
  - intros Hk. exists (id e, to_row e). split; [by destruct e|].
    by apply elem_of_map_to_list.
Qed.

Lemma NoDup_fmap_filter {A B} (f : A → B) (P : A → Prop)
  `{∀ x, Decision (P x)} (l : list A) :
  NoDup (f <$> l) → NoDup (f <$> filter P l).
Proof.
  induction l as [|a l IH]; [done|].
  rewrite fmap_cons, NoDup_cons. intros [Hnin Hnd].
  rewrite filter_cons. destruct (decide (P a)); [|auto].
  rewrite fmap_cons, NoDup_cons. split; [|auto].
  intros Hin. apply Hnin. apply list_elem_of_fmap in Hin as (x & -> & Hx).
  apply list_elem_of_filter in Hx as [_ Hx]. by apply list_elem_of_fmap_2.
Qed.

Lemma elem_of_select_by_status st (t : gmap string Row) (e : RecordEntity) :
  e ∈ select_by_status st t ↔ t !! id e = Some (to_row e) ∧ syncStatus e = st.
Proof.
  unfold select_by_status, order_by_createdAt_desc.
  rewrite merge_sort_Permutation, list_elem_of_filter, elem_of_rows.
  unfold has_status. tauto.
Qed.

Lemma NoDup_select_by_status st (t : gmap string Row) :
  NoDup (id <$> select_by_status st t).
Proof.
  unfold select_by_status, order_by_createdAt_desc.
  rewrite merge_sort_Permutation.
  apply NoDup_fmap_filter. rewrite rows_ids. apply NoDup_fst_map_to_list.
Qed.

Lemma select_by_status_stored st (t : gmap string Row) (k : string) :
  k ∈ id <$> select_by_status st t ↔ Effect.stored_with st t k.
Proof.
  rewrite list_elem_of_fmap. split.
  - intros (e & -> & He). apply elem_of_select_by_status in He as [Hk Hst].
    exists (to_row e). by destruct e.
  - intros (r & Hk & Hst). exists (to_entity k r). split; [done|].
    apply elem_of_select_by_status. simpl. by destruct r.
Qed.

Section TS_effects.
Context {E : Type} `{TS.External E}.
Implicit Types (w : TS.World E) (k : string) (r : Row).

Lemma syncRecord_run k w :
  ∃ res, TS.repository.syncRecord k w = (Effect.syncRecord_world k w, res)
         ∧ (TS.dbInstance w = true → ∃ result, res = inr result).
Proof.
  destruct w as [t d o l].
  unfold TS.repository.syncRecord, Effect.syncRecord_world,
    TS.db.getRecordById, TS.db.updateSyncStatus, TS.db.updateRecord,
    TS.mappers.mergePostResponse.
  unfold_ts. simpl.
  destruct d; simpl; [|eexists; split; [done|discriminate]].
  destruct (t !! k) as [r|] eqn:Hk; simpl; [|eauto].
  unfold Effect.skipped. simpl.
  destruct (bool_decide (col_syncStatus r = SYNCED)
            && bool_decide (col_remoteId r ≠ None)); simpl; [eauto|].
  unfold TS.repository.send, TS.api.createPost, Effect.attempt. unfold_ts. simpl.
  unfold TS.mappers.entityToCreatePostDTO, Effect.dto_of. simpl.
  destruct (TS.axios_post _ o) as [o1 [x|resp]] eqn:Hpost; simpl.
  - destruct (TS.Date_now o1) as [o2 now] eqn:Hnow; simpl.
    rewrite Hk. simpl.
    destruct (TS.api.isPermanentError (TS.api.parseAxiosError x)); simpl;
      rewrite <- app_assoc; simpl; eauto.
  - destruct (TS.Date_now o1) as [o2 now] eqn:Hnow; simpl.
    rewrite Hk. simpl. rewrite <- app_assoc. simpl. eauto.
Qed.

Lemma syncRecord_world_eq k w :
  (TS.repository.syncRecord k w).1 = Effect.syncRecord_world k w.
Proof. destruct (syncRecord_run k w) as (res & -> & _). done. Qed.

Lemma updateSyncStatus_run k st rid err w :
  ∃ res, TS.db.updateSyncStatus k st rid err w
         = (Effect.updateSyncStatus_world k st rid err w, res)
         ∧ (TS.dbInstance w = true → TS.db.check_syncStatus st = true →
            res = inr ()).
Proof.
  destruct w as [t d o l].
  unfold TS.db.updateSyncStatus, Effect.updateSyncStatus_world.
  unfold_ts. simpl.
  destruct d; simpl; [|eexists; split; [done|discriminate]].
  destruct (TS.Date_now o) as [o' now]; simpl.
  destruct (t !! k) as [r|] eqn:Hk; simpl; [|eauto].
  destruct (TS.db.check_syncStatus st); simpl; [eauto|].
  eexists; split; [done|]. discriminate.
Qed.

Lemma updateSyncStatus_world_eq k st rid err w :
  (TS.db.updateSyncStatus k st rid err w).1
  = Effect.updateSyncStatus_world k st rid err w.
Proof. destruct (updateSyncStatus_run k st rid err w) as (res & -> & _). done. Qed.


(** *** The relation [evolves] *)

Lemma same_content_refl r : Effect.same_content r r.
Proof. by repeat split. Qed.

Lemma same_content_trans r1 r2 r3 :
  Effect.same_content r1 r2 → Effect.same_content r2 r3 →
  Effect.same_content r1 r3.
Proof. intros (?&?&?) (?&?&?). repeat split; congruence. Qed.

Lemma evolves_refl Q w : Effect.evolves Q w w.
Proof.
  split; [done| |].
  - intros k r Hk. exists r. split; [done|apply same_content_refl].
  - exists []. rewrite app_nil_r. repeat split; [constructor|]. auto.
Qed.

Lemma evolves_trans Q w1 w2 w3 :
  Effect.evolves Q w1 w2 → Effect.evolves Q w2 w3 → Effect.evolves Q w1 w3.
Proof.
  intros [Hd1 Hc1 (evs1 & Hl1 & HQ1 & Hp1)] [Hd2 Hc2 (evs2 & Hl2 & HQ2 & Hp2)].
  split; [auto| |].
  - intros k r Hk. destruct (Hc1 k r Hk) as (r' & Hk' & Hs).
    destruct (Hc2 k r' Hk') as (r'' & Hk'' & Hs').
    exists r''. split; [done|]. by eapply same_content_trans.
  - exists (evs1 ++ evs2). rewrite Hl2, Hl1, app_assoc.
    split; [done|]. split; [by apply Forall_app|].
    intros k r' Hk. destruct (Hp2 k r' Hk) as [Hin|(ev & Hev & Hw)].
    + destruct (Hp1 k r' Hin) as [?|(ev & Hev & Hw)]; [by left|].
      right. exists ev. split; [|done]. apply elem_of_app. by left.
    + right. exists ev. split; [|done]. apply elem_of_app. by right.
Qed.

Lemma evolves_mono (Q Q' : Event TS.Exn → Prop) w w' :
  (∀ ev, Q ev → Q' ev) → Effect.evolves Q w w' → Effect.evolves Q' w w'.
Proof.
  intros HQ [Hd Hc (evs & Hl & HQs & Hp)]. split; [done|done|].
  exists evs. repeat split; [done| |done]. eapply Forall_impl; eauto.
Qed.

(** A step that touches neither the table nor the log. *)
Lemma evolves_outside Q w w' :
  TS.table w' = TS.table w → TS.log w' = TS.log w →
  (TS.dbInstance w = true → TS.dbInstance w' = true) →
  Effect.evolves Q w w'.
Proof.
  intros Ht Hl Hd. split; [done| |].
  - intros k r Hk. exists r. rewrite Ht. split; [done|apply same_content_refl].
  - exists []. rewrite app_nil_r. repeat split; [done|constructor|].
    intros k r'. rewrite Ht. auto.
Qed.

(** A step that only logs. *)
Lemma evolves_logs (Q : Event TS.Exn → Prop) w w' evs :
  TS.table w' = TS.table w → TS.log w' = TS.log w ++ evs → Forall Q evs →
  (TS.dbInstance w = true → TS.dbInstance w' = true) →
  Effect.evolves Q w w'.
Proof.
  intros Ht Hl HQ Hd. split; [done| |].
  - intros k r Hk. exists r. rewrite Ht. split; [done|apply same_content_refl].
  - exists evs. repeat split; [done|done|]. intros k r'. rewrite Ht. auto.
Qed.

(** A step that rewrites the sync columns of one stored row. *)
Lemma evolves_update (Q : Event TS.Exn → Prop) w w' k r r' evs :
  TS.table w !! k = Some r → Effect.same_content r r' →
  TS.table w' = <[k := r']> (TS.table w) →
  TS.log w' = TS.log w ++ evs → Forall Q evs → EvUpdate k r' ∈ evs →
  (TS.dbInstance w = true → TS.dbInstance w' = true) →
  Effect.evolves Q w w'.
Proof.
  intros Hk Hs Ht Hl HQ Hin Hd. split; [done| |].
  - intros k0 r0 Hk0. rewrite Ht. destruct (decide (k = k0)) as [->|Hne].
    + rewrite lookup_insert_eq. exists r'. split; [done|]. congruence.
    + rewrite lookup_insert_ne by done. exists r0.
      split; [done|apply same_content_refl].
  - exists evs. repeat split; [done|done|].
    intros k0 r0. rewrite Ht. destruct (decide (k = k0)) as [->|Hne].
    + rewrite lookup_insert_eq. intros [= <-]. right. by exists (EvUpdate k0 r').
    + rewrite lookup_insert_ne by done. auto.
Qed.

(** A step that inserts a row under a key not in use. *)
Lemma evolves_insert (Q : Event TS.Exn → Prop) w w' k r' evs :
  TS.table w !! k = None →
  TS.table w' = <[k := r']> (TS.table w) →
  TS.log w' = TS.log w ++ evs → Forall Q evs → EvInsert k r' ∈ evs →
  (TS.dbInstance w = true → TS.dbInstance w' = true) →
  Effect.evolves Q w w'.
Proof.
  intros Hk Ht Hl HQ Hin Hd. split; [done| |].
  - intros k0 r0 Hk0. rewrite Ht. destruct (decide (k = k0)) as [->|Hne].
    + congruence.
    + rewrite lookup_insert_ne by done. exists r0.
      split; [done|apply same_content_refl].
  - exists evs. repeat split; [done|done|].
    intros k0 r0. rewrite Ht. destruct (decide (k = k0)) as [->|Hne].
    + rewrite lookup_insert_eq. intros [= <-]. right. by exists (EvInsert k0 r').
    + rewrite lookup_insert_ne by done. auto.
Qed.

(** What [evolves] gives for a record no event is about. *)
Lemma evolves_frame (Q : Event TS.Exn → Prop) w w' k :
  Effect.evolves Q w w' → (∀ ev, Q ev → ¬ Effect.about k ev) →
  TS.table w' !! k = TS.table w !! k.
Proof.
  intros [_ Hc (evs & Hl & HQ & Hp)] Hk.
  assert (∀ r', TS.table w' !! k = Some r' → TS.table w !! k = Some r') as Hback.
  { intros r' Hr'. destruct (Hp k r' Hr') as [?|(ev & Hev & Hw)]; [done|].
    exfalso. rewrite Forall_forall in HQ. apply (Hk ev); [by apply HQ|].
    destruct ev; simpl in *; congruence. }
  destruct (TS.table w !! k) as [r|] eqn:Hr.
  - destruct (Hc k r Hr) as (r' & Hr' & _). rewrite Hr'. by apply Hback in Hr'.
  - destruct (TS.table w' !! k) as [r'|] eqn:Hr'; [|done].
    by specialize (Hback _ eq_refl).
Qed.


(** *** Each operation evolves the world *)

Lemma attempt_row_after r out now : Effect.attempt_row (Effect.row_after r out now).
Proof.
  destruct out as [x|resp]; simpl.
  - right. destruct (Effect.is_permanent x); simpl; auto.
  - left. auto.
Qed.

Lemma same_content_row_after r out now :
  Effect.same_content r (Effect.row_after r out now).
Proof. destruct out; by repeat split. Qed.

Lemma syncRecord_evolves k w :
  Effect.evolves (Effect.attempt_event k) w (Effect.syncRecord_world k w).
Proof.
  unfold Effect.syncRecord_world.
  destruct (TS.dbInstance w) eqn:Hd; [|apply evolves_refl].
  destruct (TS.table w !! k) as [r|] eqn:Hk; [|apply evolves_refl].
  destruct (Effect.skipped r); [apply evolves_refl|].
  unfold Effect.attempt.
  destruct (TS.axios_post _ _) as [o1 res].
  destruct (TS.Date_now o1) as [o2 now].
  set (r' := Effect.row_after r (Effect.api_outcome res) now).
  apply (evolves_update _ _ _ k r r'
           [EvSend k (Effect.dto_of r) (Effect.api_outcome res); EvUpdate k r']);
    simpl; try done.
  - apply same_content_row_after.
  - constructor; [done|]. constructor; [|constructor].
    split; [done|apply attempt_row_after].
  - set_solver.
Qed.

Lemma sleep_run ms w :
  TS.sleep ms w
  = (TS.mkWorld (TS.table w) (TS.dbInstance w) (TS.setTimeout ms (TS.outside w))
       (TS.log w ++ [EvWait ms]), inr ()).
Proof. done. Qed.

Lemma sleep_evolves w : Effect.evolves Effect.wait_event w (TS.sleep 100 w).1.
Proof.
  rewrite sleep_run. simpl.
  eapply evolves_logs; simpl; eauto. by repeat constructor.
Qed.

Lemma updateSyncStatus_evolves k st rid err w :
  Effect.evolves (Effect.update_event k st rid err) w
    (Effect.updateSyncStatus_world k st rid err w).
Proof.
  unfold Effect.updateSyncStatus_world.
  destruct (TS.dbInstance w) eqn:Hd; [|apply evolves_refl].
  destruct (TS.Date_now _) as [o now].
  destruct (TS.table w !! k) as [r|] eqn:Hk; [|by apply evolves_outside].
  destruct (TS.db.check_syncStatus st) eqn:Hc; [|by apply evolves_outside].
  apply (evolves_update _ _ _ k r (set_sync st rid now err r)
           [EvUpdate k (set_sync st rid now err r)]); simpl; try done.
  - by repeat constructor.
  - set_solver.
Qed.

Lemma initDatabase_run w :
  TS.db.initDatabase w
  = (TS.mkWorld (TS.table w) true (TS.outside w) (TS.log w), inr ()).
Proof. unfold TS.db.initDatabase. destruct w as [t [] o l]; done. Qed.

Lemma initDatabase_evolves Q w : Effect.evolves Q w (TS.db.initDatabase w).1.
Proof. rewrite initDatabase_run. by apply evolves_outside. Qed.

Lemma as_result_world {A} (m : M (TS.World E) TS.Exn A) w :
  (TS.repository.as_result m w).1 = (m w).1.
Proof.
  unfold TS.repository.as_result. unfold_monad.
  by destruct (m w) as [w' [x|a]].
Qed.

Lemma forward_world {A} (m : M (TS.World E) TS.Exn (TS.Result A)) w :
  (TS.useCases.forward m w).1 = (m w).1.
Proof.
  unfold TS.useCases.forward. unfold_monad.
  by destruct (m w) as [w' [x|a]].
Qed.

Lemma sync_each_cons e rest acc w :
  TS.repository.sync_each (e :: rest) acc w
  = match TS.repository.syncRecord (id e) w with
    | (w1, inl x) => (w1, inl x)
    | (w1, inr result) =>
        TS.repository.sync_each rest (acc ++ [result]) (TS.sleep 100 w1).1
    end.
Proof.
  simpl. unfold_monad.
  destruct (TS.repository.syncRecord (id e) w) as [w1 [x|result]]; [done|].
  by rewrite sleep_run.
Qed.

Lemma sync_each_evolves l acc w :
  Effect.evolves (Effect.pass_event (λ k, k ∈ id <$> l)) w
    (TS.repository.sync_each l acc w).1.
Proof.
  revert acc w. induction l as [|e rest IH]; intros acc w.
  - apply evolves_refl.
  - rewrite sync_each_cons.
    pose proof (syncRecord_evolves (id e) w) as Hs.
    destruct (syncRecord_run (id e) w) as (res & Hrun & _).
    rewrite Hrun. simpl.
    assert (Effect.evolves (Effect.pass_event (λ k, k ∈ id <$> e :: rest)) w
              (Effect.syncRecord_world (id e) w)) as Hs'.
    { eapply evolves_mono; [|exact Hs]. intros ev Hev. right.
      exists (id e). split; [apply elem_of_fmap_head|done]. }
    destruct res as [x|result]; [done|].
    eapply evolves_trans; [exact Hs'|].
    eapply evolves_trans.
    + eapply evolves_mono; [|apply sleep_evolves]. intros ev Hev. by left.
    + eapply evolves_mono; [|apply IH]. intros ev [Hev|(k & Hk & Hev)].
      * by left.
      * right. exists k. split; [by apply elem_of_fmap_tail|done].
Qed.

Lemma requeue_each_cons e rest w :
  TS.repository.requeue_each (e :: rest) w
  = match TS.db.updateSyncStatus (id e) PENDING None None w with
    | (w1, inl x) => (w1, inl x)
    | (w1, inr _) => TS.repository.requeue_each rest w1
    end.
Proof.
  simpl. unfold_monad.
  by destruct (TS.db.updateSyncStatus (id e) PENDING None None w) as [w1 [x|[]]].
Qed.

Lemma requeue_each_evolves l w :
  Effect.evolves (λ ev, ∃ k, k ∈ id <$> l ∧ Effect.requeue_event k ev) w
    (TS.repository.requeue_each l w).1.
Proof.
  revert w. induction l as [|e rest IH]; intros w.
  - apply evolves_refl.
  - rewrite requeue_each_cons.
    pose proof (updateSyncStatus_evolves (id e) PENDING None None w) as Hs.
    destruct (updateSyncStatus_run (id e) PENDING None None w) as (res & Hrun & _).
    rewrite Hrun.
    assert (Effect.evolves
              (λ ev, ∃ k, k ∈ id <$> e :: rest ∧ Effect.requeue_event k ev) w
              (Effect.updateSyncStatus_world (id e) PENDING None None w)) as Hs'.
    { eapply evolves_mono; [|exact Hs]. intros ev Hev.
      exists (id e). split; [apply elem_of_fmap_head|done]. }
    destruct res as [x|[]]; [done|].
    eapply evolves_trans; [exact Hs'|].
    eapply evolves_mono; [|apply IH]. intros ev (k & Hk & Hev).
    exists k. split; [by apply elem_of_fmap_tail|done].
Qed.


Lemma getRecordsByStatus_run st w :
  TS.db.getRecordsByStatus st w
  = if TS.dbInstance w then (w, inr (select_by_status st (TS.table w)))
    else (w, inl (TS.JsError "Database not initialized. Call initDatabase() first.")).
Proof.
  unfold TS.db.getRecordsByStatus. unfold_ts. by destruct (TS.dbInstance w).
Qed.

Lemma syncRecord_keeps_db k w :
  TS.dbInstance (Effect.syncRecord_world k w) = TS.dbInstance w.
Proof.
  unfold Effect.syncRecord_world, Effect.attempt.
  destruct (TS.dbInstance w) eqn:Hd; [|done].
  destruct (TS.table w !! k) as [r|]; [|done].
  destruct (Effect.skipped r); [done|].
  destruct (TS.axios_post _ _) as [o1 res]. by destruct (TS.Date_now o1).
Qed.

Lemma updateSyncStatus_keeps_db k st rid err w :
  TS.dbInstance (Effect.updateSyncStatus_world k st rid err w) = TS.dbInstance w.
Proof.
  unfold Effect.updateSyncStatus_world.
  destruct (TS.dbInstance w) eqn:Hd; [|done].
  destruct (TS.Date_now _) as [o now].
  destruct (TS.table w !! k) as [r|]; [|done].
  by destruct (TS.db.check_syncStatus st).
Qed.

(** With the handle open, the loops run to their end. *)
Lemma sync_each_returns l acc w :
  TS.dbInstance w = true →
  ∃ results, TS.repository.sync_each l acc w
             = ((TS.repository.sync_each l acc w).1, inr results).
Proof.
  revert acc w. induction l as [|e rest IH]; intros acc w Hd.
  - by exists acc.
  - rewrite sync_each_cons.
    destruct (syncRecord_run (id e) w) as (res & Hrun & Hres).
    destruct (Hres Hd) as (result & ->). rewrite Hrun.
    apply IH. rewrite sleep_run. simpl. by rewrite syncRecord_keeps_db.
Qed.

Lemma requeue_each_returns l w :
  TS.dbInstance w = true →
  TS.repository.requeue_each l w = ((TS.repository.requeue_each l w).1, inr ()).
Proof.
  revert w. induction l as [|e rest IH]; intros w Hd; [done|].
  rewrite requeue_each_cons.
  destruct (updateSyncStatus_run (id e) PENDING None None w) as (res & Hrun & Hres).
  rewrite Hrun, (Hres Hd eq_refl). apply IH.
  by rewrite updateSyncStatus_keeps_db.
Qed.

Lemma syncPendingRecords_world w :
  (TS.repository.syncPendingRecords w).1
  = if TS.dbInstance w
    then (TS.repository.sync_each (select_by_status PENDING (TS.table w)) [] w).1
    else w.
Proof.
  unfold TS.repository.syncPendingRecords. rewrite as_result_world.
  unfold_monad. rewrite getRecordsByStatus_run.
  destruct (TS.dbInstance w); [|done].
  by destruct (select_by_status PENDING (TS.table w)).
Qed.

Lemma syncPendingRecords_returns w :
  ∃ result, TS.repository.syncPendingRecords w
            = ((TS.repository.syncPendingRecords w).1, inr result).
Proof.
  unfold TS.repository.syncPendingRecords, TS.repository.as_result.
  unfold_monad.
  destruct (match TS.db.getRecordsByStatus PENDING w with
            | (s', inl x) => (s', inl x)
            | (s', inr a) => _
            end) as [w' [x|a]]; eauto.
Qed.

Lemma retryFailedSyncs_world w :
  (TS.repository.retryFailedSyncs w).1
  = if TS.dbInstance w
    then match select_by_status FAILED (TS.table w) with
         | [] => w
         | l => (TS.repository.syncPendingRecords
                   (TS.repository.requeue_each l w).1).1
         end
    else w.
Proof.
  unfold TS.repository.retryFailedSyncs. unfold_monad.
  rewrite getRecordsByStatus_run.
  destruct (TS.dbInstance w) eqn:Hd; [|done].
  destruct (select_by_status FAILED (TS.table w)) as [|e l]; [done|].
  rewrite (requeue_each_returns (e :: l) w Hd).
  destruct (syncPendingRecords_returns (TS.repository.requeue_each (e :: l) w).1)
    as (result & ->). done.
Qed.

Lemma syncPendingRecords_evolves w :
  Effect.evolves (Effect.pass_event (Effect.stored_with PENDING (TS.table w))) w
    (TS.repository.syncPendingRecords w).1.
Proof.
  rewrite syncPendingRecords_world.
  destruct (TS.dbInstance w); [|apply evolves_refl].
  eapply evolves_mono; [|apply sync_each_evolves].
  intros ev [Hev|(k & Hk & Hev)]; [by left|]. right. exists k.
  split; [|done]. by apply select_by_status_stored.
Qed.

Lemma retryFailedSyncs_evolves w :
  Effect.evolves (Effect.retry_event (TS.table w)) w
    (TS.repository.retryFailedSyncs w).1.
Proof.
  rewrite retryFailedSyncs_world.
  destruct (TS.dbInstance w); [|apply evolves_refl].
  destruct (select_by_status FAILED (TS.table w)) as [|e l] eqn:Hsel;
    [apply evolves_refl|].
  rewrite <- Hsel.
  pose proof (requeue_each_evolves (select_by_status FAILED (TS.table w)) w) as H1.
  set (w1 := (TS.repository.requeue_each _ w).1) in *.
  eapply evolves_trans.
  - eapply evolves_mono; [|exact H1]. intros ev (k & Hk & Hev). left.
    exists k. split; [|done]. by apply select_by_status_stored.
  - eapply evolves_mono; [|apply syncPendingRecords_evolves].
    intros ev [Hev|(k & (r1 & Hk & Hst) & Hev)]; right; [by left|].
    right. exists k. split; [|done].
    destruct H1 as [_ _ (evs & _ & HQ & Hp)].
    destruct (Hp k r1 Hk) as [Hin|(ev' & Hev' & Hw)].
    + left. by exists r1.
    + right. rewrite Forall_forall in HQ.
      destruct (HQ ev' Hev') as (k' & Hk' & Hre).
      apply select_by_status_stored in Hk'.
      destruct ev'; simpl in *; try done.
      destruct Hre as (-> & _). by injection Hw as ->.
Qed.


Lemma validateRecordInput_run title_ body_ w :
  TS.useCases.validateRecordInput title_ body_ w
  = (TS.mkWorld (TS.table w) (TS.dbInstance w) (TS.outside w)
       (TS.log w ++ [EvValidate title_ body_]),
     match Effect.validation_error title_ body_ with
     | Some msg => inl (TS.JsValidationError msg)
     | None => inr ()
     end).
Proof.
  unfold TS.useCases.validateRecordInput, Effect.validation_error. unfold_ts.
  simpl.
  repeat match goal with |- context [if ?b then _ else _] => destruct b end;
    done.
Qed.

Lemma createRecord_run title_ body_ w :
  TS.useCases.createRecord title_ body_ w
  = Effect.createRecord_effect title_ body_ w.
Proof.
  unfold TS.useCases.createRecord, TS.useCases.forward, Effect.createRecord_effect.
  unfold_monad. rewrite validateRecordInput_run.
  destruct (Effect.validation_error title_ body_) as [msg|]; [done|].
  unfold TS.repository.createRecord, TS.repository.as_result,
    TS.db.insertRecord. unfold_ts. simpl.
  destruct (TS.uuidv4 (TS.outside w)) as [o1 uuid]. simpl.
  destruct (TS.Date_now o1) as [o2 now]. simpl.
  destruct (TS.dbInstance w); simpl; [|done].
  by destruct (TS.table w !! uuid).
Qed.

Lemma createRecord_evolves title_ body_ w :
  Effect.evolves (Effect.create_event (TS.table w)) w
    (TS.useCases.createRecord title_ body_ w).1.
Proof.
  rewrite createRecord_run. unfold Effect.createRecord_effect.
  destruct (Effect.validation_error title_ body_) as [msg|].
  { eapply evolves_logs; simpl; eauto. by repeat constructor. }
  destruct (TS.uuidv4 (TS.outside w)) as [o1 uuid].
  destruct (TS.Date_now o1) as [o2 now].
  destruct (TS.dbInstance w) eqn:Hd.
  - destruct (TS.table w !! uuid) eqn:Hk.
    + eapply evolves_logs; simpl; eauto. by repeat constructor.
    + apply (evolves_insert _ _ _ uuid
               (to_row (Effect.new_entity uuid now title_ body_))
               [EvValidate title_ body_;
                EvInsert uuid (to_row (Effect.new_entity uuid now title_ body_))]);
        simpl; try done.
      * by rewrite <- app_assoc.
      * constructor; [done|]. constructor; [|constructor]. by repeat split.
      * apply elem_of_cons. right. apply elem_of_cons. by left.
  - eapply evolves_logs; simpl; eauto. by repeat constructor.
Qed.

(** *** The events of the operations, classified *)

Lemma attempt_event_caller k ev : Effect.attempt_event k ev → Effect.caller_event ev.
Proof.
  destruct ev as [| k' r | | |]; simpl; try done.
  intros [_ Hr]. repeat split.
  - intros k0 r0 [= <- <-].
    destruct Hr as [(-> & _)|([->| ->] & _)]; done.
  - intros; simplify_eq.
  - intros k0 r0 [= <- <-] Hrid.
    destruct Hr as [(-> & _)|(_ & ? & _)]; done.
Qed.

Lemma wait_event_caller ev : Effect.wait_event ev → Effect.caller_event ev.
Proof. intros ->. repeat split; intros; simplify_eq; done. Qed.

Lemma update_event_engine k st rid err ev :
  Effect.update_event k st rid err ev → Effect.engine_event ev.
Proof.
  destruct ev as [| k' r | | |]; simpl; try done.
  intros (_ & Hc & <- & _). split; intros; simpl in *; simplify_eq. done.
Qed.

Lemma requeue_event_caller k ev : Effect.requeue_event k ev → Effect.caller_event ev.
Proof.
  intros Hev. split; [by eapply update_event_engine|].
  destruct ev as [| k' r | | |]; simpl in *; try done.
  destruct Hev as (_ & _ & _ & Hrid & _). intros; simpl in *; by simplify_eq.
Qed.

Lemma create_event_caller t ev : Effect.create_event t ev → Effect.caller_event ev.
Proof.
  destruct ev as [k r| | | |]; simpl; try done.
  intros (_ & Hst & Hrid & _). repeat split; intros; simpl in *; simplify_eq.
  by rewrite Hst.
Qed.

Lemma pass_event_caller K ev : Effect.pass_event K ev → Effect.caller_event ev.
Proof.
  intros [Hw|(k & _ & Ha)];
    eauto using wait_event_caller, attempt_event_caller.
Qed.

Lemma retry_event_caller t ev : Effect.retry_event t ev → Effect.caller_event ev.
Proof.
  intros [(k & _ & Hr)|Hp];
    eauto using requeue_event_caller, pass_event_caller.
Qed.


(** *** Operations and sequences of operations *)

Lemma exec_evolves op w :
  Effect.evolves Effect.engine_event w (Engine.exec w op).
Proof.
  destruct op as [|t b| | |k|k st rid err]; simpl.
  - apply initDatabase_evolves.
  - eapply evolves_mono; [|apply createRecord_evolves].
    intros ev Hev. by eapply create_event_caller.
  - unfold TS.useCases.syncRecords. rewrite forward_world.
    eapply evolves_mono; [|apply syncPendingRecords_evolves].
    intros ev Hev. by eapply pass_event_caller.
  - unfold TS.useCases.retryFailedSyncs. rewrite forward_world.
    eapply evolves_mono; [|apply retryFailedSyncs_evolves].
    intros ev Hev. by eapply retry_event_caller.
  - rewrite syncRecord_world_eq.
    eapply evolves_mono; [|apply syncRecord_evolves].
    intros ev Hev. by eapply attempt_event_caller.
  - rewrite updateSyncStatus_world_eq.
    eapply evolves_mono; [|apply updateSyncStatus_evolves].
    intros ev Hev. by eapply update_event_engine.
Qed.


Lemma exec_all_cons op ops w :
  Engine.exec_all (op :: ops) w = Engine.exec_all ops (Engine.exec w op).
Proof. done. Qed.

Lemma exec_all_evolves ops w :
  Effect.evolves Effect.engine_event w (Engine.exec_all ops w).
Proof.
  revert w. induction ops as [|op ops IH]; intros w; [apply evolves_refl|].
  rewrite exec_all_cons. eapply evolves_trans; [apply exec_evolves|apply IH].
Qed.



(** Invariants of the table that follow from the events. *)
Lemma evolves_no_SYNCING w w' :
  Effect.evolves Effect.engine_event w w' →
  Effect.no_SYNCING (TS.table w) → Effect.no_SYNCING (TS.table w').
Proof.
  intros [_ _ (evs & _ & HQ & Hp)] Hno k r' Hk.
  destruct (Hp k r' Hk) as [Hin|(ev & Hev & Hw)]; [by eapply Hno|].
  rewrite Forall_forall in HQ. destruct (HQ ev Hev) as [Hc _].
  specialize (Hc k r' Hw). by destruct (col_syncStatus r').
Qed.




(** *** Records no operation touches *)



Lemma evolves_untouched (Q : Event TS.Exn → Prop) w w' k :
  Effect.evolves Q w w' → (∀ ev, Q ev → ¬ Effect.about k ev) →
  Effect.untouched k w w'.
Proof.
  intros Hev HQ. split; [by eapply evolves_frame|].
  destruct Hev as [_ _ (evs & Hl & HQs & _)]. exists evs.
  split; [done|]. eapply Forall_impl; eauto.
Qed.


Lemma update_event_about k k' st rid err ev :
  Effect.update_event k' st rid err ev → Effect.about k ev → k' = k.
Proof. destruct ev; simpl; try done. intros [<- _]. done. Qed.


Lemma stored_with_status st st' t k r :
  t !! k = Some r → col_syncStatus r = st → st ≠ st' →
  ¬ Effect.stored_with st' t k.
Proof. intros Hk Hst Hne (r' & Hk' & Hst'). congruence. Qed.













(** *** What a pass does to each pending record *)

Lemma attempt_spec k r w :
  ∃ o1 res o2 now,
    TS.axios_post (Effect.dto_of r) (TS.outside w) = (o1, res)
    ∧ TS.Date_now o1 = (o2, now)
    ∧ Effect.attempt k r w
      = TS.mkWorld (<[k := Effect.row_after r (Effect.api_outcome res) now]> (TS.table w))
          (TS.dbInstance w) o2
          (TS.log w ++ [EvSend k (Effect.dto_of r) (Effect.api_outcome res);
                        EvUpdate k (Effect.row_after r (Effect.api_outcome res) now)]).
Proof.
  unfold Effect.attempt.
  destruct (TS.axios_post _ _) as [o1 res] eqn:Hpost.
  destruct (TS.Date_now o1) as [o2 now] eqn:Hnow. by exists o1, res, o2, now.
Qed.




(** *** What the requeue does to each failed record *)

Lemma requeue_each_requeues l w k r :
  NoDup (id <$> l) → k ∈ id <$> l →
  TS.dbInstance w = true → TS.table w !! k = Some r →
  ∃ o now, (TS.Date_now o).2 = now
    ∧ TS.table (TS.repository.requeue_each l w).1 !! k
      = Some (set_sync PENDING None now None r).
Proof.
  revert w. induction l as [|e rest IH]; intros w Hnd Hin Hd Hk.
  { by apply elem_of_nil in Hin. }
  rewrite fmap_cons in Hnd, Hin. apply NoDup_cons in Hnd as [Hnin Hnd].
  rewrite requeue_each_cons.
  destruct (updateSyncStatus_run (id e) PENDING None None w) as (res & Hrun & Hres).
  rewrite Hrun, (Hres Hd eq_refl). clear Hrun Hres.
  set (w1 := Effect.updateSyncStatus_world (id e) PENDING None None w).
  assert (TS.dbInstance w1 = true) as Hd1
    by (unfold w1; by rewrite updateSyncStatus_keeps_db).
  destruct (decide (id e = k)) as [Heq|Hne].
  - subst k. clear Hin IH.
    pose proof (requeue_each_evolves rest w1) as Hrest.
    apply (evolves_untouched _ _ _ (id e)) in Hrest.
    + destruct Hrest as [-> _]. unfold w1, Effect.updateSyncStatus_world.
      rewrite Hd. destruct (TS.Date_now (TS.outside w)) as [o' now] eqn:Hnow.
      rewrite Hk. simpl.
      exists (TS.outside w), now. rewrite Hnow. split; [done|].
      by rewrite lookup_insert_eq.
    + intros ev (k' & Hk' & Hr) Hab.
      by rewrite (update_event_about (id e) k' _ _ _ ev Hr Hab) in Hk'.
  - apply elem_of_cons in Hin as [Hin|Hin]; [congruence|].
    pose proof (updateSyncStatus_evolves (id e) PENDING None None w) as Hs.
    apply (evolves_untouched _ _ _ k) in Hs;
      [|intros ev Ha Hab; by apply Hne, (update_event_about k (id e) _ _ _ ev Ha)].
    destruct Hs as [Ht _]. apply IH; try done. fold w1 in Ht. by rewrite Ht.
Qed.

Lemma requeue_event_not_send k (ev : Event TS.Exn) :
  Effect.requeue_event k ev → is_send ev = false.
Proof. by destruct ev. Qed.

(** *** The classification of transport errors *)





(** *** Validation runs in [createRecord] only *)

Lemma exec_sync_op_evolves op w :
  Engine.sync_op op = true →
  Effect.evolves (λ ev, is_validate ev = false) w (Engine.exec w op).
Proof.
  destruct op as [|t b| | |k|k st rid err]; simpl; intros Hop; try done.
  - apply initDatabase_evolves.
  - unfold TS.useCases.syncRecords. rewrite forward_world.
    eapply evolves_mono; [|apply syncPendingRecords_evolves].
    intros ev [->|(k & _ & Ha)]; [done|]. by destruct ev.
  - unfold TS.useCases.retryFailedSyncs. rewrite forward_world.
    eapply evolves_mono; [|apply retryFailedSyncs_evolves].
    intros ev [(k & _ & Hr)|[->|(k & _ & Ha)]]; [|done|]; by destruct ev.
  - rewrite syncRecord_world_eq.
    eapply evolves_mono; [|apply syncRecord_evolves].
    intros ev Ha. by destruct ev.
  - rewrite updateSyncStatus_world_eq.
    eapply evolves_mono; [|apply updateSyncStatus_evolves].
    intros ev Ha. by destruct ev.
Qed.

Lemma exec_all_sync_op_evolves ops w :
  forallb Engine.sync_op ops = true →
  Effect.evolves (λ ev, is_validate ev = false) w (Engine.exec_all ops w).
Proof.
  revert w. induction ops as [|op ops IH]; intros w Hops; [apply evolves_refl|].
  simpl in Hops. apply andb_true_iff in Hops as [Hop Hops].
  rewrite exec_all_cons.
  eapply evolves_trans; [by apply exec_sync_op_evolves|by apply IH].
Qed.

Lemma validation_error_bounds title_ body_ :
  200 < JS.length (JS.trim title_) ∨ 5000 < JS.length (JS.trim body_) →
  is_Some (Effect.validation_error title_ body_).
Proof.
  intros Hb. unfold Effect.validation_error.
  repeat match goal with
         | |- context [if ?b then _ else _] => destruct b eqn:?
         end; try done.
  destruct Hb as [Hb|Hb]; apply Z.ltb_lt in Hb; congruence.
Qed.

Lemma validation_error_None title_ body_ :
  Effect.validation_error title_ body_ = None →
  0 < JS.length (JS.trim title_) ≤ 200 ∧ 0 < JS.length (JS.trim body_) ≤ 5000.
Proof.
  unfold Effect.validation_error, JS.length.
  repeat match goal with
         | |- context [if ?b then _ else _] => destruct b eqn:?
         end; try done.
  intros _.
  repeat match goal with
         | H : (_ || _) = false |- _ => apply orb_false_iff in H as [_ H]
         | H : (_ =? _) = false |- _ => apply Z.eqb_neq in H
         | H : (_ <? _) = false |- _ => apply Z.ltb_ge in H
         end.
  unfold JS.length in *. lia.
Qed.

(** *** The pause between two records *)

Lemma backoff_delay_at_least_base n : Spec.base_ms ≤ Spec.backoff_delay n.
Proof.
  unfold Spec.backoff_delay, Spec.base_ms, Spec.cap_ms.
  assert (1 ≤ 2 ^ Z.of_nat n) by (apply Z.pow_le_mono_r with (b := 0); lia).
  lia.
Qed.

Lemma backoff_delay_capped n : Spec.backoff_delay n ≤ Spec.cap_ms.
Proof. unfold Spec.backoff_delay. lia. Qed.

Lemma backoff_delay_monotone n m :
  (n ≤ m)%nat → Spec.backoff_delay n ≤ Spec.backoff_delay m.
Proof.
  intros Hnm. unfold Spec.backoff_delay, Spec.base_ms.
  assert (2 ^ Z.of_nat n ≤ 2 ^ Z.of_nat m) by (apply Z.pow_le_mono_r; lia).
  lia.
Qed.

End TS_effects.

(** ** The engine as the caller sees it (TypeScript) *)

Section TS_claims.
Context {E : Type} `{TS.External E}.
Implicit Types (w : TS.World E) (k : string) (r : Row).


(** C8.  No operation of the sync engine modifies the id, title, body or
    createdAt of a stored record: through every sequence of start-ups,
    creations, sync passes, retries, single [syncRecord] calls and status
    updates, a stored record stays stored under its id with its title,
    body and createdAt. *)
Theorem content_is_write_once (ops : list Engine.Op) w k r :
  TS.table w !! k = Some r →
  ∃ r', TS.table (Engine.exec_all ops w) !! k = Some r'
        ∧ col_title r' = col_title r ∧ col_body r' = col_body r
        ∧ col_createdAt r' = col_createdAt r.
Proof.
  intros Hk. destruct (exec_all_evolves ops w) as [_ Hc _].
  destruct (Hc k r Hk) as (r' & Hk' & Ht & Hb & Hc'). by exists r'.
Qed.



(** C10.  The requeue step of the retry-failed operation runs before the
    pass and contacts the remote for no record; for every record stored as
    FAILED it overwrites all four sync columns: the status becomes PENDING,
    the stored error and the remote id become null and lastSyncAttempt
    becomes a reading of the clock, the content staying as it was.  So the
    failure message is gone once the requeue is done, whatever the pass
    that follows does. *)
Theorem requeue_overwrites_the_sync_columns w k r :
  TS.dbInstance w = true → TS.table w !! k = Some r →
  col_syncStatus r = FAILED →
  let requeued :=
    (TS.repository.requeue_each (select_by_status FAILED (TS.table w)) w).1 in
  (TS.repository.retryFailedSyncs w).1
  = (TS.repository.syncPendingRecords requeued).1
  ∧ (∃ evs, TS.log requeued = TS.log w ++ evs
            ∧ Forall (λ ev, is_send ev = false) evs)
  ∧ ∃ r' o,
      TS.table requeued !! k = Some r'
      ∧ col_syncStatus r' = PENDING ∧ col_syncError r' = None
      ∧ col_remoteId r' = None
      ∧ col_lastSyncAttempt r' = Some (TS.Date_now o).2
      ∧ col_title r' = col_title r ∧ col_body r' = col_body r
      ∧ col_createdAt r' = col_createdAt r.
Proof.
  intros Hd Hk Hst requeued.
  assert (k ∈ id <$> select_by_status FAILED (TS.table w)) as Hin.
  { apply select_by_status_stored. by exists r. }
  split; [|split].
  - rewrite retryFailedSyncs_world, Hd.
    destruct (select_by_status FAILED (TS.table w)) eqn:Hsel; [|done].
    by apply elem_of_nil in Hin.
  - destruct (requeue_each_evolves (select_by_status FAILED (TS.table w)) w)
      as [_ _ (evs & Hl & HQ & _)].
    exists evs. split; [done|]. eapply Forall_impl; [exact HQ|].
    intros ev (k' & _ & Hr). by eapply requeue_event_not_send.
  - destruct (requeue_each_requeues _ w k r (NoDup_select_by_status _ _) Hin Hd Hk)
      as (o & now & Hnow & Hk').
    exists (set_sync PENDING None now None r), o. rewrite Hnow. by repeat split.
Qed.

(** C7, as amended.  [createRecord] validates the trimmed title and body.
    When the trimmed title is longer than 200 characters or the trimmed
    body longer than 5000, it returns a [ValidationError] and leaves the
    table as it was, logging nothing but the validation.  When it succeeds,
    the record it returns carries the trimmed title and body, within the
    bounds, was inserted under its id with status PENDING, and was
    validated exactly once.  No other operation validates anything. *)
Theorem createRecord_validates_the_trimmed_input title_ body_ w :
  (200 < JS.length (JS.trim title_) ∨ 5000 < JS.length (JS.trim body_) →
   ∃ msg,
     TS.useCases.createRecord title_ body_ w
     = (TS.mkWorld (TS.table w) (TS.dbInstance w) (TS.outside w)
          (TS.log w ++ [EvValidate title_ body_]),
        inr (TS.Failure (TS.JsValidationError msg))))
  ∧ (∀ w' record,
       TS.useCases.createRecord title_ body_ w = (w', inr (TS.Success record)) →
       title record = JS.trim title_ ∧ body record = JS.trim body_
       ∧ JS.length (title record) ≤ 200 ∧ JS.length (body record) ≤ 5000
       ∧ syncStatus record = PENDING
       ∧ TS.table w !! id record = None
       ∧ TS.table w' !! id record = Some (to_row record)
       ∧ TS.log w'
         = TS.log w ++ [EvValidate title_ body_; EvInsert (id record) (to_row record)])
  ∧ (∀ ops : list Engine.Op,
       forallb Engine.sync_op ops = true →
       ∃ evs, TS.log (Engine.exec_all ops w) = TS.log w ++ evs
              ∧ Forall (λ ev, is_validate ev = false) evs).
Proof.
  split; [|split].
  - intros Hb. apply validation_error_bounds in Hb as [msg Hmsg].
    exists msg. rewrite createRecord_run. unfold Effect.createRecord_effect.
    by rewrite Hmsg.
  - intros w' record. rewrite createRecord_run. unfold Effect.createRecord_effect.
    destruct (Effect.validation_error title_ body_) eqn:Hv; [done|].
    apply validation_error_None in Hv as [Ht Hb].
    destruct (TS.uuidv4 _) as [o1 uuid]. destruct (TS.Date_now o1) as [o2 now].
    destruct (TS.dbInstance w); [|done].
    destruct (TS.table w !! uuid) eqn:Hk; [done|].
    intros [= <- <-]. simpl. rewrite lookup_insert_eq, <- app_assoc. simpl.
    repeat split; try done; lia.
  - intros ops Hops.
    destruct (exec_all_sync_op_evolves ops w Hops) as [_ _ (evs & Hl & HQ & _)].
    by exists evs.
Qed.

(** Every wait an operation of the engine performs is the pause of 100 ms
    between two records of a pass. *)
Lemma every_wait_is_the_fixed_pause (ops : list Engine.Op) w :
  ∃ evs, TS.log (Engine.exec_all ops w) = TS.log w ++ evs
         ∧ Forall (λ ms, ms = 100) (waits_of evs).
Proof.
  destruct (exec_all_evolves ops w) as [_ _ (evs & Hl & HQ & _)].
  exists evs. split; [done|]. clear Hl.
  induction HQ as [|ev evs [_ Hw] _ IH]; [constructor|].
  destruct ev; simpl; try done. constructor; [|done]. by apply Hw.
Qed.

End TS_claims.

(** ** The Kotlin repository *)

Section Kt_claims.
Context {E : Type} `{Kt.External E}.
Implicit Types (w : Kt.World E) (k : string) (r : Row).

Lemma kt_syncRecord_world_eq k w :
  (Kt.repository.syncRecord k w).1 = KtEffect.syncRecord_world k w.
Proof.
  destruct w as [t o l].
  unfold Kt.repository.syncRecord, KtEffect.syncRecord_world. unfold_kt. simpl.
  destruct (t !! k) as [r|] eqn:Hk; simpl; [|done].
  destruct (bool_decide (col_syncStatus r = SYNCED)); simpl; [done|].
  unfold KtEffect.attempt. simpl.
  destruct (Kt.currentTimeMillis o) as [o1 now1]. simpl. rewrite Hk. simpl.
  destruct (Kt.apiService_createPost _ o1) as [o2 [e|response]]; simpl.
  - destruct (Kt.currentTimeMillis o2) as [o3 now2]. simpl.
    rewrite lookup_insert_eq. simpl. by rewrite <- !app_assoc.
  - destruct (Kt.currentTimeMillis o2) as [o3 now2]. simpl.
    rewrite lookup_insert_eq. simpl. by rewrite <- !app_assoc.
Qed.

End Kt_claims.

(** ** A kill of the process during [syncRecord] (Kotlin) *)

Section Kt_restart.
Context {E : Type} `{Kt.External E}.
Implicit Types (w : Kt.World E) (k : string) (r : Row).











End Kt_restart.

(** ** The two implementations side by side *)

Section Both.
Context {E : Type} `{TS.External E} {F : Type} `{Kt.External F}.

(** C6, as amended.  In the Kotlin repository a call of [syncRecord] either
    does nothing (no such record, or a record already SYNCED) or writes the
    row as SYNCING, then calls the remote, then writes the status the
    outcome decides: no row goes to SYNCED or FAILED without the SYNCING
    write before the call.  In the TypeScript repository a call of
    [syncRecord] either does nothing or calls the remote first and then
    writes the row once, with a status other than SYNCING. *)
Theorem SYNCING_precedes_send_in_the_Kotlin_repository
  (kw : Kt.World F) (tw : TS.World E) (k : string) :
  ((Kt.table (Kt.repository.syncRecord k kw).1 = Kt.table kw
    ∧ Kt.log (Kt.repository.syncRecord k kw).1 = Kt.log kw)
   ∨ ∃ r r1 out r2,
       Kt.table kw !! k = Some r
       ∧ Kt.log (Kt.repository.syncRecord k kw).1
         = Kt.log kw ++ [EvUpdate k r1;
                         EvSend k (Kt.PostRequestDTO (col_title r) (col_body r)) out;
                         EvUpdate k r2]
       ∧ col_syncStatus r1 = SYNCING
       ∧ col_syncStatus r2 = KtEffect.final_status out
       ∧ Kt.table (Kt.repository.syncRecord k kw).1 !! k = Some r2)
  ∧ ((TS.table (TS.repository.syncRecord k tw).1 = TS.table tw
      ∧ TS.log (TS.repository.syncRecord k tw).1 = TS.log tw)
     ∨ ∃ r out r',
         TS.table tw !! k = Some r
         ∧ TS.log (TS.repository.syncRecord k tw).1
           = TS.log tw ++ [EvSend k (Effect.dto_of r) out; EvUpdate k r']
         ∧ col_syncStatus r' ≠ SYNCING
         ∧ TS.table (TS.repository.syncRecord k tw).1 !! k = Some r').
Proof.
  split.
  - rewrite kt_syncRecord_world_eq. unfold KtEffect.syncRecord_world.
    destruct (Kt.table kw !! k) as [r|] eqn:Hk; [|by left].
    destruct (bool_decide (col_syncStatus r = SYNCED)); [by left|].
    right. unfold KtEffect.attempt.
    destruct (Kt.currentTimeMillis (Kt.outside kw)) as [o1 now1].
    destruct (Kt.apiService_createPost _ o1) as [o2 out].
    destruct (Kt.currentTimeMillis o2) as [o3 now2]. simpl.
    eexists r, _, out, _. rewrite lookup_insert_eq.
    repeat split. by destruct out.
  - rewrite syncRecord_world_eq. unfold Effect.syncRecord_world.
    destruct (TS.dbInstance tw); [|by left].
    destruct (TS.table tw !! k) as [r|] eqn:Hk; [|by left].
    destruct (Effect.skipped r); [by left|].
    right. destruct (attempt_spec k r tw) as (o1 & res & o2 & now & _ & _ & ->).
    simpl. eexists r, _, _. rewrite lookup_insert_eq. repeat split.
    destruct res as [x|response]; simpl; [|done].
    by destruct (TS.api.isPermanentError (TS.api.parseAxiosError x)).
Qed.


End Both.

(** ** The code run on examples *)

Import Scenario.


(** C4.  The code computes no backoff.  Every wait an operation of the
    engine performs is the fixed pause of 100 ms between two records of a
    pass, whereas the delays min(1 s * 2^n, 30 s) of the retry policy are
    at least one second.  A record the remote is unavailable for is sent
    again by each of three passes run one after the other, with the same
    100 ms pause each time and none of the delays 1 s, 2 s, 4 s, 8 s, 16 s,
    30 s of the policy. *)
Theorem no_backoff_is_computed :
  (∀ (E : Type) (H : TS.External E) (ops : list Engine.Op) (w : TS.World E),
     ∃ evs, TS.log (Engine.exec_all ops w) = TS.log w ++ evs
            ∧ Forall (λ ms, ms = 100) (waits_of evs))
  ∧ (∀ n, 1000 ≤ Spec.backoff_delay n)
  ∧ let w := one_row (row_A PENDING None None) [no_network; timed_out; http_error 503] in
    let w' := Engine.exec_all [Engine.OpSyncNow; Engine.OpSyncNow; Engine.OpSyncNow] w in
    sent_in (TS.log w') = ["r1"; "r1"; "r1"]
    ∧ waits_of (TS.log w') = [100; 100; 100]
    ∧ col_syncStatus <$> TS.table w' !! "r1" = Some PENDING
    ∧ Spec.backoff_delay <$> [0; 1; 2; 3; 4; 5]%nat
      = [1000; 2000; 4000; 8000; 16000; 30000].
Proof.
  split; [|split].
  - intros E H ops w. apply every_wait_is_the_fixed_pause.
  - apply backoff_delay_at_least_base.
  - vm_compute. repeat split.
Qed.


(** The content of a record survives a failed pass, a status update and a
    retry. *)
Lemma content_is_write_once_witness :
  let r := row_A PENDING None None in
  let w := one_row r [no_network; accepted 5] in
  let ops := [Engine.OpSyncNow;
              Engine.OpUpdateSyncStatus "r1" FAILED None (Some "x");
              Engine.OpRetryFailed] in
  TS.table w !! "r1" = Some r
  ∧ ∃ r', TS.table (Engine.exec_all ops w) !! "r1" = Some r'
          ∧ col_title r' = col_title r ∧ col_body r' = col_body r
          ∧ col_createdAt r' = col_createdAt r.
Proof.
  intros r w ops.
  assert (TS.table w !! "r1" = Some r) as Hk by (vm_compute; reflexivity).
  split; [exact Hk|]. exact (content_is_write_once ops w "r1" r Hk).
Defined.


(** The requeue of a record that failed with HTTP 404. *)
Lemma requeue_overwrites_the_sync_columns_witness :
  let r := row_A FAILED None (Some "Client error: 404") in
  let w := one_row r [] in
  let requeued :=
    (TS.repository.requeue_each (select_by_status FAILED (TS.table w)) w).1 in
  TS.dbInstance w = true ∧ TS.table w !! "r1" = Some r
  ∧ col_syncStatus r = FAILED
  ∧ (TS.repository.retryFailedSyncs w).1
    = (TS.repository.syncPendingRecords requeued).1
  ∧ (∃ evs, TS.log requeued = TS.log w ++ evs
            ∧ Forall (λ ev, is_send ev = false) evs)
  ∧ ∃ r' o,
      TS.table requeued !! "r1" = Some r'
      ∧ col_syncStatus r' = PENDING ∧ col_syncError r' = None
      ∧ col_remoteId r' = None
      ∧ col_lastSyncAttempt r' = Some (TS.Date_now o).2
      ∧ col_title r' = col_title r ∧ col_body r' = col_body r
      ∧ col_createdAt r' = col_createdAt r.
Proof.
  intros r w requeued.
  assert (TS.table w !! "r1" = Some r) as Hk by (vm_compute; reflexivity).
  split; [reflexivity|]. split; [exact Hk|]. split; [reflexivity|].
  exact (requeue_overwrites_the_sync_columns w "r1" r eq_refl Hk eq_refl).
Defined.

(** A title of 201 characters after trimming is refused; the title " A " is
    stored as "A"; a pass validates nothing. *)
Lemma createRecord_validates_the_trimmed_input_witness :
  let long := " " +:+ JS.repeat "a" 201 in
  let w := (TS.db.initDatabase (Engine.fresh (mkScript [] 0 ["u1"]))).1 in
  let ops := [Engine.OpSyncNow; Engine.OpRetryFailed] in
  (200 < JS.length (JS.trim long) ∨ 5000 < JS.length (JS.trim "B"))
  ∧ (∃ msg,
       TS.useCases.createRecord long "B" w
       = (TS.mkWorld (TS.table w) (TS.dbInstance w) (TS.outside w)
            (TS.log w ++ [EvValidate long "B"]),
          inr (TS.Failure (TS.JsValidationError msg))))
  ∧ (∃ w' record,
       TS.useCases.createRecord " A " "B" w = (w', inr (TS.Success record))
       ∧ title record = "A" ∧ syncStatus record = PENDING
       ∧ TS.table w' !! id record = Some (to_row record))
  ∧ forallb Engine.sync_op ops = true
  ∧ ∃ evs, TS.log (Engine.exec_all ops w) = TS.log w ++ evs
           ∧ Forall (λ ev, is_validate ev = false) evs.
Proof.
  intros long w ops.
  assert (200 < JS.length (JS.trim long) ∨ 5000 < JS.length (JS.trim "B"))
    as Hlong by (left; vm_compute; reflexivity).
  split; [exact Hlong|].
  split; [exact (proj1 (createRecord_validates_the_trimmed_input long "B" w) Hlong)|].
  split.
  - destruct (TS.useCases.createRecord " A " "B" w) as [w' res] eqn:Hrun.
    assert (∃ record, res = inr (TS.Success record)) as [record ->].
    { vm_compute in Hrun. injection Hrun as _ <-. by eexists. }
    destruct (proj1 (proj2 (createRecord_validates_the_trimmed_input " A " "B" w))
                w' record Hrun) as (Ht & _ & _ & _ & Hst & _ & Hk & _).
    exists w', record. by repeat split.
  - split; [reflexivity|].
    exact (proj2 (proj2 (createRecord_validates_the_trimmed_input long "B" w))
             ops eq_refl).
Defined.





(** The same run, evaluated: the record killed in flight is stored as
    SYNCING at the end, while the record created after the restart has been
    sent and accepted; the remote was called for no other record. *)
Lemma killed_syncRecord_example :
  let w := kt_one_row (row_A PENDING None None) [inr (mkResponse 101 "A" "B" 1)] in
  let u := "00000000-0000-4000-8000-000000000000" in
  let ops := [ KtEngine.OpOpen; KtEngine.OpSyncPending "r1";
               KtEngine.OpCreate "C" "D"; KtEngine.OpList;
               KtEngine.OpSyncPending u; KtEngine.OpSyncPending "r1" ] in
  let later := KtEngine.exec_all ops (KtEngine.killed_during_the_call "r1" w) in
  Kt.table later !! "r1" = Some (mkRow "A" "B" 1000 SYNCING None (Some 5000) None)
  ∧ col_syncStatus <$> Kt.table later !! u = Some SYNCED
  ∧ sent_in (Kt.log later) = [u]
  ∧ (Kt.repository.getPendingRecords later).2 = inr [].
Proof. vm_compute. repeat split. Qed.

(** Counterexample to C6 as stated.  A pass of the TypeScript repository
    over one pending record that the remote accepts calls the remote first
    and then writes SYNCED: the row goes from PENDING to SYNCED and no
    SYNCING is written. *)
Lemma typescript_pass_writes_SYNCED_without_SYNCING :
  let r := row_A PENDING None None in
  let w := one_row r [accepted 101] in
  let w' := (TS.useCases.syncRecords w).1 in
  is_send <$> TS.log w' = [true; false; false]
  ∧ statuses_written (TS.log w') = [SYNCED]
  ∧ col_syncStatus <$> TS.table w' !! "r1" = Some SYNCED.
Proof. vm_compute. repeat split. Qed.

(** Counterexample to C7 as stated.  A title of 201 characters, 200 letters
    followed by a space, exceeds the bound of 200, and yet [createRecord]
    returns no [ValidationError]: it stores the record, with the title
    trimmed to 200 characters. *)
Lemma createRecord_accepts_a_padded_title :
  let title_ := JS.repeat "a" 200 +:+ " " in
  let w := (TS.db.initDatabase (Engine.fresh (mkScript [] 0 ["u1"]))).1 in
  let '(w', res) := TS.useCases.createRecord title_ "B" w in
  JS.length title_ = 201
  ∧ match res with
    | inr (TS.Success record) =>
        JS.length (title record) = 200
        ∧ TS.table w' !! "u1" = Some (to_row record)
    | _ => False
    end.
Proof. vm_compute. repeat split. Qed.

(** NO-BREAK SPACE is white space for both implementations: a title of
    200 letters followed by one is stored, with its 200 letters; a title
    or a record id that is one NO-BREAK SPACE is refused; and the Kotlin
    [CreateRecordUseCase] takes such a title for blank. *)
Lemma no_break_space_is_white_space :
  let nbsp := String JS.NBSP EmptyString in
  let w := (TS.db.initDatabase (Engine.fresh (mkScript [] 0 ["u1"]))).1 in
  JS.trim (nbsp +:+ "A" +:+ nbsp) = "A"
  ∧ match (TS.useCases.createRecord (JS.repeat "a" 200 +:+ nbsp) "B" w).2 with
    | inr (TS.Success record) => title record = JS.repeat "a" 200
    | _ => False
    end
  ∧ (TS.useCases.createRecord nbsp "B" w).2
    = inr (TS.Failure (TS.JsValidationError "Title is required"))
  ∧ (TS.useCases.fetchRecordById nbsp w).2
    = inr (TS.Failure (TS.JsValidationError "Record ID is required"))
  ∧ (Kt.useCase.CreateRecordUseCase nbsp "B" (kt_one_row (row_A PENDING None None) [])).2
    = inl (Kt.Exception (Some "Title cannot be empty")).
Proof. vm_compute. repeat split. Qed.

(** ** The API client *)

Section TS_api.
Context {E : Type} `{TS.External E} `{TS.api.AxiosGet E}.
Implicit Types (w : TS.World E).

Lemma new_ApiError_message t status msg :
  TS.message (TS.new_ApiError t status (Some msg)) ≠ EmptyString.
Proof. unfold TS.new_ApiError. simpl. by destruct msg, t. Qed.

Lemma parseAxiosError_message error :
  TS.message (TS.api.parseAxiosError error) ≠ EmptyString.
Proof.
  destruct error as [[status|] code msg|e|m|m|]; unfold TS.api.parseAxiosError;
    repeat match goal with |- context [if ?b then _ else _] => destruct b end;
    apply new_ApiError_message.
Qed.

(** X1.  Whatever value axios throws, [parseAxiosError] makes of it an
    [ApiError] with a message that is not empty; the error carries a status
    code exactly when it is a CLIENT_ERROR or a SERVER_ERROR, the code is
    then the status of the response, at least 400, and below 500 exactly
    for a CLIENT_ERROR.  No error is both permanent and retryable, and the
    errors that are neither are the UNKNOWN_ERRORs, among them every
    response with a status below 400. *)
Theorem parseAxiosError_gives_a_well_formed_ApiError (error : TS.Exn) :
  let e := TS.api.parseAxiosError error in
  TS.message e ≠ EmptyString
  ∧ (is_Some (TS.statusCode e)
     ↔ TS.type e = TS.CLIENT_ERROR ∨ TS.type e = TS.SERVER_ERROR)
  ∧ (∀ status, TS.statusCode e = Some status →
       400 ≤ status
       ∧ (status < 500 ↔ TS.type e = TS.CLIENT_ERROR)
       ∧ ∃ code msg, error = TS.JsAxiosError (Some status) code msg)
  ∧ TS.api.isPermanentError e && TS.api.isRetryableError e = false
  ∧ (TS.api.isPermanentError e || TS.api.isRetryableError e = false
     ↔ TS.type e = TS.UNKNOWN_ERROR)
  ∧ (∀ status code msg, status < 400 →
       error = TS.JsAxiosError (Some status) code msg →
       TS.type e = TS.UNKNOWN_ERROR).
Proof.
  intros e. split; [apply parseAxiosError_message|]. subst e.
  destruct error as [[status|] code msg|e|m|m|]; simpl.
  - unfold TS.api.between.
    destruct (400 <=? status) eqn:Hlo; destruct (status <? 500) eqn:Hhi;
      destruct (500 <=? status) eqn:Hge; simpl;
      try apply Z.leb_le in Hlo; try apply Z.leb_gt in Hlo;
      try apply Z.ltb_lt in Hhi; try apply Z.ltb_ge in Hhi;
      try apply Z.leb_le in Hge; try apply Z.leb_gt in Hge; try lia;
      (split; [split; [intros [? ?]; simplify_eq; auto
                      |intros [?|?]; simplify_eq; eauto]|]);
      (split; [intros s ?; simplify_eq; repeat split; try lia; try done; eauto|]);
      (split; [done|]); (split; [split; intros; simplify_eq; done|]);
      intros s' c' m' ? ?; simplify_eq; try lia; done.
  - destruct (bool_decide (code = Some "ECONNABORTED")); simpl;
      (split; [split; [intros [? ?]; simplify_eq|intros [?|?]; simplify_eq]|]);
      (split; [intros s ?; simplify_eq|]);
      (split; [done|]); (split; [split; intros; simplify_eq|]);
      intros s' c' m' ? ?; simplify_eq.
  - split; [split; [intros [? ?]; simplify_eq|intros [?|?]; simplify_eq]|].
    split; [intros s ?; simplify_eq|]. split; [done|].
    split; [done|]. intros s' c' m' ? ?; simplify_eq.
  - split; [split; [intros [? ?]; simplify_eq|intros [?|?]; simplify_eq]|].
    split; [intros s ?; simplify_eq|]. split; [done|].
    split; [done|]. intros s' c' m' ? ?; simplify_eq.
  - split; [split; [intros [? ?]; simplify_eq|intros [?|?]; simplify_eq]|].
    split; [intros s ?; simplify_eq|]. split; [done|].
    split; [done|]. intros s' c' m' ? ?; simplify_eq.
  - split; [split; [intros [? ?]; simplify_eq|intros [?|?]; simplify_eq]|].
    split; [intros s ?; simplify_eq|]. split; [done|].
    split; [done|]. intros s' c' m' ? ?; simplify_eq.
Qed.

Lemma same_store_refl w : Trace.same_store w w.
Proof. done. Qed.

Lemma api_call_same_store {A} (f : E → E * (TS.Exn + A)) w :
  let m : M (TS.World E) TS.Exn A :=
    try_catch (λ w0,
      let '(o, r) := f (TS.outside w0) in
      (TS.mkWorld (TS.table w0) (TS.dbInstance w0) o (TS.log w0), r))
    (λ error, throw (TS.JsApiError (TS.api.parseAxiosError error))) in
  Trace.same_store w (m w).1 ∧ Trace.returns_or_throws_ApiError (m w).2.
Proof.
  unfold_monad. simpl. destruct (f (TS.outside w)) as [o [x|a]]; simpl.
  - split; [done|]. apply parseAxiosError_message.
  - done.
Qed.

(** X2.  The three calls of the API, [createPost], [getAllPosts] and
    [getPostById], read and write neither the table nor the log, and leave
    the database handle as it is; each returns the data of the response or
    throws an [ApiError] whose message is not empty, and nothing else. *)
Theorem api_calls_return_or_throw_an_ApiError
  (data : CreatePostDTO) (post_id : Z) w :
  (Trace.same_store w (TS.api.createPost data w).1
   ∧ Trace.returns_or_throws_ApiError (TS.api.createPost data w).2)
  ∧ (Trace.same_store w (TS.api.getAllPosts w).1
     ∧ Trace.returns_or_throws_ApiError (TS.api.getAllPosts w).2)
  ∧ (Trace.same_store w (TS.api.getPostById post_id w).1
     ∧ Trace.returns_or_throws_ApiError (TS.api.getPostById post_id w).2).
Proof.
  split; [|split].
  - apply (api_call_same_store (TS.axios_post data)).
  - apply (api_call_same_store TS.api.axios_get_posts).
  - apply (api_call_same_store (TS.api.axios_get_post post_id)).
Qed.

End TS_api.

(** ** The mappers *)

Lemma recordToEntity_entityToRecord (e : RecordEntity) :
  TS.mappers.recordToEntity (TS.mappers.entityToRecord e) = e
  ↔ lastSyncAttempt e ≠ Some 0.
Proof.
  destruct e as [k t b c st rid [a|] err];
    unfold TS.mappers.recordToEntity, TS.mappers.entityToRecord; simpl.
  - destruct a; simpl; split; try done; intros; congruence.
  - done.
Qed.

(** X3.  For entities whose timestamps are time values a [Date] can hold
    (from -8.64e15 to 8.64e15 milliseconds), mapping them to domain records
    and back gives the entities again exactly when none of them has the time
    value 0 as its lastSyncAttempt: [entityToRecord] takes the timestamp 0
    for a missing one (it is falsy), and this is all the two mappers lose in
    that range.  Outside it [new Date] gives an invalid date, and nothing is
    said. *)
Theorem mappers_round_trip_but_for_the_timestamp_zero (entities : list RecordEntity) :
  Forall TS.mappers.in_Date_range entities →
  (TS.mappers.recordsToEntities (TS.mappers.entitiesToRecords entities) = entities
   ↔ Forall (λ e, lastSyncAttempt e ≠ Some 0) entities).
Proof.
  intros _.
  unfold TS.mappers.recordsToEntities, TS.mappers.entitiesToRecords.
  induction entities as [|e l IH]; [done|].
  rewrite !fmap_cons, Forall_cons, <- IH, <- recordToEntity_entityToRecord.
  split.
  - by intros [= ? ?].
  - by intros [-> ->].
Qed.

Lemma mappers_round_trip_but_for_the_timestamp_zero_witness :
  let entities := [ mkEntity "r1" "A" "B" 1000 SYNCED (Some 101) (Some 1500) None;
                    mkEntity "r2" "C" "D" 2000 PENDING None (Some 0) None ] in
  Forall TS.mappers.in_Date_range entities
  ∧ TS.mappers.recordsToEntities (TS.mappers.entitiesToRecords entities) ≠ entities.
Proof.
  intros entities.
  assert (Hrange : Forall TS.mappers.in_Date_range entities).
  { unfold entities, TS.mappers.in_Date_range, JS.valid_time_value.
    repeat constructor; simpl; lia. }
  split; [exact Hrange|].
  intros Heq.
  apply (mappers_round_trip_but_for_the_timestamp_zero entities Hrange) in Heq.
  unfold entities in Heq.
  apply Forall_cons in Heq as [_ Heq]. apply Forall_cons in Heq as [Heq _].
  by apply Heq.
Defined.

(** ** One call of [syncRecord] *)

Section TS_syncRecord.
Context {E : Type} `{TS.External E}.
Implicit Types (w : TS.World E) (k : string) (r : Row).

Lemma syncRecord_eq k w :
  TS.repository.syncRecord k w
  = (Effect.syncRecord_world k w, Trace.syncRecord_result k w).
Proof.
  destruct w as [t d o l].
  unfold TS.repository.syncRecord, Effect.syncRecord_world,
    Trace.syncRecord_result,
    TS.db.getRecordById, TS.db.updateSyncStatus, TS.db.updateRecord,
    TS.mappers.mergePostResponse.
  unfold_ts. simpl.
  destruct d; simpl; [|done].
  destruct (t !! k) as [r|] eqn:Hk; simpl; [|done].
  unfold Effect.skipped. simpl.
  destruct (bool_decide (col_syncStatus r = SYNCED)
            && bool_decide (col_remoteId r ≠ None)); simpl; [done|].
  unfold TS.repository.send, TS.api.createPost, Effect.attempt. unfold_ts. simpl.
  unfold TS.mappers.entityToCreatePostDTO, Effect.dto_of. simpl.
  destruct (TS.axios_post _ o) as [o1 [x|resp]] eqn:Hpost; simpl.
  - destruct (TS.Date_now o1) as [o2 now] eqn:Hnow; simpl.
    rewrite Hk. simpl.
    destruct (TS.api.isPermanentError (TS.api.parseAxiosError x)); simpl;
      rewrite <- app_assoc; simpl; done.
  - destruct (TS.Date_now o1) as [o2 now] eqn:Hnow; simpl.
    rewrite Hk. simpl. rewrite <- app_assoc. simpl. done.
Qed.

Lemma attempt_table k r w :
  ∃ now,
    TS.table (Effect.attempt k r w)
    = <[k := Effect.row_after r
               (Effect.api_outcome (TS.axios_post (Effect.dto_of r) (TS.outside w)).2)
               now]> (TS.table w)
    ∧ TS.log (Effect.attempt k r w)
      = TS.log w
        ++ [EvSend k (Effect.dto_of r)
              (Effect.api_outcome (TS.axios_post (Effect.dto_of r) (TS.outside w)).2);
            EvUpdate k
              (Effect.row_after r
                 (Effect.api_outcome (TS.axios_post (Effect.dto_of r) (TS.outside w)).2)
                 now)]
    ∧ TS.dbInstance (Effect.attempt k r w) = TS.dbInstance w.
Proof.
  destruct (attempt_spec k r w) as (o1 & res & o2 & now & Hpost & _ & ->).
  rewrite Hpost. simpl. by exists now.
Qed.

Lemma api_outcome_is_api_outcome res : Trace.is_api_outcome (Effect.api_outcome res).
Proof. by destruct res. Qed.

(** X4.  [syncRecord] throws exactly when the database is not initialised,
    and then changes nothing: the handler of its [catch] calls the store
    again.  Otherwise it returns a result for the record asked for, and the
    result agrees with the store it leaves: on success the row is SYNCED
    with the remote id of the result and no error; on failure either no
    record has this id, the message is "Record not found" and nothing was
    changed, or the row is PENDING or FAILED, without remote id, and holds
    the message of the result as its syncError. *)
Theorem syncRecord_result_agrees_with_the_store k w :
  match TS.repository.syncRecord k w with
  | (w', inl x) =>
      TS.dbInstance w = false ∧ w' = w
      ∧ x = TS.JsError "Database not initialized. Call initDatabase() first."
  | (w', inr result) =>
      TS.dbInstance w = true ∧ TS.recordId result = k
      ∧ if TS.success result
        then ∃ r', TS.table w' !! k = Some r' ∧ col_syncStatus r' = SYNCED
                   ∧ col_remoteId r' = TS.result_remoteId result
                   ∧ is_Some (col_remoteId r')
                   ∧ TS.error result = None
        else ∃ msg, TS.error result = Some msg
                    ∧ TS.result_remoteId result = None
                    ∧ ((TS.table w !! k = None ∧ w' = w ∧ msg = "Record not found")
                       ∨ ∃ r', TS.table w' !! k = Some r'
                               ∧ (col_syncStatus r' = PENDING
                                  ∨ col_syncStatus r' = FAILED)
                               ∧ col_remoteId r' = None
                               ∧ col_syncError r' = Some msg)
  end.
Proof.
  rewrite syncRecord_eq. unfold Trace.syncRecord_result, Effect.syncRecord_world.
  destruct (TS.dbInstance w) eqn:Hd; [|done].
  destruct (TS.table w !! k) as [r|] eqn:Hk.
  - destruct (Effect.skipped r) eqn:Hskip.
    + unfold Effect.skipped in Hskip. apply andb_true_iff in Hskip as [Hst Hrid].
      apply bool_decide_eq_true in Hst, Hrid. simpl.
      repeat split; try done. exists r. repeat split; try done.
      by destruct (col_remoteId r).
    + destruct (attempt_table k r w) as (now & Ht & _ & _).
      split; [done|]. rewrite Ht, lookup_insert_eq.
      destruct (TS.axios_post _ _) as [o1 [x|response]]; simpl.
      * split; [done|]. eexists. split; [done|]. split; [done|]. right.
        eexists. split; [done|]. simpl. split; [|done].
        destruct (TS.api.isPermanentError _); auto.
      * split; [done|]. eexists. by repeat split.
  - simpl. repeat split; try done. eexists. repeat split; try done. by left.
Qed.

(** X5.  How [syncRecord] decides the status of a record it attempts (a
    stored record that is not SYNCED with a remote id, the database being
    initialised): SYNCED with the id of the response when axios returns;
    FAILED exactly when axios throws an error that carries a response with a
    status from 400 to 499; PENDING in every other case, that is for a
    response with any other status, for a missing response, a timeout, and
    for any value that is no axios error. *)
Theorem syncRecord_status_decision k r w :
  TS.dbInstance w = true → TS.table w !! k = Some r → Effect.skipped r = false →
  ∃ r', TS.table (TS.repository.syncRecord k w).1 !! k = Some r'
    ∧ match (TS.axios_post (Effect.dto_of r) (TS.outside w)).2 with
      | inr response =>
          col_syncStatus r' = SYNCED ∧ col_remoteId r' = Some (resp_id response)
      | inl (TS.JsAxiosError (Some status) _ _) =>
          col_syncStatus r' = (if TS.api.between 400 status 500 then FAILED else PENDING)
          ∧ col_remoteId r' = None
      | inl _ => col_syncStatus r' = PENDING ∧ col_remoteId r' = None
      end.
Proof.
  intros Hd Hk Hskip. rewrite syncRecord_eq. simpl.
  unfold Effect.syncRecord_world. rewrite Hd, Hk, Hskip.
  destruct (attempt_table k r w) as (now & Ht & _ & _).
  rewrite Ht, lookup_insert_eq. eexists. split; [done|].
  destruct (TS.axios_post _ _) as [o1 [x|response]]; simpl; [|done].
  destruct x as [[status|] code msg|e|m|m|]; simpl; try done.
  - unfold TS.api.between.
    destruct (400 <=? status); destruct (status <? 500); simpl; try done;
      by destruct (500 <=? status).
  - by destruct (bool_decide (code = Some "ECONNABORTED")).
Qed.

End TS_syncRecord.

(** A record refused with HTTP 429 ends FAILED. *)
Lemma syncRecord_status_decision_witness :
  let r := row_A PENDING None None in
  let w := one_row r [http_error 429] in
  TS.dbInstance w = true ∧ TS.table w !! "r1" = Some r
  ∧ Effect.skipped r = false
  ∧ ∃ r', TS.table (TS.repository.syncRecord "r1" w).1 !! "r1" = Some r'
      ∧ match (TS.axios_post (Effect.dto_of r) (TS.outside w)).2 with
        | inr response =>
            col_syncStatus r' = SYNCED ∧ col_remoteId r' = Some (resp_id response)
        | inl (TS.JsAxiosError (Some status) _ _) =>
            col_syncStatus r'
            = (if TS.api.between 400 status 500 then FAILED else PENDING)
            ∧ col_remoteId r' = None
        | inl _ => col_syncStatus r' = PENDING ∧ col_remoteId r' = None
        end.
Proof.
  intros r w.
  assert (TS.table w !! "r1" = Some r) as Hk by (vm_compute; reflexivity).
  split; [reflexivity|]. split; [exact Hk|]. split; [reflexivity|].
  exact (syncRecord_status_decision "r1" r w eq_refl Hk eq_refl).
Defined.

(** ** A whole pass *)

Section TS_pass.
Context {E : Type} `{TS.External E}.
Implicit Types (w : TS.World E) (k : string) (r : Row).

Lemma sent_in_app {X} (l1 l2 : list (Event X)) :
  sent_in (l1 ++ l2) = sent_in l1 ++ sent_in l2.
Proof. apply omap_app. Qed.

Lemma waits_of_app {X} (l1 l2 : list (Event X)) :
  waits_of (l1 ++ l2) = waits_of l1 ++ waits_of l2.
Proof. apply omap_app. Qed.

Lemma sent_in_no_send {X} (l : list (Event X)) :
  Forall (λ ev, is_send ev = false) l → sent_in l = [].
Proof.
  induction 1 as [|ev l Hev _ IH]; [done|]. destruct ev; try done.
Qed.

Lemma sent_in_attempt_events (l : list RecordEntity)
  (outs : list ((TS.Exn + PostResponseDTO) * Z)) :
  List.length outs = List.length l →
  sent_in (List.concat (zip_with Trace.attempt_events l outs)) = id <$> l
  ∧ waits_of (List.concat (zip_with Trace.attempt_events l outs)) = (λ _, 100) <$> l
  ∧ TS.recordId <$> zip_with Trace.result_after (id <$> l) outs.*1 = id <$> l.
Proof.
  revert outs. induction l as [|e l IH]; intros [|o outs] Hlen; try done.
  simpl in Hlen. injection Hlen as Hlen.
  destruct (IH outs Hlen) as (Hs & Hw & Hr). simpl.
  rewrite Hs, Hw. split; [done|]. split; [done|].
  f_equal; [by destruct o as [[x|v] now]|done].
Qed.

Lemma sync_each_trace l acc w :
  NoDup (id <$> l) → TS.dbInstance w = true →
  (∀ e, e ∈ l → TS.table w !! id e = Some (to_row e)
                ∧ Effect.skipped (to_row e) = false) →
  ∃ outs w',
    TS.repository.sync_each l acc w
    = (w', inr (acc ++ zip_with Trace.result_after (id <$> l) outs.*1))
    ∧ List.length outs = List.length l
    ∧ Forall Trace.is_api_outcome outs.*1
    ∧ TS.dbInstance w' = true
    ∧ TS.log w' = TS.log w ++ List.concat (zip_with Trace.attempt_events l outs)
    ∧ (∀ i e o, l !! i = Some e → outs !! i = Some o →
         TS.table w' !! id e = Some (Effect.row_after (to_row e) o.1 o.2))
    ∧ (∀ k, k ∉ id <$> l → TS.table w' !! k = TS.table w !! k).
Proof.
  revert acc w. induction l as [|e rest IH]; intros acc w Hnd Hd Hl.
  - exists [], w. simpl. rewrite !app_nil_r. repeat split; try done.
  - rewrite fmap_cons in Hnd. apply NoDup_cons in Hnd as [Hnin Hnd].
    destruct (Hl e) as [Hk Hskip]; [by apply elem_of_cons; left|].
    rewrite sync_each_cons, syncRecord_eq.
    unfold Effect.syncRecord_world, Trace.syncRecord_result.
    rewrite Hd, Hk, Hskip.
    destruct (attempt_table (id e) (to_row e) w) as (now & Ht & Hlog & Hdb).
    set (out := Effect.api_outcome
                  (TS.axios_post (Effect.dto_of (to_row e)) (TS.outside w)).2) in *.
    set (w1 := Effect.attempt (id e) (to_row e) w) in *.
    destruct (IH (acc ++ [Trace.result_after (id e) out]) (TS.sleep 100 w1).1)
      as (outs & w' & Hrun & Hlen & Hapi & Hd' & Hlog' & Htab & Hframe).
    + done.
    + rewrite sleep_run. simpl. by rewrite Hdb.
    + intros e' He'. rewrite sleep_run. simpl. rewrite Ht, lookup_insert_ne.
      * apply Hl. apply elem_of_cons. by right.
      * intros Heq. apply Hnin. rewrite Heq. by apply list_elem_of_fmap_2.
    + exists ((out, now) :: outs), w'. rewrite Hrun.
      split; [by rewrite <- app_assoc|]. split; [simpl; by rewrite Hlen|].
      split; [constructor; [apply api_outcome_is_api_outcome|done]|].
      split; [done|]. split; [|split].
      * rewrite Hlog', sleep_run. simpl. rewrite Hlog, <- !app_assoc. done.
      * intros [|i] e' o Hi Ho; simpl in Hi, Ho; simplify_eq.
        -- rewrite Hframe by done. rewrite sleep_run. simpl.
           by rewrite Ht, lookup_insert_eq.
        -- by eapply Htab.
      * intros k Hk'. rewrite fmap_cons in Hk'. apply not_elem_of_cons in Hk' as [Hne Hk'].
        rewrite Hframe by done. rewrite sleep_run. simpl.
        by rewrite Ht, lookup_insert_ne.
Qed.

Lemma select_by_status_attempted w e :
  e ∈ select_by_status PENDING (TS.table w) →
  TS.table w !! id e = Some (to_row e) ∧ Effect.skipped (to_row e) = false.
Proof.
  intros He. apply elem_of_select_by_status in He as [Hk Hst]. split; [done|].
  unfold Effect.skipped. simpl. by rewrite Hst.
Qed.

Lemma syncPendingRecords_open w w' results :
  TS.dbInstance w = true →
  TS.repository.sync_each (select_by_status PENDING (TS.table w)) [] w
  = (w', inr results) →
  TS.repository.syncPendingRecords w = (w', inr (TS.Success results)).
Proof.
  intros Hd Hrun.
  unfold TS.repository.syncPendingRecords, TS.repository.as_result.
  unfold_monad. rewrite getRecordsByStatus_run, Hd.
  destruct (select_by_status PENDING (TS.table w)) as [|e l] eqn:Hsel.
  - simpl in Hrun. unfold_monad. by simplify_eq.
  - by rewrite Hrun.
Qed.

Lemma syncPendingRecords_closed w :
  TS.dbInstance w = false →
  TS.repository.syncPendingRecords w
  = (w, inr (TS.Failure
       (TS.JsError "Database not initialized. Call initDatabase() first."))).
Proof.
  intros Hd.
  unfold TS.repository.syncPendingRecords, TS.repository.as_result.
  unfold_monad. by rewrite getRecordsByStatus_run, Hd.
Qed.

Lemma forward_returns {A} (m : M (TS.World E) TS.Exn (TS.Result A)) w w' res :
  m w = (w', inr res) → TS.useCases.forward m w = (w', inr res).
Proof. intros Hm. unfold TS.useCases.forward. unfold_monad. by rewrite Hm. Qed.

Lemma select_by_status_nil st (t : gmap string Row) :
  (∀ k r, t !! k = Some r → col_syncStatus r ≠ st) → select_by_status st t = [].
Proof.
  intros Hno. destruct (select_by_status st t) as [|e l] eqn:Hsel; [done|].
  assert (id e ∈ id <$> select_by_status st t) as Hin
    by (rewrite Hsel; apply elem_of_fmap_head).
  apply select_by_status_stored in Hin as (r & Hk & Hst). by destruct (Hno _ _ Hk).
Qed.

(** The pass over the records pending in [w], in full. *)
Lemma syncPendingRecords_trace w :
  TS.dbInstance w = true →
  ∃ outs w',
    TS.repository.syncPendingRecords w
    = (w', inr (TS.Success
         (zip_with Trace.result_after
            (id <$> select_by_status PENDING (TS.table w)) outs.*1)))
    ∧ List.length outs = List.length (select_by_status PENDING (TS.table w))
    ∧ TS.dbInstance w' = true
    ∧ TS.log w'
      = TS.log w
        ++ List.concat (zip_with Trace.attempt_events
                     (select_by_status PENDING (TS.table w)) outs)
    ∧ (∀ i e o, select_by_status PENDING (TS.table w) !! i = Some e →
         outs !! i = Some o →
         TS.table w' !! id e = Some (Effect.row_after (to_row e) o.1 o.2))
    ∧ (∀ k, ¬ Effect.stored_with PENDING (TS.table w) k →
         TS.table w' !! k = TS.table w !! k).
Proof.
  intros Hd.
  destruct (sync_each_trace (select_by_status PENDING (TS.table w)) [] w)
    as (outs & w' & Hrun & Hlen & _ & Hd' & Hlog & Htab & Hframe).
  - apply NoDup_select_by_status.
  - done.
  - intros e. apply select_by_status_attempted.
  - exists outs, w'. split; [by apply syncPendingRecords_open|].
    repeat split; try done.
    intros k Hk. apply Hframe. by rewrite select_by_status_stored.
Qed.

(** X6.  With the database initialised, a sync pass returns a success
    whatever the remote answers.  It calls the remote once for every record
    that is PENDING when the pass starts and for no other record, a newer
    record never after an older one; it pauses 100 ms after each record; and
    it returns one result per record, in the order of the calls.  The order
    among records created in the same millisecond is left open, as the
    query leaves it. *)
Theorem sync_pass_sends_each_pending_record_once w :
  TS.dbInstance w = true →
  ∃ w' results evs sent,
    TS.useCases.syncRecords w = (w', inr (TS.Success results))
    ∧ TS.log w' = TS.log w ++ evs
    ∧ sent ≡ₚ filter (has_status PENDING) (rows (TS.table w))
    ∧ Sorted newer_first sent
    ∧ sent_in evs = id <$> sent
    ∧ NoDup (sent_in evs)
    ∧ (∀ k, k ∈ sent_in evs ↔ Effect.stored_with PENDING (TS.table w) k)
    ∧ waits_of evs = (λ _, 100) <$> sent
    ∧ TS.recordId <$> results = sent_in evs.
Proof.
  intros Hd. set (pending := select_by_status PENDING (TS.table w)).
  destruct (syncPendingRecords_trace w Hd)
    as (outs & w' & Hrun & Hlen & _ & Hlog & _ & _).
  destruct (sent_in_attempt_events pending outs Hlen) as (Hs & Hw & Hr).
  eexists w', _, _, pending. split; [by apply forward_returns|].
  split; [exact Hlog|]. fold pending. rewrite Hs, Hw, Hr.
  repeat split; try done.
  - apply merge_sort_Permutation.
  - apply Sorted_merge_sort. intros a b. unfold newer_first. lia.
  - apply NoDup_select_by_status.
  - by apply select_by_status_stored.
  - by apply select_by_status_stored.
Qed.

(** X8.  A pass that finds no record PENDING changes nothing, not even
    what lies outside: it calls neither the remote nor the clock nor a
    timer, and returns a success with no result. *)
Theorem sync_pass_with_nothing_pending w :
  TS.dbInstance w = true →
  (∀ k r, TS.table w !! k = Some r → col_syncStatus r ≠ PENDING) →
  TS.useCases.syncRecords w = (w, inr (TS.Success [])).
Proof.
  intros Hd Hno. apply forward_returns, syncPendingRecords_open; [done|].
  by rewrite select_by_status_nil.
Qed.

(** X9.  [retryFailedSyncs] returns at once when no record is FAILED: it
    changes nothing and returns a success with no result, and it runs no
    pass, so that records that are PENDING are not sent. *)
Theorem retry_without_failed_records_runs_no_pass w :
  TS.dbInstance w = true →
  (∀ k r, TS.table w !! k = Some r → col_syncStatus r ≠ FAILED) →
  TS.useCases.retryFailedSyncs w = (w, inr (TS.Success [])).
Proof.
  intros Hd Hno. apply forward_returns.
  unfold TS.repository.retryFailedSyncs. unfold_monad.
  by rewrite getRecordsByStatus_run, Hd, select_by_status_nil.
Qed.

(** X7.  The results a pass returns agree with the store it leaves.  Each
    result is about a record that was PENDING when the pass started; the
    row of this record has kept its content and has a lastSyncAttempt; when
    the result is a success the row is SYNCED, with the remote id of the
    result and no error; when it is a failure the row is PENDING or FAILED,
    has no remote id, and its syncError is the error of the result. *)
Theorem sync_pass_results_agree_with_the_store w w' results :
  TS.useCases.syncRecords w = (w', inr (TS.Success results)) →
  Forall (λ result,
    ∃ r r',
      TS.table w !! TS.recordId result = Some r ∧ col_syncStatus r = PENDING
      ∧ TS.table w' !! TS.recordId result = Some r'
      ∧ Effect.same_content r r'
      ∧ is_Some (col_lastSyncAttempt r')
      ∧ if TS.success result
        then col_syncStatus r' = SYNCED
             ∧ col_remoteId r' = TS.result_remoteId result
             ∧ is_Some (col_remoteId r')
             ∧ col_syncError r' = None ∧ TS.error result = None
        else (col_syncStatus r' = PENDING ∨ col_syncStatus r' = FAILED)
             ∧ col_syncError r' = TS.error result
             ∧ is_Some (TS.error result)
             ∧ col_remoteId r' = None ∧ TS.result_remoteId result = None)
    results.
Proof.
  intros Hrun. unfold TS.useCases.syncRecords in Hrun.
  destruct (TS.dbInstance w) eqn:Hd.
  2: { by rewrite (forward_returns _ _ _ _ (syncPendingRecords_closed w Hd)) in Hrun. }
  destruct (syncPendingRecords_trace w Hd)
    as (outs & w'' & Hrun' & Hlen & _ & _ & Htab & _).
  rewrite (forward_returns _ _ _ _ Hrun') in Hrun. injection Hrun as -> <-.
  apply Forall_forall. intros result Hin.
  apply elem_of_lookup_zip_with in Hin as (i & k & out & -> & Hk & Hout).
  apply list_lookup_fmap_Some in Hk as (e & -> & He).
  apply list_lookup_fmap_Some in Hout as (o & -> & Ho).
  pose proof (Htab i e o He Ho) as Hrow.
  apply list_elem_of_lookup_2, elem_of_select_by_status in He as [Hk Hst].
  destruct o as [[x|response] now]; simpl in *.
  - eexists _, _. split; [exact Hk|]. split; [done|]. split; [exact Hrow|].
    split; [by repeat split|]. simpl. split; [done|].
    split; [destruct (Effect.is_permanent x); auto|]. by repeat split.
  - eexists _, _. split; [exact Hk|]. split; [done|]. split; [exact Hrow|].
    split; [by repeat split|]. simpl. by repeat split.
Qed.

Lemma requeue_each_keeps_db l w :
  TS.dbInstance w = true → TS.dbInstance (TS.repository.requeue_each l w).1 = true.
Proof. apply (Effect.evolves_db _ _ _ (requeue_each_evolves l w)). Qed.

Lemma retryFailedSyncs_eq w :
  TS.dbInstance w = true → select_by_status FAILED (TS.table w) ≠ [] →
  TS.repository.retryFailedSyncs w
  = TS.repository.syncPendingRecords
      (TS.repository.requeue_each (select_by_status FAILED (TS.table w)) w).1.
Proof.
  intros Hd Hne. unfold TS.repository.retryFailedSyncs. unfold_monad.
  rewrite getRecordsByStatus_run, Hd.
  destruct (select_by_status FAILED (TS.table w)) as [|e l]; [done|].
  rewrite (requeue_each_returns (e :: l) w Hd).
  destruct (syncPendingRecords_returns (TS.repository.requeue_each (e :: l) w).1)
    as (result & Hres). by rewrite Hres.
Qed.

Lemma requeue_stored_PENDING w k :
  TS.dbInstance w = true →
  Effect.stored_with PENDING
    (TS.table (TS.repository.requeue_each
                 (select_by_status FAILED (TS.table w)) w).1) k
  ↔ Effect.stored_with PENDING (TS.table w) k
    ∨ Effect.stored_with FAILED (TS.table w) k.
Proof.
  intros Hd.
  pose proof (requeue_each_evolves (select_by_status FAILED (TS.table w)) w) as Hev.
  split.
  - intros (r1 & Hk & Hst). destruct Hev as [_ _ (evs & _ & HQ & Hp)].
    destruct (Hp k r1 Hk) as [Hin|(ev & Hev & Hw)].
    + left. by exists r1.
    + right. rewrite Forall_forall in HQ.
      destruct (HQ ev Hev) as (k' & Hk' & Hre).
      apply select_by_status_stored in Hk'.
      destruct ev; simpl in *; try done.
      destruct Hre as (-> & _). by injection Hw as ->.
  - intros [(r & Hk & Hst)|(r & Hk & Hst)].
    + exists r. split; [|done]. rewrite <- Hk.
      eapply evolves_frame; [exact Hev|]. intros ev (k' & Hk' & Hre) Hab.
      rewrite (update_event_about k k' _ _ _ ev Hre Hab) in Hk'.
      apply select_by_status_stored in Hk'.
      by eapply (stored_with_status PENDING FAILED).
    + assert (k ∈ id <$> select_by_status FAILED (TS.table w)) as Hin.
      { apply select_by_status_stored. by exists r. }
      destruct (requeue_each_requeues _ w k r (NoDup_select_by_status _ _) Hin Hd Hk)
        as (o & now & _ & Hk').
      by exists (set_sync PENDING None now None r).
Qed.

(** X10.  When a record is FAILED, [retryFailedSyncs] calls the remote once
    for every record that was FAILED or PENDING when it started, and for no
    other record; it returns a success with one result per record sent, in
    the order of the calls. *)
Theorem retry_sends_every_failed_and_pending_record_once w k0 :
  TS.dbInstance w = true → Effect.stored_with FAILED (TS.table w) k0 →
  ∃ w' results evs,
    TS.useCases.retryFailedSyncs w = (w', inr (TS.Success results))
    ∧ TS.log w' = TS.log w ++ evs
    ∧ NoDup (sent_in evs)
    ∧ (∀ k, k ∈ sent_in evs
            ↔ Effect.stored_with PENDING (TS.table w) k
              ∨ Effect.stored_with FAILED (TS.table w) k)
    ∧ TS.recordId <$> results = sent_in evs.
Proof.
  intros Hd Hk0. apply select_by_status_stored in Hk0.
  assert (select_by_status FAILED (TS.table w) ≠ []) as Hne.
  { intros Hnil. rewrite Hnil in Hk0. by apply elem_of_nil in Hk0. }
  pose proof (requeue_stored_PENDING w) as Hst.
  destruct (requeue_each_evolves (select_by_status FAILED (TS.table w)) w)
    as [_ _ (evs1 & Hl1 & HQ1 & _)].
  pose proof (requeue_each_keeps_db (select_by_status FAILED (TS.table w)) w Hd)
    as Hd1.
  set (w1 := (TS.repository.requeue_each
                (select_by_status FAILED (TS.table w)) w).1) in *.
  destruct (syncPendingRecords_trace w1 Hd1)
    as (outs & w' & Hrun & Hlen & _ & Hlog & _ & _).
  destruct (sent_in_attempt_events _ outs Hlen) as (Hs & _ & Hr).
  assert (sent_in evs1 = []) as Hno.
  { apply sent_in_no_send. eapply Forall_impl; [exact HQ1|].
    intros ev (k' & _ & Hre). by eapply requeue_event_not_send. }
  eexists w', _, _. split.
  { apply forward_returns. rewrite (retryFailedSyncs_eq w Hd Hne). exact Hrun. }
  split; [by rewrite Hlog, Hl1, <- app_assoc|].
  rewrite sent_in_app, Hno, Hs, Hr. simpl. split; [|split; [|done]].
  - apply NoDup_select_by_status.
  - intros k. rewrite select_by_status_stored. by apply Hst.
Qed.

End TS_pass.

(** A pass over one pending record that the remote accepts. *)
Lemma sync_pass_sends_each_pending_record_once_witness :
  let w := one_row (row_A PENDING None None) [accepted 7] in
  TS.dbInstance w = true
  ∧ ∃ w' results evs sent,
      TS.useCases.syncRecords w = (w', inr (TS.Success results))
      ∧ TS.log w' = TS.log w ++ evs
      ∧ sent ≡ₚ filter (has_status PENDING) (rows (TS.table w))
      ∧ Sorted newer_first sent
      ∧ sent_in evs = id <$> sent
      ∧ NoDup (sent_in evs)
      ∧ (∀ k, k ∈ sent_in evs ↔ Effect.stored_with PENDING (TS.table w) k)
      ∧ waits_of evs = (λ _, 100) <$> sent
      ∧ TS.recordId <$> results = sent_in evs.
Proof.
  intros w. split; [reflexivity|].
  exact (sync_pass_sends_each_pending_record_once w eq_refl).
Defined.

(** The result of a pass over one pending record that the remote refuses
    with HTTP 404, and the store the pass leaves. *)
Lemma sync_pass_results_agree_with_the_store_witness :
  let w := one_row (row_A PENDING None None) [http_error 404] in
  let w' := (TS.useCases.syncRecords w).1 in
  let results :=
    [ {| TS.recordId := "r1"; TS.success := false;
         TS.error := Some "Client error: 404"; TS.result_remoteId := None |} ] in
  TS.useCases.syncRecords w = (w', inr (TS.Success results))
  ∧ Forall (λ result,
      ∃ r r',
        TS.table w !! TS.recordId result = Some r ∧ col_syncStatus r = PENDING
        ∧ TS.table w' !! TS.recordId result = Some r'
        ∧ Effect.same_content r r'
        ∧ is_Some (col_lastSyncAttempt r')
        ∧ if TS.success result
          then col_syncStatus r' = SYNCED
               ∧ col_remoteId r' = TS.result_remoteId result
               ∧ is_Some (col_remoteId r')
               ∧ col_syncError r' = None ∧ TS.error result = None
          else (col_syncStatus r' = PENDING ∨ col_syncStatus r' = FAILED)
               ∧ col_syncError r' = TS.error result
               ∧ is_Some (TS.error result)
               ∧ col_remoteId r' = None ∧ TS.result_remoteId result = None)
      results.
Proof.
  intros w w' results.
  assert (TS.useCases.syncRecords w = (w', inr (TS.Success results))) as Hrun
    by (vm_compute; reflexivity).
  split; [exact Hrun|].
  exact (sync_pass_results_agree_with_the_store w w' results Hrun).
Defined.

(** A pass over a store that holds one SYNCED record. *)
Lemma sync_pass_with_nothing_pending_witness :
  let w := one_row (row_A SYNCED (Some 7) None) [accepted 8] in
  TS.dbInstance w = true
  ∧ (∀ k r, TS.table w !! k = Some r → col_syncStatus r ≠ PENDING)
  ∧ TS.useCases.syncRecords w = (w, inr (TS.Success [])).
Proof.
  intros w.
  assert (∀ k r, TS.table w !! k = Some r → col_syncStatus r ≠ PENDING) as Hno.
  { intros k r Hk. simpl in Hk. apply lookup_singleton_Some in Hk as [_ <-].
    discriminate. }
  split; [reflexivity|]. split; [exact Hno|].
  exact (sync_pass_with_nothing_pending w eq_refl Hno).
Defined.

(** A retry over a store that holds one PENDING record sends nothing. *)
Lemma retry_without_failed_records_runs_no_pass_witness :
  let w := one_row (row_A PENDING None None) [accepted 8] in
  TS.dbInstance w = true
  ∧ (∀ k r, TS.table w !! k = Some r → col_syncStatus r ≠ FAILED)
  ∧ TS.useCases.retryFailedSyncs w = (w, inr (TS.Success [])).
Proof.
  intros w.
  assert (∀ k r, TS.table w !! k = Some r → col_syncStatus r ≠ FAILED) as Hno.
  { intros k r Hk. simpl in Hk. apply lookup_singleton_Some in Hk as [_ <-].
    discriminate. }
  split; [reflexivity|]. split; [exact Hno|].
  exact (retry_without_failed_records_runs_no_pass w eq_refl Hno).
Defined.

(** A retry over a store that holds one FAILED record. *)
Lemma retry_sends_every_failed_and_pending_record_once_witness :
  let w := one_row (row_A FAILED None (Some "Client error: 404")) [accepted 8] in
  TS.dbInstance w = true ∧ Effect.stored_with FAILED (TS.table w) "r1"
  ∧ ∃ w' results evs,
      TS.useCases.retryFailedSyncs w = (w', inr (TS.Success results))
      ∧ TS.log w' = TS.log w ++ evs
      ∧ NoDup (sent_in evs)
      ∧ (∀ k, k ∈ sent_in evs
              ↔ Effect.stored_with PENDING (TS.table w) k
                ∨ Effect.stored_with FAILED (TS.table w) k)
      ∧ TS.recordId <$> results = sent_in evs.
Proof.
  intros w.
  assert (Effect.stored_with FAILED (TS.table w) "r1") as Hk.
  { eexists. split; [vm_compute; reflexivity|reflexivity]. }
  split; [reflexivity|]. split; [exact Hk|].
  exact (retry_sends_every_failed_and_pending_record_once w "r1" eq_refl Hk).
Defined.

(** ** Where the stored records come from *)

Section TS_descends.
Context {E : Type} `{TS.External E}.
Implicit Types (w : TS.World E) (k : string) (r : Row)
  (P : string → string → Prop).

Lemma descends_refl P w : Trace.descends P w w.
Proof.
  intros k r Hk. left. exists r. split; [done|apply same_content_refl].
Qed.

Lemma descends_trans P w1 w2 w3 :
  Trace.descends P w1 w2 → Trace.descends P w2 w3 → Trace.descends P w1 w3.
Proof.
  intros H1 H2 k r3 Hk. destruct (H2 k r3 Hk) as [(r2 & Hk2 & Hs2)|HP]; [|by right].
  destruct (H1 k r2 Hk2) as [(r1 & Hk1 & Hs1)|HP].
  - left. exists r1. split; [done|]. by eapply same_content_trans.
  - right. destruct Hs2 as (-> & -> & _). done.
Qed.

Lemma descends_same_table P w w' :
  TS.table w' = TS.table w → Trace.descends P w w'.
Proof.
  intros Ht k r Hk. left. exists r. rewrite <- Ht.
  split; [done|apply same_content_refl].
Qed.

Lemma descends_update P w w' k r r' :
  TS.table w !! k = Some r → Effect.same_content r r' →
  TS.table w' = <[k := r']> (TS.table w) → Trace.descends P w w'.
Proof.
  intros Hk Hs Ht k0 r0. rewrite Ht. destruct (decide (k = k0)) as [->|Hne].
  - rewrite lookup_insert_eq. intros [= <-]. left. by exists r.
  - rewrite lookup_insert_ne by done. intros Hk0. left. exists r0.
    split; [done|apply same_content_refl].
Qed.

Lemma syncRecord_descends P k w :
  Trace.descends P w (Effect.syncRecord_world k w).
Proof.
  unfold Effect.syncRecord_world.
  destruct (TS.dbInstance w); [|apply descends_refl].
  destruct (TS.table w !! k) as [r|] eqn:Hk; [|apply descends_refl].
  destruct (Effect.skipped r); [apply descends_refl|].
  destruct (attempt_table k r w) as (now & Ht & _ & _).
  eapply descends_update; [exact Hk| |exact Ht]. apply same_content_row_after.
Qed.

Lemma updateSyncStatus_descends P k st rid err w :
  Trace.descends P w (Effect.updateSyncStatus_world k st rid err w).
Proof.
  unfold Effect.updateSyncStatus_world.
  destruct (TS.dbInstance w); [|apply descends_refl].
  destruct (TS.Date_now _) as [o now].
  destruct (TS.table w !! k) as [r|] eqn:Hk; [|by apply descends_same_table].
  destruct (TS.db.check_syncStatus st); [|by apply descends_same_table].
  by apply (descends_update _ _ _ k r (set_sync st rid now err r)).
Qed.

Lemma sync_each_descends P l acc w :
  Trace.descends P w (TS.repository.sync_each l acc w).1.
Proof.
  revert acc w. induction l as [|e rest IH]; intros acc w; [apply descends_refl|].
  rewrite sync_each_cons, syncRecord_eq.
  destruct (Trace.syncRecord_result (id e) w) as [x|result];
    [apply syncRecord_descends|].
  eapply descends_trans; [apply syncRecord_descends|].
  eapply descends_trans; [|apply IH].
  apply descends_same_table. by rewrite sleep_run.
Qed.

Lemma requeue_each_descends P l w :
  Trace.descends P w (TS.repository.requeue_each l w).1.
Proof.
  revert w. induction l as [|e rest IH]; intros w; [apply descends_refl|].
  rewrite requeue_each_cons.
  destruct (updateSyncStatus_run (id e) PENDING None None w) as (res & Hrun & _).
  rewrite Hrun. destruct res as [x|[]]; [apply updateSyncStatus_descends|].
  eapply descends_trans; [apply updateSyncStatus_descends|apply IH].
Qed.

Lemma syncPendingRecords_descends P w :
  Trace.descends P w (TS.repository.syncPendingRecords w).1.
Proof.
  rewrite syncPendingRecords_world.
  destruct (TS.dbInstance w); [apply sync_each_descends|apply descends_refl].
Qed.

Lemma retryFailedSyncs_descends P w :
  Trace.descends P w (TS.repository.retryFailedSyncs w).1.
Proof.
  rewrite retryFailedSyncs_world.
  destruct (TS.dbInstance w); [|apply descends_refl].
  destruct (select_by_status FAILED (TS.table w)) as [|e l]; [apply descends_refl|].
  eapply descends_trans; [apply requeue_each_descends|].
  apply syncPendingRecords_descends.
Qed.

Lemma createRecord_descends title_ body_ w :
  Trace.descends Trace.valid_content w (TS.useCases.createRecord title_ body_ w).1.
Proof.
  rewrite createRecord_run. unfold Effect.createRecord_effect.
  destruct (Effect.validation_error title_ body_) as [msg|] eqn:Hv;
    [by apply descends_same_table|].
  apply validation_error_None in Hv.
  destruct (TS.uuidv4 (TS.outside w)) as [o1 uuid].
  destruct (TS.Date_now o1) as [o2 now].
  destruct (TS.dbInstance w); [|by apply descends_same_table].
  destruct (TS.table w !! uuid) eqn:Hk; [by apply descends_same_table|].
  intros k r. simpl. destruct (decide (uuid = k)) as [->|Hne].
  - rewrite lookup_insert_eq. intros [= <-]. by right.
  - rewrite lookup_insert_ne by done. intros Hk0. left. exists r.
    split; [done|apply same_content_refl].
Qed.

Lemma exec_sync_op_descends P op w :
  Engine.sync_op op = true → Trace.descends P w (Engine.exec w op).
Proof.
  destruct op as [|t b| | |k|k st rid err]; simpl; intros Hop; try done.
  - apply descends_same_table. by rewrite initDatabase_run.
  - unfold TS.useCases.syncRecords. rewrite forward_world.
    apply syncPendingRecords_descends.
  - unfold TS.useCases.retryFailedSyncs. rewrite forward_world.
    apply retryFailedSyncs_descends.
  - rewrite syncRecord_world_eq. apply syncRecord_descends.
  - rewrite updateSyncStatus_world_eq. apply updateSyncStatus_descends.
Qed.

Lemma exec_descends op w :
  Trace.descends Trace.valid_content w (Engine.exec w op).
Proof.
  destruct (Engine.sync_op op) eqn:Hop; [by apply exec_sync_op_descends|].
  destruct op; try done. apply createRecord_descends.
Qed.

Lemma exec_all_sync_op_descends P ops w :
  forallb Engine.sync_op ops = true →
  Trace.descends P w (Engine.exec_all ops w).
Proof.
  revert w. induction ops as [|op ops IH]; intros w Hops; [apply descends_refl|].
  simpl in Hops. apply andb_true_iff in Hops as [Hop Hops].
  rewrite exec_all_cons.
  eapply descends_trans; [by apply exec_sync_op_descends|by apply IH].
Qed.

Lemma exec_all_descends ops w :
  Trace.descends Trace.valid_content w (Engine.exec_all ops w).
Proof.
  revert w. induction ops as [|op ops IH]; intros w; [apply descends_refl|].
  rewrite exec_all_cons. eapply descends_trans; [apply exec_descends|apply IH].
Qed.

(** X11.  The operations of the engine other than [createRecord], that is
    start-ups, passes, retries, calls of [syncRecord] and status updates,
    in any number and order, neither add a record to the table nor remove
    one: the ids stored stay the same. *)
Theorem sync_operations_keep_the_set_of_records (ops : list Engine.Op) w :
  forallb Engine.sync_op ops = true →
  (dom (TS.table (Engine.exec_all ops w)) : gset string) = dom (TS.table w).
Proof.
  intros Hops. apply set_eq. intros k. rewrite !elem_of_dom. split.
  - intros [r' Hk].
    destruct (exec_all_sync_op_descends (λ _ _, False) ops w Hops k r' Hk)
      as [(r & Hr & _)|[]].
    by exists r.
  - intros [r Hk]. destruct (exec_all_evolves ops w) as [_ Hc _].
    destruct (Hc k r Hk) as (r' & Hk' & _). by exists r'.
Qed.

(** X12.  The bounds checked at creation hold for the store ever after.
    When every stored record has a title of 1 to 200 characters and a body
    of 1 to 5000 characters, this is still so after any sequence of
    operations of the engine: [createRecord] stores only what it has
    validated, and nothing else writes a title or a body. *)
Theorem stored_records_stay_within_the_bounds (ops : list Engine.Op) w :
  Trace.valid_table (TS.table w) →
  Trace.valid_table (TS.table (Engine.exec_all ops w)).
Proof.
  intros Hv k r' Hk.
  destruct (exec_all_descends ops w k r' Hk) as [(r & Hr & Ht & Hb & _)|HP];
    [|done].
  rewrite Ht, Hb. by eapply Hv.
Qed.

End TS_descends.

(** A pass, a status update and a retry over a store of one record. *)
Lemma sync_operations_keep_the_set_of_records_witness :
  let w := one_row (row_A PENDING None None) [no_network; accepted 5] in
  let ops := [Engine.OpSyncNow;
              Engine.OpUpdateSyncStatus "r1" FAILED None (Some "x");
              Engine.OpUpdateSyncStatus "r2" FAILED None (Some "x");
              Engine.OpSyncRecord "r3";
              Engine.OpRetryFailed] in
  forallb Engine.sync_op ops = true
  ∧ (dom (TS.table (Engine.exec_all ops w)) : gset string) = dom (TS.table w).
Proof.
  intros w ops. split; [reflexivity|].
  exact (sync_operations_keep_the_set_of_records ops w eq_refl).
Defined.

(** From a fresh install: a start-up, a creation with a padded title, a
    creation that is refused, and a pass. *)
Lemma stored_records_stay_within_the_bounds_witness :
  let w := Engine.fresh (mkScript [accepted 1] 0 ["u1"; "u2"]) in
  let ops := [Engine.OpInit; Engine.OpCreate " A " "B"; Engine.OpCreate " " "B";
              Engine.OpSyncNow] in
  Trace.valid_table (TS.table w)
  ∧ Trace.valid_table (TS.table (Engine.exec_all ops w)).
Proof.
  intros w ops.
  assert (Trace.valid_table (TS.table w)) as Hv.
  { intros k r Hk. vm_compute in Hk. discriminate. }
  split; [exact Hv|].
  exact (stored_records_stay_within_the_bounds ops w Hv).
Defined.

(** ** Reading the store *)

Section TS_reads.
Context {E : Type} `{TS.External E}.
Implicit Types (w : TS.World E) (k : string) (r : Row).

Lemma getRecordById_run k w :
  TS.db.getRecordById k w
  = if TS.dbInstance w then (w, inr (to_entity k <$> TS.table w !! k))
    else (w, inl (TS.JsError "Database not initialized. Call initDatabase() first.")).
Proof. unfold TS.db.getRecordById. unfold_ts. by destruct (TS.dbInstance w). Qed.

Lemma getAllRecords_run w :
  TS.db.getAllRecords w
  = if TS.dbInstance w
    then (w, inr (order_by_createdAt_desc (rows (TS.table w))))
    else (w, inl (TS.JsError "Database not initialized. Call initDatabase() first.")).
Proof. unfold TS.db.getAllRecords. unfold_ts. by destruct (TS.dbInstance w). Qed.

Lemma getRecordCountByStatus_run st w :
  TS.db.getRecordCountByStatus st w
  = if TS.dbInstance w
    then (w, inr (Z.of_nat (List.length (filter (has_status st) (rows (TS.table w))))))
    else (w, inl (TS.JsError "Database not initialized. Call initDatabase() first.")).
Proof.
  unfold TS.db.getRecordCountByStatus. unfold_ts. by destruct (TS.dbInstance w).
Qed.

Lemma blank_test (s : string) :
  bool_decide (s = EmptyString) || (JS.length (JS.trim s) =? 0)
  = bool_decide (JS.trim s = EmptyString).
Proof.
  destruct s as [|a s]; [done|]. simpl.
  destruct (JS.trim (String a s)) as [|b t]; [done|].
  unfold JS.length. simpl. done.
Qed.

Lemma repository_getRecordById_run k w :
  TS.repository.getRecordById k w
  = (w, inr (if TS.dbInstance w
             then TS.Success (TS.mappers.entityToRecord <$>
                                (to_entity k <$> TS.table w !! k))
             else TS.Failure
                    (TS.JsError "Database not initialized. Call initDatabase() first."))).
Proof.
  unfold TS.repository.getRecordById, TS.repository.as_result. unfold_monad.
  rewrite getRecordById_run. destruct (TS.dbInstance w); [|done].
  by destruct (TS.table w !! k).
Qed.

Lemma repository_getAllRecords_run w :
  TS.repository.getAllRecords w
  = (w, inr (if TS.dbInstance w
             then TS.Success (TS.mappers.entitiesToRecords
                                (order_by_createdAt_desc (rows (TS.table w))))
             else TS.Failure
                    (TS.JsError "Database not initialized. Call initDatabase() first."))).
Proof.
  unfold TS.repository.getAllRecords, TS.repository.as_result. unfold_monad.
  rewrite getAllRecords_run. by destruct (TS.dbInstance w).
Qed.

Lemma fetchRecordById_run k w :
  TS.useCases.fetchRecordById k w
  = (w, inr (if bool_decide (JS.trim k = EmptyString)
             then TS.Failure (TS.JsValidationError "Record ID is required")
             else if TS.dbInstance w
             then TS.Success (TS.mappers.entityToRecord <$>
                                (to_entity k <$> TS.table w !! k))
             else TS.Failure
                    (TS.JsError "Database not initialized. Call initDatabase() first."))).
Proof.
  unfold TS.useCases.fetchRecordById, TS.useCases.forward. rewrite blank_test.
  unfold_monad. destruct (bool_decide (JS.trim k = EmptyString)); [done|].
  by rewrite repository_getRecordById_run.
Qed.

Lemma getSyncStats_run w :
  TS.repository.getSyncStats w
  = (w, inr (if TS.dbInstance w
             then {| TS.repository.total :=
                       Z.of_nat (List.length (order_by_createdAt_desc (rows (TS.table w))));
                     TS.repository.synced :=
                       Z.of_nat (List.length (filter (has_status SYNCED) (rows (TS.table w))));
                     TS.repository.pending :=
                       Z.of_nat (List.length (filter (has_status PENDING) (rows (TS.table w))));
                     TS.repository.failed :=
                       Z.of_nat (List.length (filter (has_status FAILED) (rows (TS.table w)))) |}
             else {| TS.repository.total := 0; TS.repository.synced := 0;
                     TS.repository.pending := 0; TS.repository.failed := 0 |})).
Proof.
  unfold TS.repository.getSyncStats. unfold_monad.
  rewrite getAllRecords_run. destruct (TS.dbInstance w) eqn:Hd; [|done].
  do 3 (rewrite getRecordCountByStatus_run, Hd; cbv beta iota). done.
Qed.

Lemma length_by_status (l : list RecordEntity) :
  List.length l
  = (List.length (filter (has_status SYNCED) l)
     + List.length (filter (has_status PENDING) l)
     + List.length (filter (has_status FAILED) l)
     + List.length (filter (has_status SYNCING) l))%nat.
Proof.
  induction l as [|a l IH]; [done|]. rewrite !filter_cons.
  repeat case_decide; unfold has_status in *; simpl; try congruence; try lia.
  destruct (syncStatus a); congruence.
Qed.

Lemma no_SYNCING_rows (t : gmap string Row) :
  Effect.no_SYNCING t → filter (has_status SYNCING) (rows t) = [].
Proof.
  intros Hno. destruct (filter (has_status SYNCING) (rows t)) as [|e l] eqn:Hf;
    [done|].
  assert (e ∈ filter (has_status SYNCING) (rows t)) as Hin
    by (rewrite Hf; apply elem_of_cons; by left).
  apply list_elem_of_filter in Hin as [Hst Hin]. apply elem_of_rows in Hin.
  by destruct (Hno _ _ Hin).
Qed.

Lemma ids_entitiesToRecords (l : list RecordEntity) :
  id <$> (TS.mappers.entityToRecord <$> l) = id <$> l.
Proof. induction l as [|e l IH]; [done|]. by rewrite !fmap_cons, IH. Qed.

Lemma length_rows (t : gmap string Row) : List.length (rows t) = size t.
Proof. unfold rows. by rewrite length_fmap, length_map_to_list. Qed.

(** X13.  Before [initDatabase] has been called, every use case that needs
    the store reports the failure "Database not initialized" and changes
    nothing, neither the store nor the log nor what lies outside;
    [getSyncStatistics] reports zeros instead; [createRecord] returns a
    failure and stores nothing; and [syncRecord] throws instead of
    returning a result. *)
Theorem use_cases_fail_before_initDatabase k title_ body_ w :
  TS.dbInstance w = false → JS.trim k ≠ EmptyString →
  let not_initialized :=
    TS.JsError "Database not initialized. Call initDatabase() first." in
  TS.useCases.syncRecords w = (w, inr (TS.Failure not_initialized))
  ∧ TS.useCases.retryFailedSyncs w = (w, inr (TS.Failure not_initialized))
  ∧ TS.useCases.fetchAllRecords w = (w, inr (TS.Failure not_initialized))
  ∧ TS.useCases.fetchRecordById k w = (w, inr (TS.Failure not_initialized))
  ∧ TS.useCases.getSyncStatistics w
    = (w, inr {| TS.repository.total := 0; TS.repository.synced := 0;
                 TS.repository.pending := 0; TS.repository.failed := 0 |})
  ∧ (∃ w' error,
       TS.useCases.createRecord title_ body_ w = (w', inr (TS.Failure error))
       ∧ TS.table w' = TS.table w ∧ TS.dbInstance w' = false)
  ∧ TS.repository.syncRecord k w = (w, inl not_initialized).
Proof.
  intros Hd Hk not_initialized. repeat split.
  - apply forward_returns. by apply syncPendingRecords_closed.
  - apply forward_returns. unfold TS.repository.retryFailedSyncs. unfold_monad.
    by rewrite getRecordsByStatus_run, Hd.
  - apply forward_returns. by rewrite repository_getAllRecords_run, Hd.
  - rewrite fetchRecordById_run, Hd. by rewrite bool_decide_false.
  - unfold TS.useCases.getSyncStatistics. unfold_monad.
    by rewrite getSyncStats_run, Hd.
  - rewrite createRecord_run. unfold Effect.createRecord_effect.
    destruct (Effect.validation_error title_ body_); [by eexists _, _|].
    destruct (TS.uuidv4 (TS.outside w)) as [o1 uuid].
    destruct (TS.Date_now o1) as [o2 now]. rewrite Hd. by eexists _, _.
  - rewrite syncRecord_eq. unfold Effect.syncRecord_world, Trace.syncRecord_result.
    by rewrite Hd.
Qed.

(** X14.  [fetchRecordById] never throws and changes nothing.  An id that
    is empty or white space only gives the [ValidationError] "Record ID is
    required" without a look at the store; any other id is looked up as it
    is given, without trimming, and the result is the record stored under
    it, mapped to the domain, or [null] when there is none. *)
Theorem fetchRecordById_validates_the_id_and_reads_only k w :
  ∃ res, TS.useCases.fetchRecordById k w = (w, inr res)
    ∧ (JS.trim k = EmptyString →
       res = TS.Failure (TS.JsValidationError "Record ID is required"))
    ∧ (JS.trim k ≠ EmptyString → TS.dbInstance w = true →
       res = TS.Success (TS.mappers.entityToRecord <$>
                           (to_entity k <$> TS.table w !! k))
       ∧ (res = TS.Success None ↔ TS.table w !! k = None)).
Proof.
  rewrite fetchRecordById_run. eexists. split; [done|]. split.
  - intros Hk. by rewrite bool_decide_true.
  - intros Hk Hd. rewrite bool_decide_false, Hd by done. split; [done|].
    destruct (TS.table w !! k); simpl; split; intros; by simplify_eq.
Qed.

(** X15.  A record [createRecord] has returned can be read back: with its
    id, [fetchRecordById] returns the very record, and [fetchAllRecords]
    lists it; the store holds one record more than before. *)
Theorem created_record_can_be_fetched title_ body_ w w' record :
  TS.useCases.createRecord title_ body_ w = (w', inr (TS.Success record)) →
  JS.trim (id record) ≠ EmptyString →
  TS.useCases.fetchRecordById (id record) w' = (w', inr (TS.Success (Some record)))
  ∧ size (TS.table w') = S (size (TS.table w))
  ∧ ∃ records,
      TS.useCases.fetchAllRecords w' = (w', inr (TS.Success records))
      ∧ record ∈ records.
Proof.
  rewrite createRecord_run. unfold Effect.createRecord_effect.
  destruct (Effect.validation_error title_ body_); [done|].
  destruct (TS.uuidv4 (TS.outside w)) as [o1 uuid].
  destruct (TS.Date_now o1) as [o2 now].
  destruct (TS.dbInstance w) eqn:Hd; [|done].
  destruct (TS.table w !! uuid) eqn:Hk; [done|].
  intros [= <- <-] Hid. simpl in Hid. split; [|split].
  - rewrite fetchRecordById_run. simpl.
    rewrite bool_decide_false, lookup_insert_eq by done. done.
  - simpl. by rewrite map_size_insert_None.
  - eexists. split.
    + apply forward_returns. by rewrite repository_getAllRecords_run.
    + unfold TS.mappers.entitiesToRecords.
      apply list_elem_of_fmap_2.
      unfold order_by_createdAt_desc. rewrite merge_sort_Permutation.
      apply elem_of_rows. simpl. by rewrite lookup_insert_eq.
Qed.

(** X16.  With the database initialised, [fetchAllRecords] changes nothing
    and lists every stored record exactly once, each with the columns of
    its row, the newest first. *)
Theorem fetchAllRecords_lists_every_record_once_newest_first w :
  TS.dbInstance w = true →
  ∃ records,
    TS.useCases.fetchAllRecords w = (w, inr (TS.Success records))
    ∧ Sorted newer_first records
    ∧ NoDup (id <$> records)
    ∧ List.length records = size (TS.table w)
    ∧ (∀ record, record ∈ records
         ↔ ∃ r, TS.table w !! id record = Some r
                ∧ record = TS.mappers.entityToRecord (to_entity (id record) r)).
Proof.
  intros Hd. eexists. split.
  { apply forward_returns. by rewrite repository_getAllRecords_run, Hd. }
  unfold TS.mappers.entitiesToRecords, order_by_createdAt_desc.
  split; [|split; [|split]].
  - apply (Sorted_fmap _ newer_first); [by intros [] []|].
    apply Sorted_merge_sort. intros a b. unfold newer_first. lia.
  - rewrite ids_entitiesToRecords, merge_sort_Permutation, rows_ids.
    apply NoDup_fst_map_to_list.
  - by rewrite length_fmap, merge_sort_Permutation, length_rows.
  - intros record. rewrite list_elem_of_fmap. split.
    + intros (e & -> & He). rewrite merge_sort_Permutation in He.
      apply elem_of_rows in He. exists (to_row e). split; [by destruct e|].
      by destruct e.
    + intros (r & Hk & ->). simpl in Hk. exists (to_entity (id record) r).
      split; [done|]. rewrite merge_sort_Permutation. apply elem_of_rows.
      simpl. rewrite Hk. by destruct r.
Qed.

(** X17.  With the database initialised and no row in SYNCING (the CHECK of
    the schema admits none), [getSyncStatistics] changes nothing and its
    counts add up: the total is the number of stored records and the sum of
    the synced, pending and failed counts, and the pending count is the
    number of records the next pass attempts. *)
Theorem sync_statistics_add_up w :
  TS.dbInstance w = true → Effect.no_SYNCING (TS.table w) →
  ∃ stats,
    TS.useCases.getSyncStatistics w = (w, inr stats)
    ∧ TS.repository.total stats = Z.of_nat (size (TS.table w))
    ∧ TS.repository.total stats
      = TS.repository.synced stats + TS.repository.pending stats
        + TS.repository.failed stats
    ∧ TS.repository.pending stats
      = Z.of_nat (List.length (select_by_status PENDING (TS.table w))).
Proof.
  intros Hd Hno. eexists. split.
  { unfold TS.useCases.getSyncStatistics. unfold_monad.
    by rewrite getSyncStats_run, Hd. }
  simpl. unfold order_by_createdAt_desc, select_by_status, order_by_createdAt_desc.
  rewrite !merge_sort_Permutation, length_rows. split; [done|]. split; [|done].
  rewrite <- length_rows, (length_by_status (rows (TS.table w))).
  rewrite (no_SYNCING_rows _ Hno). simpl. lia.
Qed.

Lemma insertRecord_run (e : RecordEntity) w :
  TS.db.insertRecord e w
  = if TS.dbInstance w then
      match TS.table w !! id e with
      | Some _ =>
          (w, inl (TS.JsError
             "Failed to insert record: Error: UNIQUE constraint failed: records.id"))
      | None =>
          if TS.db.check_syncStatus (syncStatus e)
          then (TS.mkWorld (<[id e := to_row e]> (TS.table w)) true
                  (TS.outside w) (TS.log w ++ [EvInsert (id e) (to_row e)]),
                inr ())
          else (w, inl (TS.JsError
                  "Failed to insert record: Error: CHECK constraint failed: syncStatus"))
      end
    else (w, inl (TS.JsError "Database not initialized. Call initDatabase() first.")).
Proof.
  unfold TS.db.insertRecord. unfold_ts. destruct w as [t d o l]. simpl.
  destruct d; [|done]. simpl. destruct (t !! id e); [done|].
  by destruct (TS.db.check_syncStatus (syncStatus e)).
Qed.

(** X18.  The PRIMARY KEY of the table.  When [insertRecord] succeeds, the
    id was not in use and the status is not SYNCING; the record can be read
    back unchanged with [getRecordById]; and every further insertion under
    the same id throws and leaves the store as it is. *)
Theorem insertRecord_enforces_the_primary_key (e e' : RecordEntity) w w1 :
  TS.db.insertRecord e w = (w1, inr ()) → id e' = id e →
  TS.table w !! id e = None
  ∧ syncStatus e ≠ SYNCING
  ∧ TS.db.getRecordById (id e) w1 = (w1, inr (Some e))
  ∧ size (TS.table w1) = S (size (TS.table w))
  ∧ ∃ x, TS.db.insertRecord e' w1 = (w1, inl x).
Proof.
  rewrite insertRecord_run. intros Hrun Hid.
  destruct (TS.dbInstance w) eqn:Hd; [|done].
  destruct (TS.table w !! id e) eqn:Hk; [done|].
  destruct (TS.db.check_syncStatus (syncStatus e)) eqn:Hc; [|done].
  injection Hrun as <-.
  split; [done|]. split; [by destruct (syncStatus e)|]. split; [|split].
  - rewrite getRecordById_run. simpl. rewrite lookup_insert_eq. by destruct e.
  - simpl. by rewrite map_size_insert_None.
  - rewrite insertRecord_run. simpl. rewrite Hid, lookup_insert_eq. by eexists.
Qed.

End TS_reads.

(** The use cases called on a fresh install, before any start-up. *)
Lemma use_cases_fail_before_initDatabase_witness :
  let w := Engine.fresh (mkScript [accepted 1] 0 ["u1"]) in
  let not_initialized :=
    TS.JsError "Database not initialized. Call initDatabase() first." in
  TS.dbInstance w = false ∧ JS.trim "r1" ≠ EmptyString
  ∧ TS.useCases.syncRecords w = (w, inr (TS.Failure not_initialized))
  ∧ TS.useCases.retryFailedSyncs w = (w, inr (TS.Failure not_initialized))
  ∧ TS.useCases.fetchAllRecords w = (w, inr (TS.Failure not_initialized))
  ∧ TS.useCases.fetchRecordById "r1" w = (w, inr (TS.Failure not_initialized))
  ∧ TS.useCases.getSyncStatistics w
    = (w, inr {| TS.repository.total := 0; TS.repository.synced := 0;
                 TS.repository.pending := 0; TS.repository.failed := 0 |})
  ∧ (∃ w' error,
       TS.useCases.createRecord "A" "B" w = (w', inr (TS.Failure error))
       ∧ TS.table w' = TS.table w ∧ TS.dbInstance w' = false)
  ∧ TS.repository.syncRecord "r1" w = (w, inl not_initialized).
Proof.
  intros w not_initialized.
  assert (JS.trim "r1" ≠ EmptyString) as Hk by (vm_compute; discriminate).
  split; [reflexivity|]. split; [exact Hk|].
  exact (use_cases_fail_before_initDatabase "r1" "A" "B" w eq_refl Hk).
Defined.

(** A record created after the start-up is read back. *)
Lemma created_record_can_be_fetched_witness :
  let w := (TS.db.initDatabase (Engine.fresh (mkScript [] 0 ["u1"]))).1 in
  let w' := (TS.useCases.createRecord " A " "B" w).1 in
  let record := mkEntity "u1" "A" "B" 0 PENDING None None None in
  TS.useCases.createRecord " A " "B" w = (w', inr (TS.Success record))
  ∧ JS.trim (id record) ≠ EmptyString
  ∧ TS.useCases.fetchRecordById (id record) w' = (w', inr (TS.Success (Some record)))
  ∧ size (TS.table w') = S (size (TS.table w))
  ∧ ∃ records,
      TS.useCases.fetchAllRecords w' = (w', inr (TS.Success records))
      ∧ record ∈ records.
Proof.
  intros w w' record.
  assert (TS.useCases.createRecord " A " "B" w = (w', inr (TS.Success record)))
    as Hrun by (vm_compute; reflexivity).
  assert (JS.trim (id record) ≠ EmptyString) as Hid by (vm_compute; discriminate).
  split; [exact Hrun|]. split; [exact Hid|].
  exact (created_record_can_be_fetched " A " "B" w w' record Hrun Hid).
Defined.

(** The list of a store of one record. *)
Lemma fetchAllRecords_lists_every_record_once_newest_first_witness :
  let w := one_row (row_A FAILED None (Some "Client error: 404")) [] in
  TS.dbInstance w = true
  ∧ ∃ records,
      TS.useCases.fetchAllRecords w = (w, inr (TS.Success records))
      ∧ Sorted newer_first records
      ∧ NoDup (id <$> records)
      ∧ List.length records = size (TS.table w)
      ∧ (∀ record, record ∈ records
           ↔ ∃ r, TS.table w !! id record = Some r
                  ∧ record = TS.mappers.entityToRecord (to_entity (id record) r)).
Proof.
  intros w. split; [reflexivity|].
  exact (fetchAllRecords_lists_every_record_once_newest_first w eq_refl).
Defined.

(** The statistics of a store of one record. *)
Lemma sync_statistics_add_up_witness :
  let w := one_row (row_A PENDING None None) [] in
  TS.dbInstance w = true ∧ Effect.no_SYNCING (TS.table w)
  ∧ ∃ stats,
      TS.useCases.getSyncStatistics w = (w, inr stats)
      ∧ TS.repository.total stats = Z.of_nat (size (TS.table w))
      ∧ TS.repository.total stats
        = TS.repository.synced stats + TS.repository.pending stats
          + TS.repository.failed stats
      ∧ TS.repository.pending stats
        = Z.of_nat (List.length (select_by_status PENDING (TS.table w))).
Proof.
  intros w.
  assert (Effect.no_SYNCING (TS.table w)) as Hno.
  { intros k r Hk. simpl in Hk. apply lookup_singleton_Some in Hk as [_ <-].
    discriminate. }
  split; [reflexivity|]. split; [exact Hno|].
  exact (sync_statistics_add_up w eq_refl Hno).
Defined.

(** A record inserted after the start-up, and a second one with its id. *)
Lemma insertRecord_enforces_the_primary_key_witness :
  let w := (TS.db.initDatabase (Engine.fresh (mkScript [] 0 []))).1 in
  let e := mkEntity "r1" "A" "B" 1000 PENDING None None None in
  let e' := mkEntity "r1" "C" "D" 2000 FAILED None None (Some "x") in
  let w1 := (TS.db.insertRecord e w).1 in
  TS.db.insertRecord e w = (w1, inr ()) ∧ id e' = id e
  ∧ TS.table w !! id e = None
  ∧ syncStatus e ≠ SYNCING
  ∧ TS.db.getRecordById (id e) w1 = (w1, inr (Some e))
  ∧ size (TS.table w1) = S (size (TS.table w))
  ∧ ∃ x, TS.db.insertRecord e' w1 = (w1, inl x).
Proof.
  intros w e e' w1.
  assert (TS.db.insertRecord e w = (w1, inr ())) as Hrun
    by (vm_compute; reflexivity).
  split; [exact Hrun|]. split; [reflexivity|].
  exact (insertRecord_enforces_the_primary_key e e' w w1 Hrun eq_refl).
Defined.

(** ** Background sync *)

Section TS_background.
Context {E : Type} `{TS.External E} `{TS.backgroundSync.NetInfo E}.
Implicit Types (w : TS.World E) (k : string)
  (state : TS.backgroundSync.NetInfoState).

(** Both flags of the state are [true]. *)
Lemma online_test state :
  (TS.backgroundSync.not_ (TS.backgroundSync.isConnected state)
   || TS.backgroundSync.not_ (TS.backgroundSync.isInternetReachable state)) = false
  ↔ TS.backgroundSync.isConnected state = Some true
    ∧ TS.backgroundSync.isInternetReachable state = Some true.
Proof.
  destruct state as [t [[]|] [[]|]]; simpl; split; try done; by intros [? ?].
Qed.

Lemma truthy_connected state :
  TS.backgroundSync.truthy (TS.backgroundSync.connected state) = true
  ↔ TS.backgroundSync.isConnected state = Some true
    ∧ TS.backgroundSync.isInternetReachable state = Some true.
Proof.
  destruct state as [t [[]|] [[]|]]; simpl; split; try done; by intros [? ?].
Qed.

Lemma successCount_pos (data : list TS.SyncResult) :
  (0 <? TS.backgroundSync.successCount data) = true
  ↔ ∃ result, result ∈ data ∧ TS.success result = true.
Proof.
  unfold TS.backgroundSync.successCount. rewrite Z.ltb_lt. split.
  - destruct (filter (λ r, TS.success r = true) data) as [|result l] eqn:Hf;
      [simpl; lia|].
    intros _. exists result.
    assert (result ∈ filter (λ r, TS.success r = true) data) as Hin
      by (rewrite Hf; apply elem_of_cons; by left).
    apply list_elem_of_filter in Hin as [? ?]. done.
  - intros (result & Hin & Hs).
    assert (result ∈ filter (λ r, TS.success r = true) data) as Hin'
      by by apply list_elem_of_filter.
    destruct (filter (λ r, TS.success r = true) data); [|simpl; lia].
    by apply elem_of_nil in Hin'.
Qed.

(** Whether a pass had a record accepted, read off the store. *)
Lemma syncPendingRecords_accepts w :
  TS.dbInstance w = true →
  ∃ w' results,
    TS.repository.syncPendingRecords w = (w', inr (TS.Success results))
    ∧ TS.dbInstance w' = true
    ∧ ((∃ result, result ∈ results ∧ TS.success result = true)
       ↔ ∃ k, Effect.stored_with PENDING (TS.table w) k
              ∧ Effect.stored_with SYNCED (TS.table w') k).
Proof.
  intros Hd.
  destruct (syncPendingRecords_trace w Hd)
    as (outs & w' & Hrun & Hlen & Hd' & _ & Htab & _).
  eexists w', _. split; [exact Hrun|]. split; [done|]. split.
  - intros (result & Hin & Hs).
    apply elem_of_lookup_zip_with in Hin as (i & k & out & -> & Hk & Hout).
    apply list_lookup_fmap_Some in Hk as (e & -> & He).
    apply list_lookup_fmap_Some in Hout as (o & -> & Ho).
    pose proof (Htab i e o He Ho) as Hrow.
    apply list_elem_of_lookup_2, elem_of_select_by_status in He as [Hk Hst].
    exists (id e). split; [by exists (to_row e)|].
    destruct o as [[x|response] now]; [done|]. eexists. split; [exact Hrow|done].
  - intros (k & Hp & (r' & Hk' & Hst')).
    apply select_by_status_stored, list_elem_of_fmap in Hp as (e & -> & He).
    apply list_elem_of_lookup_1 in He as [i He].
    destruct (lookup_lt_is_Some_2 outs i) as [o Ho].
    { rewrite Hlen. by eapply lookup_lt_Some. }
    rewrite (Htab i e o He Ho) in Hk'. injection Hk' as <-.
    exists (Trace.result_after (id e) o.1). split.
    + apply elem_of_lookup_zip_with. exists i, (id e), o.1.
      split; [done|]. by rewrite !list_lookup_fmap, He, Ho.
    + destruct o as [[x|response] now]; [|done]. simpl in Hst'.
      by destruct (Effect.is_permanent x).
Qed.

(** The world once [NetInfo.fetch()] has been awaited. *)
Lemma fetch_run w :
  TS.backgroundSync.fetch w
  = (TS.mkWorld (TS.table w) (TS.dbInstance w)
       (TS.backgroundSync.NetInfo_fetch (TS.outside w)).1 (TS.log w),
     (TS.backgroundSync.NetInfo_fetch (TS.outside w)).2).
Proof.
  unfold TS.backgroundSync.fetch.
  by destruct (TS.backgroundSync.NetInfo_fetch (TS.outside w)).
Qed.

(** X19.  [triggerImmediateSync] never throws.  It returns [true] exactly
    when [NetInfo.fetch()] reported a state whose two flags are both [true]
    and the database is initialised; a pass has then been run, whatever
    became of its records.  When it returns [false], neither the table nor
    the log has changed: offline, nothing is sent and nothing is written. *)
Theorem triggerImmediateSync_syncs_only_when_online w :
  let fetched :=
    TS.mkWorld (TS.table w) (TS.dbInstance w)
      (TS.backgroundSync.NetInfo_fetch (TS.outside w)).1 (TS.log w) in
  ∃ w' b,
    TS.backgroundSync.triggerImmediateSync w = (w', inr b)
    ∧ (b = true
       ↔ (∃ state,
            (TS.backgroundSync.NetInfo_fetch (TS.outside w)).2 = inr state
            ∧ TS.backgroundSync.isConnected state = Some true
            ∧ TS.backgroundSync.isInternetReachable state = Some true)
         ∧ TS.dbInstance w = true)
    ∧ (b = true → w' = (TS.repository.syncPendingRecords fetched).1)
    ∧ (b = false → Trace.same_store w w').
Proof.
  intros fetched.
  unfold TS.backgroundSync.triggerImmediateSync. unfold_monad.
  rewrite fetch_run. fold fetched.
  destruct (TS.backgroundSync.NetInfo_fetch (TS.outside w)).2 as [x|state] eqn:Hf.
  { eexists _, _. split; [done|]. split; [|done].
    split; [done|]. by intros [(state & ? & _) _]. }
  destruct (TS.backgroundSync.not_ (TS.backgroundSync.isConnected state)
            || TS.backgroundSync.not_ (TS.backgroundSync.isInternetReachable state))
    eqn:Hon.
  { eexists _, _. split; [done|]. split; [|done]. split; [done|].
    intros [(state' & [= <-] & Hc & Hr) _].
    assert (true = false) by (rewrite <- Hon; by apply online_test). done. }
  apply online_test in Hon as [Hc Hr].
  destruct (TS.dbInstance w) eqn:Hd.
  - destruct (syncPendingRecords_trace fetched eq_refl)
      as (outs & w' & Hrun & _).
    rewrite Hrun. eexists _, _. split; [done|]. split; [|done].
    split; [|done]. intros _. split; [|done]. by exists state.
  - rewrite (syncPendingRecords_closed fetched eq_refl).
    eexists _, _. split; [done|]. split; [|done]. split; [done|]. by intros [_ ?].
Qed.

(** X20.  The background task never throws and leaves the database
    initialised.  It reports [Failed] exactly when [NetInfo.fetch()] itself
    failed: a pass in which the remote refused every record is no failure
    of the task.  It reports [NewData] exactly when the device was online
    and a record that was PENDING has become SYNCED.  When the device is not
    online, neither the table nor the log has changed. *)
Theorem backgroundTask_reports_what_the_pass_did w :
  ∃ w' res,
    TS.backgroundSync.backgroundTask w = (w', inr res)
    ∧ TS.dbInstance w' = true
    ∧ (res = TS.backgroundSync.Failed
       ↔ ∃ x, (TS.backgroundSync.NetInfo_fetch (TS.outside w)).2 = inl x)
    ∧ (res = TS.backgroundSync.NewData
       ↔ (∃ state,
            (TS.backgroundSync.NetInfo_fetch (TS.outside w)).2 = inr state
            ∧ TS.backgroundSync.isConnected state = Some true
            ∧ TS.backgroundSync.isInternetReachable state = Some true)
         ∧ ∃ k, Effect.stored_with PENDING (TS.table w) k
                ∧ Effect.stored_with SYNCED (TS.table w') k)
    ∧ ((∀ state,
          (TS.backgroundSync.NetInfo_fetch (TS.outside w)).2 = inr state →
          TS.backgroundSync.isConnected state = Some true →
          TS.backgroundSync.isInternetReachable state ≠ Some true) →
       TS.table w' = TS.table w ∧ TS.log w' = TS.log w).
Proof.
  unfold TS.backgroundSync.backgroundTask. unfold_monad.
  rewrite initDatabase_run, fetch_run. simpl.
  destruct (TS.backgroundSync.NetInfo_fetch (TS.outside w)).2 as [x|state] eqn:Hf.
  { eexists _, _. split; [done|]. split; [done|]. split; [split; eauto|].
    split; [|done]. split; [done|]. by intros [(state & ? & _) _]. }
  destruct (TS.backgroundSync.not_ (TS.backgroundSync.isConnected state)
            || TS.backgroundSync.not_ (TS.backgroundSync.isInternetReachable state))
    eqn:Hon.
  { eexists _, _. split; [done|]. split; [done|].
    split; [split; [done|by intros [x ?]]|]. split; [|done]. split; [done|].
    intros [(state' & [= <-] & Hc & Hr) _].
    assert (true = false) by (rewrite <- Hon; by apply online_test). done. }
  apply online_test in Hon as [Hc Hr].
  set (fetched := TS.mkWorld (TS.table w) true
                    (TS.backgroundSync.NetInfo_fetch (TS.outside w)).1 (TS.log w)).
  destruct (syncPendingRecords_accepts fetched eq_refl)
    as (w' & results & Hrun & Hd' & Hacc).
  rewrite Hrun. unfold fetched in Hacc. simpl in Hacc.
  eexists _, _. split; [done|]. split; [done|].
  split; [|split].
  - split; [by destruct (0 <? _)|by intros [x ?]].
  - rewrite <- Hacc, <- successCount_pos.
    destruct (0 <? TS.backgroundSync.successCount results); split; try done.
    + intros _. split; [by exists state|done].
    + by intros [_ ?].
  - intros Hoff. by destruct (Hoff state eq_refl Hc).
Qed.

Lemma networkListener_all_lookup prev (states : list TS.backgroundSync.NetInfoState)
  (i : nat) :
  TS.backgroundSync.networkListener_all prev states !! i = Some true
  ↔ (∃ state, states !! i = Some state
              ∧ TS.backgroundSync.truthy (TS.backgroundSync.connected state) = true)
    ∧ match i with
      | O => TS.backgroundSync.truthy prev = false
      | S j => ∃ state', states !! j = Some state'
                 ∧ TS.backgroundSync.truthy (TS.backgroundSync.connected state') = false
      end.
Proof.
  revert prev i. induction states as [|s rest IH]; intros prev i.
  { simpl. rewrite lookup_nil. split; [done|]. by intros [(state & ? & _) _]. }
  destruct i as [|j]; simpl.
  - unfold TS.backgroundSync.not_. split.
    + intros [= Hs]. apply andb_true_iff in Hs as [Hs Hp].
      split; [by exists s|]. by apply negb_true_iff.
    + intros [(state & [= <-] & Hs) Hp]. by rewrite Hs, Hp.
  - rewrite IH. split.
    + intros [Hs Hp]. split; [done|]. destruct j as [|j']; [by exists s|done].
    + intros [Hs Hp]. split; [done|].
      destruct j as [|j']; [|done]. by destruct Hp as (state' & [= <-] & ?).
Qed.

Lemma length_networkListener_all prev
  (states : list TS.backgroundSync.NetInfoState) :
  List.length (TS.backgroundSync.networkListener_all prev states)
  = List.length states.
Proof.
  revert prev. induction states as [|s rest IH]; intros prev; [done|].
  simpl. by rewrite IH.
Qed.

(** X21.  The network listener starts a sync on rising edges only.  Among
    the notifications it receives, one after the other, it starts
    [triggerImmediateSync] at exactly those that report a state with both
    flags [true] and are the first notification or follow a notification
    that did not report such a state; so it never starts a sync at two
    notifications in a row. *)
Theorem network_listener_starts_a_sync_on_rising_edges_only
  (states : list TS.backgroundSync.NetInfoState) (i : nat) :
  let online state :=
    TS.backgroundSync.isConnected state = Some true
    ∧ TS.backgroundSync.isInternetReachable state = Some true in
  (TS.backgroundSync.setupNetworkListener states !! i = Some true
   ↔ (∃ state, states !! i = Some state ∧ online state)
     ∧ match i with
       | O => True
       | S j => ∃ state', states !! j = Some state' ∧ ¬ online state'
       end)
  ∧ (TS.backgroundSync.setupNetworkListener states !! i = Some true →
     TS.backgroundSync.setupNetworkListener states !! S i ≠ Some true)
  ∧ List.length (TS.backgroundSync.setupNetworkListener states) = List.length states.
Proof.
  intros online. unfold TS.backgroundSync.setupNetworkListener.
  assert (∀ j,
    TS.backgroundSync.networkListener_all (Some false) states !! j = Some true
    ↔ (∃ state, states !! j = Some state ∧ online state)
      ∧ match j with
        | O => True
        | S j' => ∃ state', states !! j' = Some state' ∧ ¬ online state'
        end) as Hiff.
  { intros j. rewrite networkListener_all_lookup. unfold online. split.
    - intros [(state & Hs & Hon) Hp]. split.
      + exists state. split; [done|]. by apply truthy_connected.
      + destruct j as [|j']; [done|]. destruct Hp as (state' & Hs' & Hoff).
        exists state'. split; [done|]. rewrite <- truthy_connected, Hoff. done.
    - intros [(state & Hs & Hon) Hp]. split.
      + exists state. split; [done|]. by apply truthy_connected.
      + destruct j as [|j']; [done|]. destruct Hp as (state' & Hs' & Hoff).
        exists state'. split; [done|]. rewrite <- truthy_connected in Hoff.
        by destruct (TS.backgroundSync.truthy _). }
  split; [apply Hiff|]. split.
  - intros Hi Hsi. apply Hiff in Hi as [(state & Hs & Hon) _].
    apply Hiff in Hsi as [_ (state' & Hs' & Hoff)]. by simplify_eq.
  - apply length_networkListener_all.
Qed.

End TS_background.

(** ** The error logger *)

Section TS_errorLogger.
Context {E : Type} `{TS.External E} `{TS.errorLogger.Random E}.
Implicit Types (s : TS.errorLogger.Storage E).

Lemma getErrorLogs_run s :
  TS.errorLogger.getErrorLogs s = (s, inr (default [] (TS.errorLogger.errors s))).
Proof. done. Qed.

Lemma logError_run category_ error_ context_ s :
  ∃ o entry,
    TS.errorLogger.logError category_ error_ context_ s
    = (TS.errorLogger.mkStorage
         (Some (take TS.errorLogger.MAX_STORED_ERRORS
                  (entry :: default [] (TS.errorLogger.errors s)))) o,
       inr ())
    ∧ Logging.fields entry
      = Logging.entry_of (Logging.mkCall category_ error_ context_).
Proof.
  unfold TS.errorLogger.logError, TS.errorLogger.getErrorLogs,
    TS.errorLogger.on_device. unfold_monad. simpl.
  destruct (TS.Date_now (TS.errorLogger.device s)) as [o1 now1]. simpl.
  destruct (TS.errorLogger.random_suffix o1) as [o2 suffix]. simpl.
  destruct (TS.Date_now o2) as [o3 now2]. simpl.
  by eexists _, _.
Qed.

Lemma take_app_take {A} (n : nat) (a b : list A) :
  take n (a ++ take n b) = take n (a ++ b).
Proof.
  rewrite !take_app, take_take. do 2 f_equal. lia.
Qed.

(** X22.  The error log keeps the newest hundred.  After any number of
    calls of [logError], made one after the other on a storage that held at
    most 100 logs, [getErrorLogs] returns the logs of the calls, the latest
    first, followed by the logs stored before, cut after the first 100; and
    no call throws. *)
Theorem error_log_keeps_the_newest_hundred (calls : list Logging.Call) s :
  (List.length (default [] (TS.errorLogger.errors s)) ≤ 100)%nat →
  ∃ s' logs,
    Logging.logErrors calls s = (s', inr ())
    ∧ TS.errorLogger.getErrorLogs s' = (s', inr logs)
    ∧ Logging.fields <$> logs
      = take 100 (reverse (Logging.entry_of <$> calls)
                  ++ (Logging.fields <$> default [] (TS.errorLogger.errors s)))
    ∧ (List.length logs ≤ 100)%nat.
Proof.
  revert s. induction calls as [|c rest IH]; intros s Hlen.
  - eexists s, _. split; [done|]. split; [apply getErrorLogs_run|]. simpl.
    split; [|done]. rewrite take_ge; [done|]. by rewrite length_fmap.
  - destruct (logError_run (Logging.call_category c) (Logging.call_error c)
                (Logging.call_context c) s) as (o & entry & Hrun & Hentry).
    simpl. unfold_monad. rewrite Hrun.
    destruct (IH (TS.errorLogger.mkStorage
                    (Some (take TS.errorLogger.MAX_STORED_ERRORS
                             (entry :: default [] (TS.errorLogger.errors s)))) o))
      as (s' & logs & Hrest & Hget & Hfields & Hlen').
    { simpl. rewrite length_take. unfold TS.errorLogger.MAX_STORED_ERRORS. lia. }
    exists s', logs. split; [exact Hrest|]. split; [exact Hget|].
    split; [|done]. rewrite Hfields.
    change (default [] (TS.errorLogger.errors
              (TS.errorLogger.mkStorage
                 (Some (take TS.errorLogger.MAX_STORED_ERRORS
                          (entry :: default [] (TS.errorLogger.errors s)))) o)))
      with (take 100 (entry :: default [] (TS.errorLogger.errors s))).
    rewrite fmap_take, !fmap_cons, Hentry, take_app_take, reverse_cons, <- app_assoc.
    by destruct c.
Qed.

End TS_errorLogger.

(** Two errors logged on an empty storage. *)
Lemma error_log_keeps_the_newest_hundred_witness :
  let s := LoggingScenario.empty_storage in
  (List.length (default [] (TS.errorLogger.errors s)) ≤ 100)%nat
  ∧ ∃ s' logs,
      Logging.logErrors LoggingScenario.calls s = (s', inr ())
      ∧ TS.errorLogger.getErrorLogs s' = (s', inr logs)
      ∧ Logging.fields <$> logs
        = take 100 (reverse (Logging.entry_of <$> LoggingScenario.calls)
                    ++ (Logging.fields <$> default [] (TS.errorLogger.errors s)))
      ∧ (List.length logs ≤ 100)%nat.
Proof.
  intros s.
  assert (List.length (default [] (TS.errorLogger.errors s)) ≤ 100)%nat as Hlen
    by (simpl; lia).
  split; [exact Hlen|].
  exact (error_log_keeps_the_newest_hundred LoggingScenario.calls s Hlen).
Defined.

(** ** More of the Kotlin implementation *)

Section Kt_more.
Context {E : Type} `{Kt.External E}.
Implicit Types (w : Kt.World E) (k : string) (r : Row).

(** X23.  The Kotlin [syncRecord] returns a result for every record id and
    changes the row of no other record.  It returns a success exactly when
    the row is SYNCED afterwards.  For an id that is not stored it returns
    the failure "Record not found", and for a record already SYNCED a
    success, in both cases without a change.  Otherwise the row keeps its
    content and gets a lastSyncAttempt; when the remote answers, the row is
    SYNCED with the id of the response and no error; when the call throws,
    the failure carries what was thrown, the row has no remote id and the
    message thrown as its syncError, and it is FAILED exactly for an
    [HttpException] with a code from 400 to 499, PENDING otherwise. *)
Theorem kt_syncRecord_result_agrees_with_the_store k w :
  ∃ w' res,
    Kt.repository.syncRecord k w = (w', inr res)
    ∧ (∀ k', k' ≠ k → Kt.table w' !! k' = Kt.table w !! k')
    ∧ (res = Kt.success
       ↔ ∃ r', Kt.table w' !! k = Some r' ∧ col_syncStatus r' = SYNCED)
    ∧ match Kt.table w !! k with
      | None => w' = w ∧ res = Kt.failure (Kt.Exception (Some "Record not found"))
      | Some r =>
          if bool_decide (col_syncStatus r = SYNCED) then w' = w
          else ∃ r' out,
                 Kt.table w' !! k = Some r' ∧ Effect.same_content r r'
                 ∧ is_Some (col_lastSyncAttempt r')
                 ∧ sent_in (Kt.log w') = sent_in (Kt.log w) ++ [k]
                 ∧ match out with
                   | inr response =>
                       res = Kt.success ∧ col_syncStatus r' = SYNCED
                       ∧ col_remoteId r' = Some (resp_id response)
                       ∧ col_syncError r' = None
                   | inl e =>
                       res = Kt.failure e
                       ∧ col_syncStatus r'
                         = (if KtEffect.is_permanent e then FAILED else PENDING)
                       ∧ col_remoteId r' = None
                       ∧ col_syncError r' = Kt.getMessage e
                   end
      end.
Proof.
  destruct w as [t o l].
  unfold Kt.repository.syncRecord. unfold_kt. simpl.
  destruct (t !! k) as [r|] eqn:Hk; simpl.
  2: { eexists _, _. split; [done|]. split; [done|]. split; [|done].
       split; [done|]. intros (r' & Hr' & _). simpl in Hr'. congruence. }
  destruct (bool_decide (col_syncStatus r = SYNCED)) eqn:Hst; simpl.
  { apply bool_decide_eq_true in Hst. eexists _, _. split; [done|].
    split; [done|]. split; [|done]. split; [|done]. intros _. by exists r. }
  destruct (Kt.currentTimeMillis o) as [o1 now1]. simpl. rewrite Hk. simpl.
  destruct (Kt.apiService_createPost _ o1) as [o2 [e|response]]; simpl.
  - destruct (Kt.currentTimeMillis o2) as [o3 now2]. simpl.
    rewrite lookup_insert_eq. simpl.
    eexists _, _. split; [done|]. simpl. split; [|split].
    + intros k' Hne. by rewrite !lookup_insert_ne.
    + rewrite lookup_insert_eq. split; [done|]. intros (r' & [= <-] & Hs).
      simpl in Hs. by destruct (match e with Kt.HttpException _ _ => _ | _ => _ end).
    + eexists _, (inl e). rewrite lookup_insert_eq. split; [done|].
      split; [by repeat split|]. split; [done|]. simpl.
      rewrite !sent_in_app. simpl. split; [by rewrite !app_nil_r|].
      split; [done|]. split; [|done]. by destruct e.
  - destruct (Kt.currentTimeMillis o2) as [o3 now2]. simpl.
    rewrite lookup_insert_eq. simpl.
    eexists _, _. split; [done|]. simpl. split; [|split].
    + intros k' Hne. by rewrite !lookup_insert_ne.
    + rewrite lookup_insert_eq. split; [|done]. intros _. by eexists.
    + eexists _, (inr response). rewrite lookup_insert_eq. split; [done|].
      split; [by repeat split|]. split; [done|]. simpl.
      rewrite !sent_in_app. simpl. split; [by rewrite !app_nil_r|]. done.
Qed.

(** X24.  The Kotlin [CreateRecordUseCase] checks the title only, and only
    for being blank.  A blank title is refused with "Title cannot be
    empty" before anything is written.  Any other title is stored as it is
    given, without trimming and whatever its length, together with the body
    as it is given, be it empty; the record is PENDING, without remote id,
    attempt or error.  (The id generated is taken not to be in use.) *)
Theorem kt_CreateRecordUseCase_checks_the_title_only title_ body_ w :
  Kt.table w !! (Kt.randomUUID (Kt.outside w)).2 = None →
  if Kt.useCase.isBlank title_
  then Kt.useCase.CreateRecordUseCase title_ body_ w
       = (w, inl (Kt.Exception (Some "Title cannot be empty")))
  else ∃ w' now,
         Kt.useCase.CreateRecordUseCase title_ body_ w = (w', inr ())
         ∧ Kt.table w'
           = <[(Kt.randomUUID (Kt.outside w)).2 :=
                 mkRow title_ body_ now PENDING None None None]> (Kt.table w)
         ∧ Kt.log w'
           = Kt.log w ++ [EvInsert (Kt.randomUUID (Kt.outside w)).2
                            (mkRow title_ body_ now PENDING None None None)].
Proof.
  intros Hfresh. unfold Kt.useCase.CreateRecordUseCase.
  destruct (Kt.useCase.isBlank title_); [done|].
  unfold Kt.repository.createRecord, Kt.recordDao.insertRecord. unfold_kt.
  destruct w as [t o l]. simpl in *.
  destruct (Kt.randomUUID o) as [o1 uuid]. simpl in *.
  destruct (Kt.currentTimeMillis o1) as [o2 now]. simpl. rewrite Hfresh. simpl.
  by eexists _, now.
Qed.

Lemma kt_getCountByStatus_run st w :
  Kt.recordDao.getCountByStatus st w
  = (w, inr (Z.of_nat (List.length (filter (has_status st) (rows (Kt.table w)))))).
Proof. done. Qed.

(** X25.  The Kotlin statistics leave out the records in SYNCING.
    [getSyncStats] changes nothing and returns a map with the three keys
    "synced", "pending" and "failed"; the three counts and the number of
    rows in SYNCING add up to the number of stored records, and the pending
    count is the number of records [getPendingRecords] returns. *)
Theorem kt_sync_stats_leave_out_SYNCING w :
  ∃ stats n_synced n_pending n_failed pending,
    Kt.repository.getSyncStats w = (w, inr stats)
    ∧ stats !! "synced" = Some n_synced
    ∧ stats !! "pending" = Some n_pending
    ∧ stats !! "failed" = Some n_failed
    ∧ size stats = 3%nat
    ∧ n_synced + n_pending + n_failed
      + Z.of_nat (List.length (filter (has_status SYNCING) (rows (Kt.table w))))
      = Z.of_nat (size (Kt.table w))
    ∧ Kt.repository.getPendingRecords w = (w, inr pending)
    ∧ n_pending = Z.of_nat (List.length pending).
Proof.
  eexists _, _, _, _, _. split.
  { unfold Kt.repository.getSyncStats. unfold_monad.
    do 3 (rewrite kt_getCountByStatus_run; cbv beta iota). done. }
  unfold list_to_map. simpl foldr.
  split; [by rewrite lookup_insert_eq|].
  split; [by rewrite lookup_insert_ne, lookup_insert_eq by done|].
  split; [by rewrite !lookup_insert_ne, lookup_insert_eq by done|].
  split.
  { rewrite !map_size_insert_None, map_size_empty; [done|..].
    - apply lookup_empty.
    - by rewrite lookup_insert_ne, lookup_empty by done.
    - by rewrite !lookup_insert_ne, lookup_empty by done. }
  split; [|done].
  rewrite <- length_rows, (length_by_status (rows (Kt.table w))). lia.
Qed.

(** X26.  The Kotlin [GetRecordsUseCase] changes nothing and lists every
    stored record exactly once, the newest first, each as the domain record
    of its row, which has all the columns but lastSyncAttempt. *)
Theorem kt_GetRecordsUseCase_lists_every_record_once_newest_first w :
  ∃ records,
    Kt.useCase.GetRecordsUseCase w = (w, inr records)
    ∧ Sorted (λ a b, Kt.mapper.d_createdAt b ≤ Kt.mapper.d_createdAt a) records
    ∧ NoDup (Kt.mapper.d_id <$> records)
    ∧ List.length records = size (Kt.table w)
    ∧ (∀ record, record ∈ records
         ↔ ∃ r, Kt.table w !! Kt.mapper.d_id record = Some r
                ∧ record = Kt.mapper.toDomain (to_entity (Kt.mapper.d_id record) r)).
Proof.
  eexists. split; [done|]. simpl.
  unfold Kt.mapper.toDomain_list, order_by_createdAt_desc.
  split; [|split; [|split]].
  - apply (Sorted_fmap _ newer_first); [by intros [] []|].
    apply Sorted_merge_sort. intros a b. unfold newer_first. lia.
  - assert (∀ l : list RecordEntity,
              Kt.mapper.d_id <$> (Kt.mapper.toDomain <$> l) = id <$> l) as Hids.
    { induction l as [|e l IH]; [done|]. by rewrite !fmap_cons, IH. }
    rewrite Hids, merge_sort_Permutation, rows_ids. apply NoDup_fst_map_to_list.
  - by rewrite length_fmap, merge_sort_Permutation, length_rows.
  - intros record. rewrite list_elem_of_fmap. split.
    + intros (e & -> & He). rewrite merge_sort_Permutation in He.
      apply elem_of_rows in He. exists (to_row e). split; [by destruct e|].
      by destruct e.
    + intros (r & Hk & ->). simpl in Hk.
      exists (to_entity (Kt.mapper.d_id record) r).
      split; [done|]. rewrite merge_sort_Permutation. apply elem_of_rows.
      simpl. rewrite Hk. by destruct r.
Qed.

End Kt_more.

(** A title of 300 letters and an empty body are stored as they are. *)
Lemma kt_CreateRecordUseCase_checks_the_title_only_witness :
  let w := Kt.mkWorld ∅ (mkKScript [] 5000) [] in
  let title_ := JS.repeat "a" 300 in
  Kt.table w !! (Kt.randomUUID (Kt.outside w)).2 = None
  ∧ if Kt.useCase.isBlank title_
    then Kt.useCase.CreateRecordUseCase title_ EmptyString w
         = (w, inl (Kt.Exception (Some "Title cannot be empty")))
    else ∃ w' now,
           Kt.useCase.CreateRecordUseCase title_ EmptyString w = (w', inr ())
           ∧ Kt.table w'
             = <[(Kt.randomUUID (Kt.outside w)).2 :=
                   mkRow title_ EmptyString now PENDING None None None]> (Kt.table w)
           ∧ Kt.log w'
             = Kt.log w ++ [EvInsert (Kt.randomUUID (Kt.outside w)).2
                              (mkRow title_ EmptyString now PENDING None None None)].
Proof.
  intros w title_.
  assert (Kt.table w !! (Kt.randomUUID (Kt.outside w)).2 = None) as Hfresh
    by (vm_compute; reflexivity).
  split; [exact Hfresh|].
  exact (kt_CreateRecordUseCase_checks_the_title_only title_ EmptyString w Hfresh).
Defined.

(** ** More on creation, single attempts and the queue *)

Section TS_queue.
Context {E : Type} `{TS.External E}.
Implicit Types (w : TS.World E) (k : string) (r : Row).

Lemma validation_error_valid title_ body_ :
  Trace.valid_content (JS.trim title_) (JS.trim body_) →
  Effect.validation_error title_ body_ = None.
Proof.
  intros [[Ht1 Ht2] [Hb1 Hb2]]. unfold Effect.validation_error.
  rewrite !blank_test.
  rewrite (bool_decide_false (JS.trim title_ = EmptyString))
    by (intros Heq; rewrite Heq in Ht1; by vm_compute in Ht1).
  rewrite (bool_decide_false (JS.trim body_ = EmptyString))
    by (intros Heq; rewrite Heq in Hb1; by vm_compute in Hb1).
  apply Z.ltb_ge in Ht2, Hb2. by rewrite Ht2, Hb2.
Qed.

(** X27.  With the database initialised and a generated id that is not in
    use, [createRecord] succeeds exactly when the trimmed title has 1 to
    200 characters and the trimmed body 1 to 5000: every input within the
    bounds is stored, every other is refused. *)
Theorem createRecord_accepts_exactly_the_valid_input title_ body_ w :
  TS.dbInstance w = true → TS.table w !! (TS.uuidv4 (TS.outside w)).2 = None →
  (∃ w' record,
     TS.useCases.createRecord title_ body_ w = (w', inr (TS.Success record)))
  ↔ Trace.valid_content (JS.trim title_) (JS.trim body_).
Proof.
  intros Hd Hfresh. rewrite createRecord_run. unfold Effect.createRecord_effect.
  split.
  - intros (w' & record & Hrun).
    destruct (Effect.validation_error title_ body_) eqn:Hv; [done|].
    by apply validation_error_None.
  - intros Hv. rewrite (validation_error_valid _ _ Hv).
    destruct (TS.uuidv4 (TS.outside w)) as [o1 uuid]. simpl in Hfresh.
    destruct (TS.Date_now o1) as [o2 now]. rewrite Hd, Hfresh. by eexists _, _.
Qed.

(** X28.  [syncRecord] is idempotent once the remote has accepted the
    record: a call that returned a success, repeated on the store it left,
    returns the same result and changes nothing; in particular it does not
    call the remote again. *)
Theorem syncRecord_is_idempotent_once_accepted k w w1 result :
  TS.repository.syncRecord k w = (w1, inr result) → TS.success result = true →
  TS.repository.syncRecord k w1 = (w1, inr result).
Proof.
  rewrite !syncRecord_eq. unfold Trace.syncRecord_result, Effect.syncRecord_world.
  destruct (TS.dbInstance w) eqn:Hd; [|done].
  destruct (TS.table w !! k) as [r|] eqn:Hk; [|by intros [= <- <-]].
  destruct (Effect.skipped r) eqn:Hskip.
  { intros [= <- <-] _. by rewrite Hd, Hk, Hskip. }
  destruct (attempt_table k r w) as (now & Ht & _ & Hdb).
  intros [= <- <-] Hs. rewrite Hdb, Hd, Ht, lookup_insert_eq.
  destruct (TS.axios_post _ _) as [o1 [x|response]]; [done|]. simpl. done.
Qed.

(** X29.  A pass only shrinks the queue.  Every record that is PENDING
    when a pass has ended was PENDING when it started, and its row holds the
    trace of the attempt that failed: an error message, a lastSyncAttempt,
    and no remote id. *)
Theorem a_pass_only_shrinks_the_queue w k :
  TS.dbInstance w = true →
  Effect.stored_with PENDING (TS.table (TS.useCases.syncRecords w).1) k →
  Effect.stored_with PENDING (TS.table w) k
  ∧ ∃ r', TS.table (TS.useCases.syncRecords w).1 !! k = Some r'
          ∧ is_Some (col_syncError r') ∧ is_Some (col_lastSyncAttempt r')
          ∧ col_remoteId r' = None.
Proof.
  intros Hd. unfold TS.useCases.syncRecords. rewrite forward_world.
  destruct (syncPendingRecords_trace w Hd)
    as (outs & w' & Hrun & Hlen & _ & _ & Htab & Hframe).
  rewrite Hrun. simpl. intros (r' & Hk' & Hst').
  assert (Effect.stored_with PENDING (TS.table w) k) as Hp.
  { destruct (TS.table w !! k) as [r|] eqn:Hk.
    - destruct (decide (col_syncStatus r = PENDING)) as [Hst|Hst]; [by exists r|].
      rewrite Hframe, Hk in Hk'; [by simplify_eq|].
      intros (r0 & Hk0 & Hst0). by simplify_eq.
    - rewrite Hframe, Hk in Hk'; [done|]. intros (r0 & Hk0 & _). by simplify_eq. }
  split; [done|].
  apply select_by_status_stored, list_elem_of_fmap in Hp as (e & -> & He).
  apply list_elem_of_lookup_1 in He as [i He].
  destruct (lookup_lt_is_Some_2 outs i) as [o Ho].
  { rewrite Hlen. by eapply lookup_lt_Some. }
  rewrite (Htab i e o He Ho) in Hk'. injection Hk' as <-.
  eexists. split; [by eapply Htab|].
  destruct o as [[x|response] now]; [|done]. by repeat split.
Qed.

Lemma attempt_event_consistent k ev :
  Effect.attempt_event k ev → Trace.consistent_event ev.
Proof.
  destruct ev as [| k' r | | |]; simpl; try done.
  intros [_ Hr] k0 r0 [= <- <-]. unfold Trace.consistent_row.
  destruct Hr as [(-> & ? & ?)|([->| ->] & ? & ?)]; done.
Qed.

Lemma requeue_event_consistent k ev :
  Effect.requeue_event k ev → Trace.consistent_event ev.
Proof.
  destruct ev as [| k' r | | |]; simpl; try done.
  intros (_ & _ & Hst & Hrid & _) k0 r0 [= <- <-]. unfold Trace.consistent_row.
  by rewrite Hst.
Qed.

Lemma create_event_consistent t ev :
  Effect.create_event t ev → Trace.consistent_event ev.
Proof.
  destruct ev as [k r| | | |]; simpl; try done.
  intros (_ & Hst & Hrid & _) k0 r0 [= <- <-]. unfold Trace.consistent_row.
  by rewrite Hst.
Qed.

Lemma pass_event_consistent K ev :
  Effect.pass_event K ev → Trace.consistent_event ev.
Proof.
  intros [->|(k & _ & Ha)]; [done|]. by eapply attempt_event_consistent.
Qed.

Lemma exec_repository_consistent op w :
  Engine.repository_op op = true →
  Effect.evolves Trace.consistent_event w (Engine.exec w op).
Proof.
  destruct op as [|t b| | |k|k st rid err]; simpl; intros Hop; try done.
  - apply initDatabase_evolves.
  - eapply evolves_mono; [|apply createRecord_evolves].
    intros ev Hev. by eapply create_event_consistent.
  - unfold TS.useCases.syncRecords. rewrite forward_world.
    eapply evolves_mono; [|apply syncPendingRecords_evolves].
    intros ev Hev. by eapply pass_event_consistent.
  - unfold TS.useCases.retryFailedSyncs. rewrite forward_world.
    eapply evolves_mono; [|apply retryFailedSyncs_evolves].
    intros ev [(k & _ & Hr)|Hp];
      eauto using requeue_event_consistent, pass_event_consistent.
  - rewrite syncRecord_world_eq.
    eapply evolves_mono; [|apply syncRecord_evolves].
    intros ev Hev. by eapply attempt_event_consistent.
Qed.

Lemma exec_all_repository_consistent ops w :
  forallb Engine.repository_op ops = true →
  Effect.evolves Trace.consistent_event w (Engine.exec_all ops w).
Proof.
  revert w. induction ops as [|op ops IH]; intros w Hops; [apply evolves_refl|].
  simpl in Hops. apply andb_true_iff in Hops as [Hop Hops].
  rewrite exec_all_cons.
  eapply evolves_trans; [by apply exec_repository_consistent|by apply IH].
Qed.

(** X30.  The sync columns of a row fit its status, and stay so.  When in
    every stored row a SYNCED status goes with a remote id and no error, a
    FAILED status with an error and no remote id, and a PENDING status with
    no remote id, and no row is SYNCING, then this is still so after any
    sequence of start-ups, creations, passes, retries and calls of
    [syncRecord]. *)
Theorem status_and_sync_columns_stay_consistent (ops : list Engine.Op) w :
  forallb Engine.repository_op ops = true →
  Trace.consistent_table (TS.table w) →
  Trace.consistent_table (TS.table (Engine.exec_all ops w)).
Proof.
  intros Hops Hinv k r' Hk.
  destruct (exec_all_repository_consistent ops w Hops) as [_ _ (evs & _ & HQ & Hp)].
  destruct (Hp k r' Hk) as [Hin|(ev & Hev & Hw)]; [by eapply Hinv|].
  rewrite Forall_forall in HQ. by eapply (HQ ev Hev).
Qed.

End TS_queue.

(** A creation after the start-up, with a padded title. *)
Lemma createRecord_accepts_exactly_the_valid_input_witness :
  let w := (TS.db.initDatabase (Engine.fresh (mkScript [] 0 ["u1"]))).1 in
  TS.dbInstance w = true ∧ TS.table w !! (TS.uuidv4 (TS.outside w)).2 = None
  ∧ ((∃ w' record,
        TS.useCases.createRecord " A " "B" w = (w', inr (TS.Success record)))
     ↔ Trace.valid_content (JS.trim " A ") (JS.trim "B")).
Proof.
  intros w.
  assert (TS.table w !! (TS.uuidv4 (TS.outside w)).2 = None) as Hfresh
    by (vm_compute; reflexivity).
  split; [reflexivity|]. split; [exact Hfresh|].
  exact (createRecord_accepts_exactly_the_valid_input " A " "B" w eq_refl Hfresh).
Defined.

(** A record the remote accepts, synced twice. *)
Lemma syncRecord_is_idempotent_once_accepted_witness :
  let w := one_row (row_A PENDING None None) [accepted 7; accepted 8] in
  let w1 := (TS.repository.syncRecord "r1" w).1 in
  let result := {| TS.recordId := "r1"; TS.success := true; TS.error := None;
                   TS.result_remoteId := Some 7 |} in
  TS.repository.syncRecord "r1" w = (w1, inr result) ∧ TS.success result = true
  ∧ TS.repository.syncRecord "r1" w1 = (w1, inr result).
Proof.
  intros w w1 result.
  assert (TS.repository.syncRecord "r1" w = (w1, inr result)) as Hrun
    by (vm_compute; reflexivity).
  split; [exact Hrun|]. split; [reflexivity|].
  exact (syncRecord_is_idempotent_once_accepted "r1" w w1 result Hrun eq_refl).
Defined.

(** A record that stays in the queue: the remote could not be reached. *)
Lemma a_pass_only_shrinks_the_queue_witness :
  let w := one_row (row_A PENDING None None) [no_network] in
  TS.dbInstance w = true
  ∧ Effect.stored_with PENDING (TS.table (TS.useCases.syncRecords w).1) "r1"
  ∧ Effect.stored_with PENDING (TS.table w) "r1"
  ∧ ∃ r', TS.table (TS.useCases.syncRecords w).1 !! "r1" = Some r'
          ∧ is_Some (col_syncError r') ∧ is_Some (col_lastSyncAttempt r')
          ∧ col_remoteId r' = None.
Proof.
  intros w.
  assert (Effect.stored_with PENDING (TS.table (TS.useCases.syncRecords w).1) "r1")
    as Hp.
  { eexists. split; [vm_compute; reflexivity|reflexivity]. }
  split; [reflexivity|]. split; [exact Hp|].
  exact (a_pass_only_shrinks_the_queue w "r1" eq_refl Hp).
Defined.

(** From a fresh install: a start-up, a creation, a pass in which the
    remote refuses the record, a retry in which it accepts it. *)
Lemma status_and_sync_columns_stay_consistent_witness :
  let w := Engine.fresh (mkScript [http_error 404; accepted 1] 0 ["u1"]) in
  let ops := [Engine.OpInit; Engine.OpCreate "A" "B"; Engine.OpSyncNow;
              Engine.OpRetryFailed; Engine.OpSyncRecord "u1"] in
  forallb Engine.repository_op ops = true
  ∧ Trace.consistent_table (TS.table w)
  ∧ Trace.consistent_table (TS.table (Engine.exec_all ops w)).
Proof.
  intros w ops.
  assert (Trace.consistent_table (TS.table w)) as Hinv.
  { intros k r Hk. vm_compute in Hk. discriminate. }
  split; [reflexivity|]. split; [exact Hinv|].
  exact (status_and_sync_columns_stay_consistent ops w eq_refl Hinv).
Defined.

(** ** Passes that overlap *)

Section Async_run.
Context {S X : Type}.

Lemma run_await {B} (m : M S X B) (s : S) : Async.run (Async.await m) s = m s.
Proof. simpl. by destruct (m s) as [s' [x|b]]. Qed.

Lemma run_bind {A B} (t : Async.Task S X A) (f : A → Async.Task S X B) (s : S) :
  Async.run (Async.bind t f) s
  = match Async.run t s with
    | (s', inl x) => (s', inl x)
    | (s', inr a) => Async.run (f a) s'
    end.
Proof.
  revert s. induction t as [a|x|C m k IH]; intros s; simpl; try done.
  destruct (m s) as [s' r]. apply IH.
Qed.

Lemma run_mbind {A B} (t : Async.Task S X A) (f : A → Async.Task S X B) (s : S) :
  Async.run (t ≫= f) s
  = match Async.run t s with
    | (s', inl x) => (s', inl x)
    | (s', inr a) => Async.run (f a) s'
    end.
Proof. apply run_bind. Qed.

Lemma run_mret {A} (a : A) (s : S) :
  Async.run (mret a : Async.Task S X A) s = (s, inr a).
Proof. done. Qed.

Lemma M_bind_run {A B} (m : M S X A) (f : A → M S X B) (s : S) :
  (m ≫= f) s
  = match m s with
    | (s', inl x) => (s', inl x)
    | (s', inr a) => f a s'
    end.
Proof. done. Qed.

Lemma M_ret_run {A} (a : A) (s : S) : (mret a : M S X A) s = (s, inr a).
Proof. done. Qed.

Lemma run_catch {A} (t : Async.Task S X A) (h : X → Async.Task S X A) (s : S) :
  Async.run (Async.catch t h) s
  = match Async.run t s with
    | (s', inl x) => Async.run (h x) s'
    | (s', inr a) => (s', inr a)
    end.
Proof.
  revert s. induction t as [a|x|C m k IH]; intros s; simpl; try done.
  destruct (m s) as [s' r]. apply IH.
Qed.

(** Running a function is resuming it until it has returned. *)
Lemma run_step {A} (t : Async.Task S X A) (s : S) :
  Async.run t s = Async.run (Async.step t s).2 (Async.step t s).1.
Proof. destruct t as [a|x|C m k]; simpl; try done. by destruct (m s). Qed.

Lemma run_steps {A} (n : nat) (t : Async.Task S X A) (s : S) :
  Async.run t s = Async.run (Async.steps n t s).2 (Async.steps n t s).1.
Proof.
  revert t s. induction n as [|n IH]; intros t s; simpl; [done|].
  rewrite run_step. destruct (Async.step t s) as [s' t']. apply IH.
Qed.

End Async_run.

Section TS_overlap.
Context {E : Type} `{TS.External E} `{TS.backgroundSync.NetInfo E}.
Implicit Types (w : TS.World E) (k : string).

(** With nothing else running in between, the functions with their
    [await]s marked are the functions of the repository. *)
Lemma run_syncRecord k w :
  Async.run (TSAsync.syncRecord k) w = TS.repository.syncRecord k w.
Proof.
  unfold TSAsync.syncRecord, TS.repository.syncRecord.
  rewrite run_catch. unfold try_catch.
  rewrite run_mbind, run_await, M_bind_run.
  destruct (TS.db.getRecordById k w) as [w1 [x|[entity|]]].
  - by rewrite run_mbind, run_await, M_bind_run.
  - destruct (bool_decide (syncStatus entity = SYNCED)
              && bool_decide (remoteId entity ≠ None)); [done|].
    cbv zeta. rewrite run_mbind, run_await, M_bind_run.
    destruct (TS.repository.send k _ w1) as [w2 [x|response]].
    + by rewrite run_mbind, run_await, M_bind_run.
    + rewrite run_mbind, run_await, !M_bind_run.
      destruct (TS.mappers.mergePostResponse entity response w2)
        as [w3 [x|updatedEntity]].
      * by rewrite run_mbind, run_await, M_bind_run.
      * rewrite M_bind_run.
        destruct (TS.db.updateRecord updatedEntity w3) as [w4 [x|[]]]; [|done].
        by rewrite run_mbind, run_await, M_bind_run.
  - done.
Qed.

Lemma run_sync_each (l : list RecordEntity) (results : list TS.SyncResult) w :
  Async.run (TSAsync.sync_each l results) w = TS.repository.sync_each l results w.
Proof.
  revert results w. induction l as [|entity rest IH]; intros results w; [done|].
  change (TSAsync.sync_each (entity :: rest) results)
    with (result ← TSAsync.syncRecord (id entity);
          _ ← Async.await (TS.sleep 100);
          TSAsync.sync_each rest (results ++ [result])).
  change (TS.repository.sync_each (entity :: rest) results)
    with (result ← TS.repository.syncRecord (id entity);
          _ ← TS.sleep 100;
          TS.repository.sync_each rest (results ++ [result])).
  rewrite run_mbind, run_syncRecord, M_bind_run.
  destruct (TS.repository.syncRecord (id entity) w) as [w1 [x|result]]; [done|].
  rewrite run_mbind, run_await, M_bind_run.
  destruct (TS.sleep 100 w1) as [w2 [x|[]]]; [done|]. apply IH.
Qed.

Lemma run_syncPendingRecords w :
  Async.run TSAsync.syncPendingRecords w = TS.repository.syncPendingRecords w.
Proof.
  unfold TSAsync.syncPendingRecords, TS.repository.syncPendingRecords.
  unfold TSAsync.as_result, TS.repository.as_result.
  rewrite run_catch. unfold try_catch.
  rewrite !run_mbind, run_await, !M_bind_run.
  destruct (TS.db.getRecordsByStatus PENDING w) as [w1 [x|[|entity rest]]];
    try done.
  rewrite run_sync_each.
  by destruct (TS.repository.sync_each (entity :: rest) [] w1) as [w2 [x|results]].
Qed.

Lemma run_triggerImmediateSync w :
  Async.run TSAsync.triggerImmediateSync w
  = TS.backgroundSync.triggerImmediateSync w.
Proof.
  unfold TSAsync.triggerImmediateSync, TS.backgroundSync.triggerImmediateSync.
  rewrite run_catch. unfold try_catch.
  rewrite run_mbind, run_await, M_bind_run.
  destruct (TS.backgroundSync.fetch w) as [w1 [x|netInfo]]; [done|].
  destruct (TS.backgroundSync.not_ _ || TS.backgroundSync.not_ _); [done|].
  rewrite run_mbind, run_syncPendingRecords, M_bind_run.
  by destruct (TS.repository.syncPendingRecords w1) as [w2 [x|[data|e]]].
Qed.

End TS_overlap.

(** ** The triggers of a pass *)

Section App_facts.
Context {E : Type} `{TS.External E} `{TS.backgroundSync.NetInfo E}.
Implicit Types (app : App.State (E:=E)).

(** [triggerSync] starts nothing while [isSyncing] is set. *)
Lemma triggerSync_is_guarded app :
  App.isSyncing app = true → App.exec app App.TriggerSync = app.
Proof. intros Hs. simpl. unfold App.triggerSync. by rewrite Hs. Qed.

(** The network listener starts a call of [triggerImmediateSync] whenever
    the device comes online, whatever [isSyncing] holds and whatever calls
    are in progress. *)
Lemma networkListener_is_not_guarded app (state : TS.backgroundSync.NetInfoState) :
  TS.backgroundSync.truthy (TS.backgroundSync.connected state) = true →
  TS.backgroundSync.not_ (App.previouslyConnected app) = true →
  App.calls (App.exec app (App.NetworkChange state))
  = App.calls app ++ [App.mkCall TSAsync.triggerImmediateSync App.ByListener]
  ∧ App.isSyncing (App.exec app (App.NetworkChange state)) = App.isSyncing app
  ∧ App.world (App.exec app (App.NetworkChange state)) = App.world app.
Proof.
  intros Hc Hp. simpl. unfold App.networkListener, TS.backgroundSync.networkListener.
  by rewrite Hc, Hp.
Qed.

(** A call resumed while nothing else runs goes the way of the sequential
    function: after any number of resumptions, what is left to run ends
    as [TS.backgroundSync.triggerImmediateSync] does. *)
Lemma resumed_alone_is_sequential (n : nat) (w : TS.World E) :
  let '(w', t') := Async.steps n TSAsync.triggerImmediateSync w in
  Async.run t' w' = TS.backgroundSync.triggerImmediateSync w.
Proof.
  pose proof (run_steps n TSAsync.triggerImmediateSync w) as Hrun.
  destruct (Async.steps n TSAsync.triggerImmediateSync w) as [w' t'].
  cbn [fst snd] in Hrun. by rewrite <- Hrun, run_triggerImmediateSync.
Qed.

End App_facts.

(** C9, on the code.  [SyncProvider.triggerSync] has started a pass and
    [isSyncing] is set; the pass has selected the pending record r1, read
    it, and is awaiting the answer of the remote.  The device comes online:
    the network listener calls [triggerImmediateSync] without looking at
    [isSyncing], and a second pass is in progress beside the first, while a
    call of [triggerSync] at this point starts nothing.  The second pass
    selects r1, still PENDING, and reads it before the first has written
    it.  Both passes send r1 and both report success: the remote has
    accepted the record twice, and the row keeps the remote id of the
    second answer. *)
Theorem a_network_change_starts_a_second_pass_over_the_same_record :
  let online := TS.backgroundSync.mkNetInfoState "wifi" (Some true) (Some true) in
  let app0 :=
    App.mounted (one_row (row_A PENDING None None) [accepted 101; accepted 102]) in
  let overlap :=
    App.exec_all [ App.TriggerSync; App.Resume 0; App.Resume 0; App.Resume 0;
                   App.NetworkChange online ] app0 in
  let final :=
    App.exec_all [ App.Resume 1; App.Resume 1; App.Resume 1;
                   App.Resume 0; App.Resume 1; App.Resume 0; App.Resume 1;
                   App.Resume 0; App.Resume 1 ] overlap in
  App.isSyncing overlap = true
  ∧ App.caller <$> App.in_progress overlap = [App.ByTriggerSync; App.ByListener]
  ∧ App.exec overlap App.TriggerSync = overlap
  ∧ sent_in (TS.log (App.world overlap)) = []
  ∧ App.in_progress final = []
  ∧ App.returned final = [Some true; Some true]
  ∧ sent_in (TS.log (App.world final)) = ["r1"; "r1"]
  ∧ TS.log (App.world final)
    = [ EvSend "r1" (mkDTO "A" "B" 1) (accepted 101);
        EvSend "r1" (mkDTO "A" "B" 1) (accepted 102);
        EvUpdate "r1" (mkRow "A" "B" 1000 SYNCED (Some 101) (Some 5000) None);
        EvUpdate "r1" (mkRow "A" "B" 1000 SYNCED (Some 102) (Some 5001) None);
        EvWait 100; EvWait 100 ]
  ∧ TS.table (App.world final) !! "r1"
    = Some (mkRow "A" "B" 1000 SYNCED (Some 102) (Some 5001) None).
Proof. vm_compute. repeat split. Qed.
